(** * winappdbg.process: a shallow embedding of the snapshot engine

    The development follows [winappdbg/process.py]:
    - the handle manager of a [Process] ([open_handle], [close_handle],
      [get_handle]);
    - the memory region walk ([iter_memory_map]) and the best-effort read
      ([peek]);
    - the memory snapshot restore state machine
      ([restore_memory_snapshot], [__restore_mbi]);
    - the process container and its scan strategies ([scan],
      [scan_processes_fast], [scan_processes_and_threads], ...).

    The operating system is an external collaborator.  It is modelled by
    oracles that answer every API call as a function of the history of the
    calls made so far, so that a statement quantified over the oracles
    covers every behaviour of a target that changes concurrently. *)

From Stdlib Require Import ZArith List Bool Lia String.
From stdpp Require Import base gmap sets list strings.

Open Scope Z_scope.

#[local] Set Warnings "-clear-no-such-hyp".

(** ** Python values shared by the whole development *)

(** The exceptions the modelled code raises or lets through. *)
Inductive Exn :=
| WindowsError (winerror : Z)
| RuntimeError
| TypeError
| AttributeError
| KeyError
| NotImplementedError.

(** Outcome of running a piece of Python code. *)
Inductive Result (A : Type) :=
| Ok (a : A)
| Raise (e : Exn).
Arguments Ok {A} a.
Arguments Raise {A} e.

(** Outcome of a raw API call: the [win32] wrappers turn a failure into a
    [WindowsError] carrying the error code. *)
Inductive OsResult (A : Type) :=
| Success (a : A)
| Failure (winerror : Z).
Arguments Success {A} a.
Arguments Failure {A} winerror.

Definition is_Ok {A} (r : Result A) : bool :=
  match r with Ok _ => true | Raise _ => false end.

(** ** Constants of the [win32] module

    The [win32] package is not part of the sources at hand; the values are
    those of the Windows SDK headers it mirrors. *)
Module win32.
Definition INVALID_HANDLE_VALUE : Z := -1.

Definition ERROR_ACCESS_DENIED : Z := 5.
Definition ERROR_INVALID_PARAMETER : Z := 87.
Definition ERROR_INVALID_ADDRESS : Z := 487.

Definition MEM_COMMIT : Z := 0x1000.
Definition MEM_RESERVE : Z := 0x2000.
Definition MEM_DECOMMIT : Z := 0x4000.
Definition MEM_RELEASE : Z := 0x8000.
Definition MEM_FREE : Z := 0x10000.

Definition MEM_PRIVATE : Z := 0x20000.
Definition MEM_MAPPED : Z := 0x40000.
Definition MEM_IMAGE : Z := 0x1000000.

Definition PAGE_NOACCESS : Z := 0x01.
Definition PAGE_READONLY : Z := 0x02.
Definition PAGE_READWRITE : Z := 0x04.
Definition PAGE_WRITECOPY : Z := 0x08.
Definition PAGE_EXECUTE : Z := 0x10.
Definition PAGE_EXECUTE_READ : Z := 0x20.
Definition PAGE_EXECUTE_READWRITE : Z := 0x40.
Definition PAGE_EXECUTE_WRITECOPY : Z := 0x80.
Definition PAGE_GUARD : Z := 0x100.

Definition PROCESS_VM_OPERATION : Z := 0x0008.
Definition PROCESS_VM_READ : Z := 0x0010.
Definition PROCESS_VM_WRITE : Z := 0x0020.
Definition PROCESS_QUERY_INFORMATION : Z := 0x0400.
Definition PROCESS_SUSPEND_RESUME : Z := 0x0800.
Definition PROCESS_QUERY_LIMITED_INFORMATION : Z := 0x1000.
End win32.

(** A process handle object: the native handle value and the access mask
    it was opened with ([hProcess.dwAccess]). *)
Record ProcessHandle := mkHandle {
  value : Z;
  dwAccess : Z
}.

(** [win32.MemoryBasicInformation], with the two attributes the snapshot
    code adds to it ([filename], [content]). *)
Record MemoryBasicInformation := mkMBI {
  BaseAddress : Z;
  RegionSize : Z;
  State : Z;
  Protect : Z;
  Type_ : Z;
  filename : option string;
  content : option (list Byte.byte)
}.

(** Modelled from the spec: the predicates of the absent class
    [win32.MemoryBasicInformation].  A region is free, reserved or
    committed according to [State]; it has content when it is committed
    and neither a guard page nor inaccessible; it is readable when it has
    content and one of the read protections. *)
Module MBI.
Definition is_free (m : MemoryBasicInformation) : bool :=
  State m =? win32.MEM_FREE.
Definition is_reserved (m : MemoryBasicInformation) : bool :=
  State m =? win32.MEM_RESERVE.
Definition is_commited (m : MemoryBasicInformation) : bool :=
  State m =? win32.MEM_COMMIT.
Definition is_image (m : MemoryBasicInformation) : bool :=
  Type_ m =? win32.MEM_IMAGE.
Definition is_mapped (m : MemoryBasicInformation) : bool :=
  Type_ m =? win32.MEM_MAPPED.
Definition is_private (m : MemoryBasicInformation) : bool :=
  Type_ m =? win32.MEM_PRIVATE.

Definition has_flag (flags mask : Z) : bool :=
  negb (Z.land flags mask =? 0).

Definition READABLE : Z :=
  Z.lor win32.PAGE_EXECUTE_READ
    (Z.lor win32.PAGE_EXECUTE_READWRITE
       (Z.lor win32.PAGE_EXECUTE_WRITECOPY
          (Z.lor win32.PAGE_READONLY
             (Z.lor win32.PAGE_READWRITE win32.PAGE_WRITECOPY)))).
Definition WRITEABLE : Z :=
  Z.lor win32.PAGE_EXECUTE_READWRITE
    (Z.lor win32.PAGE_EXECUTE_WRITECOPY
       (Z.lor win32.PAGE_READWRITE win32.PAGE_WRITECOPY)).
Definition EXECUTABLE : Z :=
  Z.lor win32.PAGE_EXECUTE
    (Z.lor win32.PAGE_EXECUTE_READ
       (Z.lor win32.PAGE_EXECUTE_READWRITE win32.PAGE_EXECUTE_WRITECOPY)).

Definition has_content (m : MemoryBasicInformation) : bool :=
  is_commited m
  && negb (has_flag (Protect m) (Z.lor win32.PAGE_GUARD win32.PAGE_NOACCESS)).
Definition is_readable (m : MemoryBasicInformation) : bool :=
  has_content m && has_flag (Protect m) READABLE.
Definition is_writeable (m : MemoryBasicInformation) : bool :=
  has_content m && has_flag (Protect m) WRITEABLE.
Definition is_executable (m : MemoryBasicInformation) : bool :=
  has_content m && has_flag (Protect m) EXECUTABLE.
End MBI.

(** ** Page arithmetic

    Modelled from the spec: the walk is page-aligned and bounds are
    rounded to page boundaries.  [MemoryAddresses] lives in a module that
    is not part of the sources at hand. *)
Module MemoryAddresses.
Definition pageSize : Z := 0x1000.

Definition align_address_to_page_start (address : Z) : Z :=
  address - address mod pageSize.

Definition align_address_to_page_end (address : Z) : Z :=
  address + pageSize - address mod pageSize.

(** Upper end of the address space, used when no bound is given. *)
Definition max_address : Z := 2 ^ 64 - 1.

Definition align_address_range (begin_ end_ : option Z) : Z * Z :=
  let b := match begin_ with Some b => b | None => 0 end in
  let e := match end_ with Some e => e | None => max_address end in
  let '(b, e) := if e <? b then (e, b) else (b, e) in
  let b := align_address_to_page_start b in
  let e := if negb (e =? align_address_to_page_start e)
           then align_address_to_page_end e else e in
  (b, e).
End MemoryAddresses.

(** ** Snapshot arguments
*)

(** The values a caller can pass as a snapshot or put into one. *)
#[warnings="-register-all"]
Inductive PyValue :=
| PyNone
| PyInt (z : Z)
| PyGenerator
| PyMBI (m : MemoryBasicInformation)
| PyList (l : list PyValue).

Definition truthy (v : PyValue) : bool :=
  match v with
  | PyNone => false
  | PyInt z => negb (z =? 0)
  | PyGenerator => true
  | PyMBI _ => true
  | PyList l => match l with [] => false | _ => true end
  end.

Definition isinstance_list (v : PyValue) : bool :=
  match v with PyList _ => true | _ => false end.

Definition isinstance_MBI (v : PyValue) : bool :=
  match v with PyMBI _ => true | _ => false end.

(** [isinstance(snapshot[0], win32.MemoryBasicInformation)], evaluated
    only on a non-empty list. *)
Definition first_isinstance_MBI (v : PyValue) : bool :=
  match v with
  | PyList (x :: _) => isinstance_MBI x
  | _ => false
  end.

Definition items (v : PyValue) : list PyValue :=
  match v with PyList l => l | _ => [] end.

(** ** The operating system as a history-dependent oracle *)

(** One entry per interaction with the outside world, newest first in a
    log.  Every API event records the arguments of the call and the
    answer it got. *)
Inductive Event :=
| EvOpenProcess (dwDesiredAccess dwProcessId : Z) (r : OsResult Z)
| EvCloseHandle (h : Z) (r : OsResult unit)
| EvVirtualQueryEx (h lpAddress : Z) (r : OsResult MemoryBasicInformation)
| EvReadProcessMemory (h lpBaseAddress nSize : Z) (r : OsResult (list Byte.byte))
| EvWriteProcessMemory (h lpBaseAddress : Z) (lpBuffer : list Byte.byte)
    (r : OsResult Z)
| EvVirtualAllocEx (h lpAddress dwSize flAllocationType flProtect : Z)
    (r : OsResult Z)
| EvVirtualFreeEx (h lpAddress dwSize dwFreeType : Z) (r : OsResult unit)
| EvVirtualProtectEx (h lpAddress dwSize flNewProtect : Z) (r : OsResult Z)
| EvScanThreads (dwProcessId : Z) (r : OsResult (list Z))
| EvSuspendThread (dwThreadId : Z) (r : OsResult Z)
| EvResumeThread (dwThreadId : Z) (r : OsResult Z)
| EvWarn (msg : string)
| EvIsWow64Process (h : Z) (r : Result bool).

(** The oracles.  Each answers a call from the log of everything that
    happened before it.  The last five fields are what the code takes
    from modules that are not part of the sources at hand:
    [win32.IsWow64Process], whose wrapper raises [AttributeError] where
    the system lacks the function; the attributes [win32.bits] and
    [win32.wow64] of the debugger's own process; whether [win32] defines
    [PROCESS_QUERY_LIMITED_INFORMATION]; and what instantiating
    [textio.HexDump] with an address and a number of bits, and formatting
    the result into a message, gives. *)
Record OS := mkOS {
  os_OpenProcess : list Event -> Z -> Z -> OsResult Z;
  os_CloseHandle : list Event -> Z -> OsResult unit;
  os_VirtualQueryEx : list Event -> Z -> Z -> OsResult MemoryBasicInformation;
  os_ReadProcessMemory : list Event -> Z -> Z -> Z -> OsResult (list Byte.byte);
  os_WriteProcessMemory : list Event -> Z -> Z -> list Byte.byte -> OsResult Z;
  os_VirtualAllocEx : list Event -> Z -> Z -> Z -> Z -> Z -> OsResult Z;
  os_VirtualFreeEx : list Event -> Z -> Z -> Z -> Z -> OsResult unit;
  os_VirtualProtectEx : list Event -> Z -> Z -> Z -> Z -> OsResult Z;
  os_scan_threads : list Event -> Z -> OsResult (list Z);
  os_SuspendThread : list Event -> Z -> OsResult Z;
  os_ResumeThread : list Event -> Z -> OsResult Z;
  os_GetLastError : list Event -> Z;
  os_IsWow64Process : list Event -> Z -> Result bool;
  win32_bits : Z;
  win32_wow64 : bool;
  win32_has_PROCESS_QUERY_LIMITED_INFORMATION : bool;
  HexDump_new : Z -> Z -> Result string
}.

(** The mutable part of a [Process] object that the memory operations
    touch, together with the log of its interactions.  [wow64] is the
    private attribute [__wow64], absent until [is_wow64] sets it. *)
Record ProcessState := mkProcess {
  dwProcessId : Z;
  hProcess : option ProcessHandle;
  threadIds : list Z;
  log : list Event;
  wow64 : option bool
}.

(** ** A state and exception monad for method bodies *)

(** A method body over a mutable state [S]: it ends with a value or an
    exception, and leaves a state in both cases. *)
Definition StateExn (S A : Type) : Type := S -> Result A * S.

Definition ret {S A} (a : A) : StateExn S A := fun s => (Ok a, s).
Definition raise {S A} (e : Exn) : StateExn S A := fun s => (Raise e, s).
Definition bind {S A B} (c : StateExn S A) (k : A -> StateExn S B)
    : StateExn S B :=
  fun s => match c s with
           | (Ok a, s') => k a s'
           | (Raise e, s') => (Raise e, s')
           end.

Notation "'do' x <- c ; k" := (bind c (fun x => k))
  (at level 10, x name, c at level 99, k at level 200).
Notation "c ;; k" := (bind c (fun _ => k))
  (at level 100, k at level 200, right associativity).

(** [try: body except Exception as e: handler e] *)
Definition try_except {S A} (body : StateExn S A)
    (handler : Exn -> StateExn S A) : StateExn S A :=
  fun s => match body s with
           | (Ok a, s') => (Ok a, s')
           | (Raise e, s') => handler e s'
           end.

(** [try: body finally: cleanup]; an exception of the cleanup replaces
    the outcome of the body. *)
Definition try_finally {S A} (body : StateExn S A)
    (cleanup : StateExn S unit) : StateExn S A :=
  fun s => match body s with
           | (r, s') =>
               match cleanup s' with
               | (Ok _, s'') => (r, s'')
               | (Raise e, s'') => (Raise e, s'')
               end
           end.

(** [except WindowsError] clause: other exceptions go through. *)
Definition except_WindowsError {S A} (body : StateExn S A)
    (handler : Z -> StateExn S A) : StateExn S A :=
  try_except body
    (fun e => match e with
              | WindowsError code => handler code
              | _ => raise e
              end).

(** [for x in l: body x] *)
Fixpoint for_each {S A} (body : A -> StateExn S unit) (l : list A)
    : StateExn S unit :=
  match l with
  | [] => ret tt
  | x :: rest => body x ;; for_each body rest
  end.

(** Method bodies of [Process]. *)
Definition M (A : Type) : Type := StateExn ProcessState A.

Definition emit (ev : Event) (s : ProcessState) : ProcessState :=
  mkProcess (dwProcessId s) (hProcess s) (threadIds s) (ev :: log s) (wow64 s).

(** Lift an oracle answer: record the event, raise on failure. *)
Definition os_call {A} (answer : list Event -> OsResult A)
    (ev : OsResult A -> Event) : M A :=
  fun s => let r := answer (log s) in
           match r with
           | Success a => (Ok a, emit (ev r) s)
           | Failure code => (Raise (WindowsError code), emit (ev r) s)
           end.

(** The same for a wrapper that can raise something else than
    [WindowsError]: the answer is the outcome of the Python call. *)
Definition py_call {A} (answer : list Event -> Result A)
    (ev : Result A -> Event) : M A :=
  fun s => let r := answer (log s) in (r, emit (ev r) s).

Definition warn (msg : string) : M unit :=
  fun s => (Ok tt, emit (EvWarn msg) s).

Definition get_hProcess : M (option ProcessHandle) :=
  fun s => (Ok (hProcess s), s).
Definition set_hProcess (h : option ProcessHandle) : M unit :=
  fun s => (Ok tt, mkProcess (dwProcessId s) h (threadIds s) (log s) (wow64 s)).
Definition get_pid : M Z := fun s => (Ok (dwProcessId s), s).
Definition get_threadIds : M (list Z) := fun s => (Ok (threadIds s), s).
Definition set_threadIds (l : list Z) : M unit :=
  fun s => (Ok tt, mkProcess (dwProcessId s) (hProcess s) l (log s) (wow64 s)).
Definition get_wow64 : M (option bool) := fun s => (Ok (wow64 s), s).
Definition set_wow64 (b : bool) : M unit :=
  fun s => (Ok tt, mkProcess (dwProcessId s) (hProcess s) (threadIds s) (log s)
                     (Some b)).

Section WithOS.

Variable os : OS.

(** ** Handle manager *)

(** [hProcess.close()].  Modelled from the spec: a handle whose value is
    "invalid" is equivalent to no handle, so closing it calls nothing. *)
Definition Handle_close (h : ProcessHandle) : M unit :=
  if value h =? win32.INVALID_HANDLE_VALUE then ret tt
  else os_call (fun l => os_CloseHandle os l (value h)) (EvCloseHandle (value h)).

(** [Process.close_handle]: close what is held; [hProcess] becomes [None]
    whatever happens. *)
Definition close_handle : M unit :=
  try_finally
    (do hp <- get_hProcess ;
     match hp with
     | Some h => Handle_close h
     | None => ret tt
     end)
    (set_hProcess None).

(** [Process.open_handle]: open first, then close the previous handle
    (a failing close is only warned about), then store the new one.  The
    stored handle is also returned, for [get_handle] to hand it out. *)
Definition open_handle (dwDesiredAccess : Z) : M ProcessHandle :=
  do pid <- get_pid ;
  do v <- os_call (fun l => os_OpenProcess os l dwDesiredAccess pid)
            (EvOpenProcess dwDesiredAccess pid) ;
  let h := mkHandle v dwDesiredAccess in
  try_except close_handle
    (fun _ => warn "Failed to close process handle") ;;
  set_hProcess (Some h) ;;
  ret h.

(** [Process.get_handle] *)
Definition get_handle (dwDesiredAccess : Z) : M ProcessHandle :=
  do hp <- get_hProcess ;
  match hp with
  | None => open_handle dwDesiredAccess
  | Some h =>
      if value h =? win32.INVALID_HANDLE_VALUE then open_handle dwDesiredAccess
      else if negb (Z.lor (dwAccess h) dwDesiredAccess =? dwAccess h)
           then open_handle (Z.lor (dwAccess h) dwDesiredAccess)
           else ret h
  end.

(** ** Word size of the target *)

Definition IsWow64Process (h : ProcessHandle) : M bool :=
  py_call (fun l => os_IsWow64Process os l (value h))
    (EvIsWow64Process (value h)).

(** [win32.bits == 32 and not win32.wow64]: the debugger runs on a 32
    bit system. *)
Definition on_32_bit_system : bool :=
  (win32_bits os =? 32) && negb (win32_wow64 os).

(** [Process.is_wow64]: the answer is computed once and kept in
    [__wow64].  A [WindowsError] of the handle or of the query counts as
    "not WOW64", and so does a system without the function; any other
    exception goes through and nothing is kept. *)
Definition is_wow64 : M bool :=
  do cached <- get_wow64 ;
  match cached with
  | Some w => ret w
  | None =>
      do w <-
        (if on_32_bit_system then ret false
         else
           except_WindowsError
             (let dwAccess :=
                if win32_has_PROCESS_QUERY_LIMITED_INFORMATION os
                then win32.PROCESS_QUERY_LIMITED_INFORMATION
                else win32.PROCESS_QUERY_INFORMATION in
              do h <- get_handle dwAccess ;
              try_except (IsWow64Process h)
                (fun e => match e with
                          | AttributeError => ret false
                          | _ => raise e
                          end))
             (fun _ => ret false)) ;
      set_wow64 w ;;
      ret w
  end.

(** [Process.get_bits] *)
Definition get_bits : M Z :=
  if on_32_bit_system then ret 32
  else
    do w <- is_wow64 ;
    if w then ret 32 else ret 64.

(** [HexDump(address, bits)] put into a message with [%]. *)
Definition HexDump (address bits : Z) : M string :=
  fun s => (HexDump_new os address bits, s).

(** ** Raw API wrappers used by the memory operations *)

Definition VirtualQueryEx (h : ProcessHandle) (lpAddress : Z)
    : M MemoryBasicInformation :=
  os_call (fun l => os_VirtualQueryEx os l (value h) lpAddress)
    (EvVirtualQueryEx (value h) lpAddress).

Definition ReadProcessMemory (h : ProcessHandle) (lpBaseAddress nSize : Z)
    : M (list Byte.byte) :=
  os_call (fun l => os_ReadProcessMemory os l (value h) lpBaseAddress nSize)
    (EvReadProcessMemory (value h) lpBaseAddress nSize).

(** [len(lpBuffer)]: a missing buffer has no length. *)
Definition py_len (lpBuffer : option (list Byte.byte)) : M Z :=
  match lpBuffer with
  | Some b => ret (Z.of_nat (length b))
  | None => raise TypeError
  end.

Definition WriteProcessMemory (h : ProcessHandle) (lpBaseAddress : Z)
    (lpBuffer : option (list Byte.byte)) : M Z :=
  match lpBuffer with
  | Some b =>
      os_call (fun l => os_WriteProcessMemory os l (value h) lpBaseAddress b)
        (EvWriteProcessMemory (value h) lpBaseAddress b)
  | None => raise TypeError
  end.

Definition VirtualAllocEx (h : ProcessHandle)
    (lpAddress dwSize flAllocationType flProtect : Z) : M Z :=
  os_call
    (fun l => os_VirtualAllocEx os l (value h) lpAddress dwSize
                flAllocationType flProtect)
    (EvVirtualAllocEx (value h) lpAddress dwSize flAllocationType flProtect).

Definition VirtualFreeEx (h : ProcessHandle)
    (lpAddress dwSize dwFreeType : Z) : M unit :=
  os_call (fun l => os_VirtualFreeEx os l (value h) lpAddress dwSize dwFreeType)
    (EvVirtualFreeEx (value h) lpAddress dwSize dwFreeType).

Definition VirtualProtectEx (h : ProcessHandle)
    (lpAddress dwSize flNewProtect : Z) : M Z :=
  os_call
    (fun l => os_VirtualProtectEx os l (value h) lpAddress dwSize flNewProtect)
    (EvVirtualProtectEx (value h) lpAddress dwSize flNewProtect).

(** [ctypes.WinError()]: the error of the last failed call. *)
Definition raise_WinError {A} : M A :=
  fun s => (Raise (WindowsError (os_GetLastError os (log s))), s).

(** ** Memory primitives of [Process] *)

(** [Process.mprotect] *)
Definition mprotect (lpAddress dwSize flNewProtect : Z) : M Z :=
  do h <- get_handle win32.PROCESS_VM_OPERATION ;
  VirtualProtectEx h lpAddress dwSize flNewProtect.

(** [Process.mquery] *)
Definition mquery (lpAddress : Z) : M MemoryBasicInformation :=
  do h <- get_handle win32.PROCESS_QUERY_INFORMATION ;
  VirtualQueryEx h lpAddress.

(** [Process.free]; the wrapper's defaults are a size of 0 and
    [MEM_RELEASE]. *)
Definition free (lpAddress : Z) : M unit :=
  do h <- get_handle win32.PROCESS_VM_OPERATION ;
  VirtualFreeEx h lpAddress 0 win32.MEM_RELEASE.

(** ** The memory map *)

(** What a generator produced: the values it yielded and, when it stopped
    by raising, the exception. *)
Definition Yielded (A : Type) : Type := (list A * option Exn)%type.

(** The [while] loop of [Process.iter_memory_map].  The recursion is on a
    bound on the number of iterations; [iter_memory_map] passes one that
    is never exhausted. *)
Fixpoint iter_memory_map_loop (fuel : nat) (prevAddr currentAddr maxAddr : Z)
    (s : ProcessState) : Yielded MemoryBasicInformation * ProcessState :=
  match fuel with
  | O => (([], None), s)
  | S fuel' =>
      if (prevAddr <? currentAddr) && (currentAddr <? maxAddr) then
        match mquery currentAddr s with
        | (Raise (WindowsError e), s') =>
            if e =? win32.ERROR_INVALID_PARAMETER then (([], None), s')
            else (([], Some (WindowsError e)), s')
        | (Raise e, s') => (([], Some e), s')
        | (Ok mbi, s') =>
            let '((rest, stop), s'') :=
              iter_memory_map_loop fuel' currentAddr
                (BaseAddress mbi + RegionSize mbi) maxAddr s' in
            ((mbi :: rest, stop), s'')
        end
      else (([], None), s)
  end.

(** [Process.iter_memory_map] *)
Definition iter_memory_map (minAddr maxAddr : option Z) (s : ProcessState)
    : Yielded MemoryBasicInformation * ProcessState :=
  let '(lo, hi) := MemoryAddresses.align_address_range minAddr maxAddr in
  iter_memory_map_loop (S (Z.to_nat (hi - lo))) (lo - 1) lo hi s.

(** [Process.get_memory_map]: [list(self.iter_memory_map(...))] *)
Definition get_memory_map (minAddr maxAddr : option Z)
    : M (list MemoryBasicInformation) :=
  fun s => match iter_memory_map minAddr maxAddr s with
           | ((regions, None), s') => (Ok regions, s')
           | ((_, Some e), s') => (Raise e, s')
           end.

(** ** Best-effort read *)

(** The [for ... break] of [Process.peek]: the size cut at the first
    region that is not readable. *)
Fixpoint peek_truncate (lpBaseAddress nSize : Z)
    (memory : list MemoryBasicInformation) : Z :=
  match memory with
  | [] => nSize
  | mbi :: rest =>
      if negb (MBI.is_readable mbi) then BaseAddress mbi - lpBaseAddress
      else peek_truncate lpBaseAddress nSize rest
  end.

(** [Process.peek] *)
Definition peek (lpBaseAddress nSize : Z) : M (list Byte.byte) :=
  if 0 <? nSize then
    except_WindowsError
      (do h <- get_handle
                 (Z.lor win32.PROCESS_VM_READ win32.PROCESS_QUERY_INFORMATION) ;
       do memory <- get_memory_map (Some lpBaseAddress)
                      (Some (lpBaseAddress + nSize)) ;
       let nSize' := peek_truncate lpBaseAddress nSize memory in
       if 0 <? nSize' then ReadProcessMemory h lpBaseAddress nSize'
       else ret [])
      (fun _ => warn "Error reading process" ;; ret [])
  else ret [].

(** ** Writing *)

(** [Process.poke].  When the change of protection is refused, the
    message of the warning is built from [self.get_pid()], from
    [HexDump.address(lpBaseAddress, self.get_bits())], a formatting of
    two integers, and from the traceback: of these only [get_bits] can
    talk to the system. *)
Definition poke (lpBaseAddress : Z) (lpBuffer : option (list Byte.byte))
    : M Z :=
  do h <- get_handle
            (Z.lor win32.PROCESS_VM_WRITE
               (Z.lor win32.PROCESS_VM_OPERATION
                  win32.PROCESS_QUERY_INFORMATION)) ;
  do mbi <- mquery lpBaseAddress ;
  if negb (MBI.has_content mbi) then
    raise (WindowsError win32.ERROR_INVALID_ADDRESS)
  else
    let prot :=
      if MBI.is_image mbi || MBI.is_mapped mbi then Some win32.PAGE_WRITECOPY
      else if MBI.is_writeable mbi then None
      else if MBI.is_executable mbi then Some win32.PAGE_EXECUTE_READWRITE
      else Some win32.PAGE_READWRITE in
    do prot <- match prot with
               | Some p =>
                   try_except
                     (do n <- py_len lpBuffer ;
                      mprotect lpBaseAddress n p ;;
                      ret (Some p))
                     (fun _ =>
                        get_bits ;;
                        warn "Failed to adjust page permissions" ;;
                        ret None)
               | None => ret None
               end ;
    try_finally
      (WriteProcessMemory h lpBaseAddress lpBuffer)
      (match prot with
       | Some _ =>
           do n <- py_len lpBuffer ;
           mprotect lpBaseAddress n (Protect mbi) ;;
           ret tt
       | None => ret tt
       end).

(** [Process.write] *)
Definition write (lpBaseAddress : Z) (lpBuffer : option (list Byte.byte))
    : M unit :=
  do r <- poke lpBaseAddress lpBuffer ;
  do n <- py_len lpBuffer ;
  if negb (r =? n) then raise_WinError else ret tt.

(** ** Suspending and resuming the process

    Modelled from the spec: the thread collection of a process is
    refreshed from the system by [scan_threads], which fails as a whole,
    and a thread is suspended or resumed by one system call.  The thread
    container and the [Thread] class live in a module that is not part of
    the sources at hand. *)
Definition scan_threads : M unit :=
  do pid <- get_pid ;
  do tids <- os_call (fun l => os_scan_threads os l pid) (EvScanThreads pid) ;
  set_threadIds tids.

Definition Thread_suspend (dwThreadId : Z) : M Z :=
  os_call (fun l => os_SuspendThread os l dwThreadId)
    (EvSuspendThread dwThreadId).

Definition Thread_resume (dwThreadId : Z) : M Z :=
  os_call (fun l => os_ResumeThread os l dwThreadId)
    (EvResumeThread dwThreadId).

(** [for aThread in done: try: op(aThread) except Exception: pass] *)
Fixpoint undo_quietly (op : Z -> M Z) (done : list Z) : M unit :=
  match done with
  | [] => ret tt
  | t :: rest =>
      try_except (op t ;; ret tt) (fun _ => ret tt) ;;
      undo_quietly op rest
  end.

(** The guarded loop shared by [suspend] and [resume]: apply [op] to each
    thread; at the first failure undo what was done and re-raise. *)
Fixpoint all_threads (op undo : Z -> M Z) (todo done : list Z) : M unit :=
  match todo with
  | [] => ret tt
  | t :: rest =>
      try_except (op t ;; ret tt)
        (fun e => undo_quietly undo done ;; raise e) ;;
      all_threads op undo rest (done ++ [t])
  end.

(** [Process.suspend] *)
Definition suspend : M unit :=
  scan_threads ;;
  do tids <- get_threadIds ;
  all_threads Thread_suspend Thread_resume tids [].

(** [Process.resume] *)
Definition resume : M unit :=
  do tids <- get_threadIds ;
  (if (Z.of_nat (length tids) =? 0) then scan_threads else ret tt) ;;
  do tids <- get_threadIds ;
  all_threads Thread_resume Thread_suspend tids [].

(** ** Restoring one region: [Process.__restore_mbi] *)

Definition set_BaseAddress (m : MemoryBasicInformation) (a : Z) :=
  mkMBI a (RegionSize m) (State m) (Protect m) (Type_ m) (filename m)
    (content m).
Definition set_RegionSize (m : MemoryBasicInformation) (n : Z) :=
  mkMBI (BaseAddress m) n (State m) (Protect m) (Type_ m) (filename m)
    (content m).
Definition set_State (m : MemoryBasicInformation) (st : Z) :=
  mkMBI (BaseAddress m) (RegionSize m) st (Protect m) (Type_ m) (filename m)
    (content m).
Definition set_Protect (m : MemoryBasicInformation) (p : Z) :=
  mkMBI (BaseAddress m) (RegionSize m) (State m) p (Type_ m) (filename m)
    (content m).
Definition set_content (m : MemoryBasicInformation)
    (c : option (list Byte.byte)) :=
  mkMBI (BaseAddress m) (RegionSize m) (State m) (Protect m) (Type_ m)
    (filename m) c.

(** The allocation shared by the three transitions that allocate: call
    [VirtualAllocEx] at the captured address; when the system answers
    with another address, free that one, build the message from
    [HexDump(old_mbi.BaseAddress, self.get_bits())] and raise
    [RuntimeError]; otherwise the descriptor of the current region takes
    the captured protection ("permissions already restored"). *)
Definition restore_alloc (h : ProcessHandle)
    (new_mbi old_mbi : MemoryBasicInformation) (flAllocationType : Z)
    : M MemoryBasicInformation :=
  do address <- VirtualAllocEx h (BaseAddress old_mbi) (RegionSize old_mbi)
                  flAllocationType (Protect old_mbi) ;
  if negb (address =? BaseAddress old_mbi) then
    free address ;;
    do bits <- get_bits ;
    HexDump (BaseAddress old_mbi) bits ;;
    raise RuntimeError
  else ret (set_Protect new_mbi (Protect old_mbi)).

(** "Restore the region state." *)
Definition restore_state (h : ProcessHandle)
    (new_mbi old_mbi : MemoryBasicInformation) : M MemoryBasicInformation :=
  do new_mbi <-
    (if negb (State new_mbi =? State old_mbi) then
       if MBI.is_free new_mbi then
         if MBI.is_reserved old_mbi then
           restore_alloc h new_mbi old_mbi win32.MEM_RESERVE
         else
           restore_alloc h new_mbi old_mbi
             (Z.lor win32.MEM_RESERVE win32.MEM_COMMIT)
       else if MBI.is_reserved new_mbi then
         if MBI.is_commited old_mbi then
           restore_alloc h new_mbi old_mbi win32.MEM_COMMIT
         else
           VirtualFreeEx h (BaseAddress old_mbi) (RegionSize old_mbi)
             win32.MEM_RELEASE ;;
           ret new_mbi
       else
         if MBI.is_reserved old_mbi then
           VirtualFreeEx h (BaseAddress old_mbi) (RegionSize old_mbi)
             win32.MEM_DECOMMIT ;;
           ret new_mbi
         else
           VirtualFreeEx h (BaseAddress old_mbi) (RegionSize old_mbi)
             (Z.lor win32.MEM_DECOMMIT win32.MEM_RELEASE) ;;
           ret new_mbi
     else ret new_mbi) ;
  ret (set_State new_mbi (State old_mbi)).

(** "Restore the region permissions." *)
Definition restore_protect (h : ProcessHandle)
    (new_mbi old_mbi : MemoryBasicInformation) : M MemoryBasicInformation :=
  if MBI.is_commited old_mbi && negb (Protect old_mbi =? Protect new_mbi) then
    VirtualProtectEx h (BaseAddress old_mbi) (RegionSize old_mbi)
      (Protect old_mbi) ;;
    ret (set_Protect new_mbi (Protect old_mbi))
  else ret new_mbi.

(** "Restore the region data." *)
Definition restore_data (new_mbi old_mbi : MemoryBasicInformation)
    (bSkipMappedFiles : bool) : M MemoryBasicInformation :=
  if MBI.has_content old_mbi then
    (if negb (Type_ old_mbi =? 0) then
       if negb bSkipMappedFiles then
         poke (BaseAddress old_mbi) (content old_mbi) ;; ret tt
       else ret tt
     else write (BaseAddress old_mbi) (content old_mbi)) ;;
    ret (set_content new_mbi (content old_mbi))
  else ret new_mbi.

(** The [except Exception] clause: re-raise unless [bSkipOnError], else
    build the message from [HexDump(old_mbi.BaseAddress, self.get_bits())]
    and warn.  The descriptor of the current region keeps the changes
    made before the failure. *)
Definition restore_on_error (bSkipOnError : bool)
    (new_mbi old_mbi : MemoryBasicInformation) (e : Exn)
    : M MemoryBasicInformation :=
  if negb bSkipOnError then raise e
  else
    do bits <- get_bits ;
    HexDump (BaseAddress old_mbi) bits ;;
    warn "Error restoring region" ;;
    ret new_mbi.

(** [Process.__restore_mbi].  The method mutates [new_mbi] in place; the
    model returns the descriptor as the method leaves it. *)
Definition __restore_mbi (h : ProcessHandle)
    (new_mbi old_mbi : MemoryBasicInformation)
    (bSkipMappedFiles bSkipOnError : bool) : M MemoryBasicInformation :=
  fun s =>
    match restore_state h new_mbi old_mbi s with
    | (Raise e, s1) => restore_on_error bSkipOnError new_mbi old_mbi e s1
    | (Ok new1, s1) =>
        match restore_protect h new1 old_mbi s1 with
        | (Raise e, s2) => restore_on_error bSkipOnError new1 old_mbi e s2
        | (Ok new2, s2) =>
            match restore_data new2 old_mbi bSkipMappedFiles s2 with
            | (Raise e, s3) => restore_on_error bSkipOnError new2 old_mbi e s3
            | (Ok new3, s3) => (Ok new3, s3)
            end
        end
    end.

(** ** Restoring a snapshot: [Process.restore_memory_snapshot] *)

(** The [while address < end] loop that restores page by page.  Both
    descriptors are shared by all iterations: [old_mbi] is the copy of
    the captured region, [new_mbi] is what the previous iteration left. *)
Fixpoint restore_pages (fuel : nat) (h : ProcessHandle) (address end_ : Z)
    (new_mbi old_mbi : MemoryBasicInformation)
    (bSkipMappedFiles bSkipOnError : bool) : M unit :=
  match fuel with
  | O => ret tt
  | S fuel' =>
      if address <? end_ then
        do new_mbi <- __restore_mbi h (set_BaseAddress new_mbi address)
                        (set_BaseAddress old_mbi address)
                        bSkipMappedFiles bSkipOnError ;
        restore_pages fuel' h (address + MemoryAddresses.pageSize) end_
          new_mbi old_mbi bSkipMappedFiles bSkipOnError
      else ret tt
  end.

(** Body of [for old_mbi in snapshot]. *)
Definition restore_region (h : ProcessHandle)
    (bSkipMappedFiles bSkipOnError : bool) (elem : PyValue) : M unit :=
  match elem with
  | PyMBI old_mbi =>
      do new_mbi <- mquery (BaseAddress old_mbi) ;
      if (BaseAddress new_mbi =? BaseAddress old_mbi)
         && (RegionSize new_mbi =? RegionSize old_mbi) then
        __restore_mbi h new_mbi old_mbi bSkipMappedFiles bSkipOnError ;;
        ret tt
      else
        let old_start := BaseAddress old_mbi in
        let old_end := old_start + RegionSize old_mbi in
        let new_start := BaseAddress new_mbi in
        let new_end := new_start + RegionSize new_mbi in
        let start := if old_start >? new_start then old_start else new_start in
        let end_ := if old_end <? new_end then old_end else new_end in
        let step := MemoryAddresses.pageSize in
        restore_pages (Z.to_nat (end_ - start)) h start end_
          (set_RegionSize new_mbi step) (set_RegionSize old_mbi step)
          bSkipMappedFiles bSkipOnError
  | _ => raise AttributeError
  end.

Definition restore_access : Z :=
  Z.lor win32.PROCESS_VM_WRITE
    (Z.lor win32.PROCESS_VM_OPERATION
       (Z.lor win32.PROCESS_SUSPEND_RESUME win32.PROCESS_QUERY_INFORMATION)).

(** [Process.restore_memory_snapshot] *)
Definition restore_memory_snapshot (snapshot : PyValue)
    (bSkipMappedFiles bSkipOnError : bool) : M unit :=
  if negb (truthy snapshot)
     || negb (isinstance_list snapshot)
     || negb (first_isinstance_MBI snapshot)
  then raise TypeError
  else
    do h <- get_handle restore_access ;
    suspend ;;
    try_finally
      (for_each (restore_region h bSkipMappedFiles bSkipOnError)
         (items snapshot))
      resume.


End WithOS.
(** * The process container *)

Module Container.

(** A [Process] object as the container sees it.  Modelled from the
    spec: a process owns zero or one handle, an optional cached file
    name, a thread collection and a module collection, the collections
    being kept here by thread ID and by module base address. *)
Record Process := mkProcessObj {
  dwProcessId : Z;
  hProcess : option ProcessHandle;
  fileName : option string;
  threadIds : list Z;
  moduleBases : list Z
}.

(** [Process(dwProcessId, fileName=fileName)] *)
Definition new_Process (dwProcessId : Z) (fileName : option string) : Process :=
  mkProcessObj dwProcessId None fileName [] [].

(** The container: [__processDict] maps a process ID to a reference, and
    the store maps a reference to the object it denotes.  Two keys that
    hold the same reference share one object. *)
Record Snapshot := mkSnapshot {
  processDict : gmap Z nat;
  store : list Process
}.

Definition empty_Snapshot : Snapshot := mkSnapshot ∅ [].

(** A toolhelp snapshot: the process entries ([th32ProcessID],
    [szExeFile]) and the thread entries ([th32OwnerProcessID],
    [th32ThreadID]) in the order [Process32Next] and [Thread32Next] give
    them. *)
Record Toolhelp := mkToolhelp {
  process_entries : list (Z * string);
  thread_entries : list (Z * Z)
}.

(** The enumeration sources and the per-process queries.  Within one
    scan every source is consulted at most once and every process is
    asked each question at most once, so the answers do not need the
    history.

    [Process.get_image_name] tries six ways to find the file name of a
    process, through [get_handle], the process environment block and the
    module snapshot of the process, most of which live in modules that
    are not part of the sources at hand.  Its outcome is taken as three
    parameters: the name it returns or the exception it lets through,
    the handle it leaves in [hProcess], and the module snapshot it
    leaves. *)
Record ScanOS := mkScanOS {
  GetCurrentProcessId : Z;
  EnumProcesses : OsResult (list Z);
  CreateToolhelp32Snapshot : OsResult Toolhelp;
  WTSEnumerateProcesses : OsResult (list (Z * string));
  CloseHandle : Z -> OsResult unit;
  os_scan_threads : Z -> OsResult (list Z);
  os_scan_modules : Z -> OsResult (list Z);
  os_get_image_name : Z -> Result (option string);
  os_get_image_name_handle : Z -> option ProcessHandle -> option ProcessHandle;
  os_get_image_name_modules : Z -> list Z -> list Z
}.

(** Method bodies of [_ProcessContainer]. *)
Definition C (A : Type) : Type := StateExn Snapshot A.

(** Python truth value of a file name: [None] and the empty string are
    false. *)
Definition name_truthy (n : option string) : bool :=
  match n with
  | Some s => negb (String.eqb s "")
  | None => false
  end.

Definition read_object (r : nat) (c : Snapshot) : option Process :=
  store c !! r.

Definition write_object (r : nat) (p : Process) (c : Snapshot) : Snapshot :=
  mkSnapshot (processDict c) (<[r := p]> (store c)).

(** Apply an in-place update to the object behind a reference. *)
Definition update_object (r : nat) (f : Process -> Process) : C unit :=
  fun c => match read_object r c with
           | Some p => (Ok tt, write_object r (f p) c)
           | None => (Ok tt, c)
           end.

Definition set_fileName (n : option string) (p : Process) : Process :=
  mkProcessObj (dwProcessId p) (hProcess p) n (threadIds p) (moduleBases p).
Definition set_threadIds (l : list Z) (p : Process) : Process :=
  mkProcessObj (dwProcessId p) (hProcess p) (fileName p) l (moduleBases p).
Definition set_moduleBases (l : list Z) (p : Process) : Process :=
  mkProcessObj (dwProcessId p) (hProcess p) (fileName p) (threadIds p) l.
Definition set_hProcess (h : option ProcessHandle) (p : Process) : Process :=
  mkProcessObj (dwProcessId p) h (fileName p) (threadIds p) (moduleBases p).

(** [_ProcessContainer._add_process], applied to a freshly built object:
    the object gets a new reference, stored under its own process ID. *)
Definition _add_process (aProcess : Process) : C unit :=
  fun c =>
    let r := length (store c) in
    (Ok tt,
     mkSnapshot (<[dwProcessId aProcess := r]> (processDict c))
       (store c ++ [aProcess])).

Section WithScanOS.

Variable os : ScanOS.

(** [Process.clear] on the object behind [r]: the thread and module
    collections are emptied, then the handle is closed; [hProcess] is
    [None] afterwards even when the close fails. *)
Definition Process_clear (r : nat) : C unit :=
  fun c =>
    match read_object r c with
    | None => (Ok tt, c)
    | Some p =>
        let cleared := set_hProcess None (set_moduleBases [] (set_threadIds [] p)) in
        let c' := write_object r cleared c in
        match hProcess p with
        | None => (Ok tt, c')
        | Some h =>
            if value h =? win32.INVALID_HANDLE_VALUE then (Ok tt, c')
            else match CloseHandle os (value h) with
                 | Success _ => (Ok tt, c')
                 | Failure code => (Raise (WindowsError code), c')
                 end
        end
    end.

(** [_ProcessContainer._del_process]: pop the entry, then clear the
    object; an unknown ID is only warned about. *)
Definition _del_process (dwProcessId : Z) : C unit :=
  fun c =>
    match processDict c !! dwProcessId with
    | None => (Ok tt, c)
    | Some r =>
        Process_clear r
          (mkSnapshot (delete dwProcessId (processDict c)) (store c))
    end.

(** [set(self.__processDict.keys())] *)
Definition keys (c : Snapshot) : gset Z := dom (processDict c).

(** [self.__processDict.values()], as references. *)
Definition values (c : Snapshot) : list nat :=
  (map_to_list (processDict c)).*2.

(** [_ProcessContainer.scan_processes_fast].  The two [for] loops run
    over sets; their order is the one of [elements]. *)
Definition scan_processes_fast : C unit :=
  fun c =>
    match EnumProcesses os with
    | Failure code => (Raise (WindowsError code), c)
    | Success pids =>
        let new_pids : gset Z := list_to_set pids in
        let old_pids : gset Z := keys c in
        let our_pid := GetCurrentProcessId os in
        let new_pids := new_pids ∖ {[our_pid]} in
        let old_pids := old_pids ∖ {[our_pid]} in
        (for_each (fun pid => _add_process (new_Process pid None))
           (elements (new_pids ∖ old_pids)) ;;
         for_each _del_process (elements (old_pids ∖ new_pids))) c
    end.

(** Enrichment shared by the toolhelp and the session source: a known
    process only gets a file name when it has none. *)
Definition enrich_fileName (pid : Z) (fileName' : option string) : C unit :=
  fun c =>
    match processDict c !! pid with
    | None => _add_process (new_Process pid fileName') c
    | Some r =>
        if name_truthy fileName' then
          update_object r
            (fun p => if negb (name_truthy (fileName p))
                      then set_fileName fileName' p else p) c
        else (Ok tt, c)
    end.

(** One process entry of the toolhelp walk; [dead_pids] is threaded. *)
Definition toolhelp_process (our_pid : Z) (dead_pids : gset Z)
    (pe : Z * string) (c : Snapshot) : gset Z * Snapshot :=
  let '(dwProcessId, szExeFile) := pe in
  if negb (dwProcessId =? our_pid) then
    (dead_pids ∖ {[dwProcessId]},
     snd (enrich_fileName dwProcessId (Some szExeFile) c))
  else (dead_pids, c).

(** [aProcess._add_thread] when [not aProcess._has_thread_id]. *)
Definition add_thread (tid : Z) (p : Process) : Process :=
  if bool_decide (tid ∈ threadIds p) then p
  else set_threadIds (threadIds p ++ [tid]) p.

(** One thread entry of the toolhelp walk; [dead_pids] and [found_tids]
    are threaded. *)
Definition toolhelp_thread (our_pid : Z) (acc : gset Z * gset Z)
    (te : Z * Z) (c : Snapshot) : (gset Z * gset Z) * Snapshot :=
  let '(dead_pids, found_tids) := acc in
  let '(dwProcessId, dwThreadId) := te in
  if negb (dwProcessId =? our_pid) then
    let c1 := match processDict c !! dwProcessId with
              | Some _ => c
              | None => snd (_add_process (new_Process dwProcessId None) c)
              end in
    let c2 := match processDict c1 !! dwProcessId with
              | Some r => snd (update_object r (add_thread dwThreadId) c1)
              | None => c1
              end in
    ((dead_pids ∖ {[dwProcessId]}, found_tids ∪ {[dwThreadId]}), c2)
  else (acc, c).

Fixpoint walk {A B} (step : A -> B -> Snapshot -> A * Snapshot) (acc : A)
    (entries : list B) (c : Snapshot) : A * Snapshot :=
  match entries with
  | [] => (acc, c)
  | e :: rest => let '(acc', c') := step acc e c in walk step acc' rest c'
  end.

(** "Remove dead threads": every process keeps the threads found. *)
Definition remove_dead_threads (found_tids : gset Z) (r : nat) : C unit :=
  update_object r
    (fun p => set_threadIds
                (filter (fun tid => tid ∈ found_tids) (threadIds p)) p).

(** [_ProcessContainer.scan_processes_and_threads] *)
Definition scan_processes_and_threads : C unit :=
  fun c =>
    let our_pid := GetCurrentProcessId os in
    let dead_pids := keys c ∖ {[our_pid]} in
    match CreateToolhelp32Snapshot os with
    | Failure code => (Raise (WindowsError code), c)
    | Success th =>
        let '(dead_pids, c1) :=
          walk (toolhelp_process our_pid) dead_pids (process_entries th) c in
        let '((dead_pids, found_tids), c2) :=
          walk (toolhelp_thread our_pid) (dead_pids, ∅) (thread_entries th) c1 in
        (for_each _del_process (elements dead_pids) ;;
         fun c3 => for_each (remove_dead_threads found_tids) (values c3) c3) c2
    end.

(** One entry of the session enumeration; [dead_pids] is threaded. *)
Definition session_process (our_pid : Z) (dead_pids : gset Z)
    (info : Z * string) (c : Snapshot) : gset Z * Snapshot :=
  let '(pid, pProcessName) := info in
  if pid =? our_pid then (dead_pids, c)
  else (dead_pids ∖ {[pid]}, snd (enrich_fileName pid (Some pProcessName) c)).

(** [_ProcessContainer.scan_processes] *)
Definition scan_processes : C unit :=
  fun c =>
    let our_pid := GetCurrentProcessId os in
    let dead_pids := keys c ∖ {[our_pid]} in
    match WTSEnumerateProcesses os with
    | Failure code => (Raise (WindowsError code), c)
    | Success infos =>
        let '(dead_pids, c1) :=
          walk (session_process our_pid) dead_pids infos c in
        for_each _del_process (elements dead_pids) c1
    end.

(** [aProcess.scan_threads()] on the object behind [r]. *)
Definition Process_scan_threads (r : nat) : C unit :=
  fun c =>
    match read_object r c with
    | None => (Ok tt, c)
    | Some p =>
        match os_scan_threads os (dwProcessId p) with
        | Success tids => (Ok tt, write_object r (set_threadIds tids p) c)
        | Failure code => (Raise (WindowsError code), c)
        end
    end.

(** [aProcess.scan_modules()] on the object behind [r]. *)
Definition Process_scan_modules (r : nat) : C unit :=
  fun c =>
    match read_object r c with
    | None => (Ok tt, c)
    | Some p =>
        match os_scan_modules os (dwProcessId p) with
        | Success bases => (Ok tt, write_object r (set_moduleBases bases p) c)
        | Failure code => (Raise (WindowsError code), c)
        end
    end.

(** A loop over the processes that reports whether every step went
    well: [complete] starts true and a step that did not go well clears
    it. *)
Fixpoint and_each (step : nat -> C bool) (refs : list nat) (complete : bool)
    : C bool :=
  match refs with
  | [] => ret complete
  | r :: rest =>
      do ok <- step r ;
      and_each step rest (complete && ok)
  end.

(** [try: op(aProcess) except WindowsError: complete = False] on every
    process; any other exception propagates. *)
Definition try_each (op : nat -> C unit) : list nat -> bool -> C bool :=
  and_each
    (fun r => except_WindowsError (op r ;; ret true) (fun _ => ret false)).

(** [_ProcessContainer.scan_modules] *)
Definition scan_modules : C bool :=
  fun c => try_each Process_scan_modules (values c) true c.

(** What [Process.get_image_name] leaves of an object: the handle and
    the module snapshot can have changed. *)
Definition after_get_image_name (p : Process) : Process :=
  set_moduleBases
    (os_get_image_name_modules os (dwProcessId p) (moduleBases p))
    (set_hProcess (os_get_image_name_handle os (dwProcessId p) (hProcess p))
       p).

(** [Process.get_filename] on the object behind [r]: a process without
    file name asks [get_image_name] for it and keeps the answer. *)
Definition Process_get_filename (r : nat) : C (option string) :=
  fun c =>
    match read_object r c with
    | None => (Raise AttributeError, c)
    | Some p =>
        if negb (name_truthy (fileName p)) then
          let p1 := after_get_image_name p in
          match os_get_image_name os (dwProcessId p) with
          | Ok n => (Ok n, write_object r (set_fileName n p1) c)
          | Raise e => (Raise e, write_object r p1 c)
          end
        else (Ok (fileName p), c)
    end.

(** Body of the loop of [scan_process_filenames] for one process: the
    file name is dropped and asked for again; when no name comes back,
    by a falsy answer or by any exception, the old name is put back and
    the step did not go well. *)
Definition refresh_filename (r : nat) : C bool :=
  fun c =>
    match read_object r c with
    | None => (Ok true, c)
    | Some p =>
        let old_name := fileName p in
        let c0 := write_object r (set_fileName None p) c in
        match Process_get_filename r c0 with
        | (Ok new_name, c1) =>
            if negb (name_truthy new_name)
            then (Ok false, snd (update_object r (set_fileName old_name) c1))
            else (Ok true, c1)
        | (Raise _, c1) =>
            (Ok false, snd (update_object r (set_fileName old_name) c1))
        end
    end.

(** [_ProcessContainer.scan_process_filenames] *)
Definition scan_process_filenames : C bool :=
  fun c => and_each refresh_filename (values c) true c.

(** "Now try using the Toolhelp again to get the threads": only the
    processes that already have threads are rescanned. *)
Definition backfill_threads : C bool :=
  fun c =>
    try_each
      (fun r c' =>
         match read_object r c' with
         | Some p =>
             match threadIds p with
             | [] => (Ok tt, c')
             | _ => Process_scan_threads r c'
             end
         | None => (Ok tt, c')
         end)
      (values c) true c.

(** [_ProcessContainer.scan] *)
Definition scan : C bool :=
  do has_threads <-
    try_finally
      (try_except
         (scan_processes_and_threads ;; ret true)
         (fun _ => scan_processes_fast ;; backfill_threads))
      scan_processes ;
  do has_modules <- scan_modules ;
  do has_full_names <- scan_process_filenames ;
  ret (has_threads && has_modules && has_full_names).

(** [_ProcessContainer.__initialize_snapshot]: a best-effort scan the
    first time the container is used empty. *)
Definition initialize_snapshot : C unit :=
  fun c =>
    if bool_decide (processDict c = ∅) then
      (try_except scan_processes (fun _ => scan_processes_fast) ;;
       scan_process_filenames ;;
       ret tt) c
    else (Ok tt, c).

(** [_ProcessContainer.get_process_ids] *)
Definition get_process_ids : C (gset Z) :=
  initialize_snapshot ;;
  fun c => (Ok (keys c), c).

End WithScanOS.

End Container.

(** * Vocabulary of the properties *)

(** ** Access rights as bit sets *)

(** [has_rights A R]: every right of the mask [R] is in the mask [A]. *)
Definition has_rights (A R : Z) : Prop :=
  forall i, 0 <= i -> Z.testbit R i = true -> Z.testbit A i = true.

(** The union of the rights requested by a sequence of calls. *)
Definition rights_union (requests : list Z) : Z := fold_right Z.lor 0 requests.

(** The handle held, if it is one that [get_handle] accepts as held. *)
Definition held (s : ProcessState) : option ProcessHandle :=
  match hProcess s with
  | Some h => if value h =? win32.INVALID_HANDLE_VALUE then None else Some h
  | None => None
  end.

(** A handle is held and its rights cover [R]. *)
Definition sufficient (s : ProcessState) (R : Z) : Prop :=
  exists h, held s = Some h /\ has_rights (dwAccess h) R.

(** Number of [OpenProcess] and [CloseHandle] calls in a log. *)
Definition is_open (ev : Event) : bool :=
  match ev with EvOpenProcess _ _ _ => true | _ => false end.
Definition is_close (ev : Event) : bool :=
  match ev with EvCloseHandle _ _ => true | _ => false end.
Definition opens (l : list Event) : nat := length (List.filter is_open l).
Definition closes (l : list Event) : nat := length (List.filter is_close l).

(** A sequence of [get_handle] calls, stopped by the first exception. *)
Fixpoint get_handles (os : OS) (requests : list Z) : M (list ProcessHandle) :=
  match requests with
  | [] => ret []
  | R :: rest =>
      do h <- get_handle os R ;
      do hs <- get_handles os rest ;
      ret (h :: hs)
  end.

(** The system never hands out the invalid handle value as a handle. *)
Definition opens_valid_handles (os : OS) : Prop :=
  forall l access pid v,
    os_OpenProcess os l access pid = Success v ->
    v <> win32.INVALID_HANDLE_VALUE.

(** The rights [get_handle] asks the system for when it has to open. *)
Definition merged_rights (s : ProcessState) (R : Z) : Z :=
  match held s with
  | Some h => Z.lor (dwAccess h) R
  | None => R
  end.

(** Regions that follow one another from [cursor]: each starts where the
    previous one ended and has a positive size. *)
Fixpoint contiguous_from (cursor : Z) (regions : list MemoryBasicInformation)
    : Prop :=
  match regions with
  | [] => True
  | m :: rest =>
      BaseAddress m = cursor /\ 0 < RegionSize m /\
      contiguous_from (BaseAddress m + RegionSize m) rest
  end.

(** Where the regions end: the end of the last one, or [cursor] when
    there is none. *)
Fixpoint end_of (cursor : Z) (regions : list MemoryBasicInformation) : Z :=
  match regions with
  | [] => cursor
  | m :: rest => end_of (BaseAddress m + RegionSize m) rest
  end.

(** The error code of a failed API call. *)
Definition failure_code {A} (r : OsResult A) : option Z :=
  match r with Success _ => None | Failure code => Some code end.

Definition event_failure (ev : Event) : option Z :=
  match ev with
  | EvOpenProcess _ _ r => failure_code r
  | EvCloseHandle _ r => failure_code r
  | EvVirtualQueryEx _ _ r => failure_code r
  | EvReadProcessMemory _ _ _ r => failure_code r
  | EvWriteProcessMemory _ _ _ r => failure_code r
  | EvVirtualAllocEx _ _ _ _ _ r => failure_code r
  | EvVirtualFreeEx _ _ _ _ r => failure_code r
  | EvVirtualProtectEx _ _ _ _ r => failure_code r
  | EvScanThreads _ r => failure_code r
  | EvSuspendThread _ r => failure_code r
  | EvResumeThread _ r => failure_code r
  | EvWarn _ => None
  | EvIsWow64Process _ (Raise (WindowsError code)) => Some code
  | EvIsWow64Process _ _ => None
  end.

(** The last thing that happened is an API call that failed with [code]. *)
Definition last_call_failed (s : ProcessState) (code : Z) : Prop :=
  exists ev rest, log s = ev :: rest /\ event_failure ev = Some code.

(** What the system guarantees about a region query: the region it
    describes starts at the page of the address asked for and spans a
    positive number of whole pages. *)
Definition region_contract (os : OS) : Prop :=
  forall l h a m,
    os_VirtualQueryEx os l h a = Success m ->
    BaseAddress m = MemoryAddresses.align_address_to_page_start a /\
    0 < RegionSize m /\
    RegionSize m mod MemoryAddresses.pageSize = 0.

(** ** A system in which every call succeeds

    Handles are numbered after the length of the log, every address
    lies in a committed, read-write, private region of one page, and the
    process has two threads.  The debugger is a 64 bit process on a 64
    bit system that knows [PROCESS_QUERY_LIMITED_INFORMATION], the target
    is not under WOW64, and [HexDump] is a class of static helpers that
    cannot be instantiated. *)
Module Demo.
Definition page (a : Z) : MemoryBasicInformation :=
  mkMBI (MemoryAddresses.align_address_to_page_start a)
    MemoryAddresses.pageSize win32.MEM_COMMIT win32.PAGE_READWRITE
    win32.MEM_PRIVATE None None.

Definition os : OS :=
  mkOS
    (fun l _ _ => Success (100 + Z.of_nat (length l)))
    (fun _ _ => Success tt)
    (fun _ _ a => Success (page a))
    (fun _ _ _ n => Success (repeat Byte.x00 (Z.to_nat n)))
    (fun _ _ _ b => Success (Z.of_nat (length b)))
    (fun _ _ a _ _ _ => Success a)
    (fun _ _ _ _ _ => Success tt)
    (fun _ _ _ _ _ => Success win32.PAGE_READWRITE)
    (fun _ _ => Success [1; 2])
    (fun _ _ => Success 0)
    (fun _ _ => Success 1)
    (fun _ => 0)
    (fun _ _ => Ok false)
    64
    false
    true
    (fun _ _ => Raise NotImplementedError).

Definition process : ProcessState := mkProcess 1234 None [] [] None.
End Demo.

(** ** Reading up to the first unreadable region *)

(** [n] is where [peek] cuts a read of [nSize] bytes at [address], given
    the memory map: at the base of the first region that is not
    readable, all regions before it being readable, or not at all when
    every region is readable. *)
Definition readable_cut (address nSize : Z)
    (regions : list MemoryBasicInformation) (n : Z) : Prop :=
  (Forall (fun m => MBI.is_readable m = true) regions /\ n = nSize) \/
  (exists pre m post,
     regions = pre ++ m :: post /\
     Forall (fun m => MBI.is_readable m = true) pre /\
     MBI.is_readable m = false /\
     n = BaseAddress m - address).

(** The address [a] lies in the region [m]. *)
Definition in_region (a : Z) (m : MemoryBasicInformation) : Prop :=
  BaseAddress m <= a < BaseAddress m + RegionSize m.

(** A region as the contract of the region query describes it: it
    starts on a page boundary and spans a positive number of whole
    pages. *)
Definition whole_pages (m : MemoryBasicInformation) : Prop :=
  BaseAddress m mod MemoryAddresses.pageSize = 0 /\
  0 < RegionSize m /\
  RegionSize m mod MemoryAddresses.pageSize = 0.

(** [n] is the length of the longest readable prefix of the [nSize]
    bytes at [address], given the memory map that starts at [lo]: it is
    not longer than the request; every byte of it that the map describes
    lies in a readable region; and when it is shorter than the request,
    the map describes the byte that follows it (the first byte of the
    request when nothing can be read), which lies in a region that is
    not readable. *)
Definition longest_readable_prefix (address nSize lo : Z)
    (regions : list MemoryBasicInformation) (n : Z) : Prop :=
  n <= nSize /\
  (forall a, address <= a < address + n -> a < end_of lo regions ->
     exists m, m ∈ regions /\ in_region a m /\ MBI.is_readable m = true) /\
  (n < nSize ->
     address + n <= end_of lo regions /\
     exists m, m ∈ regions /\ MBI.is_readable m = false /\
               in_region (Z.max address (address + n)) m).

Definition peek_access : Z :=
  Z.lor win32.PROCESS_VM_READ win32.PROCESS_QUERY_INFORMATION.

(** ** A system with a guard page

    As [Demo.os], except that the page at 0x11000 is a guard page. *)
Module Guarded.
Definition page (a : Z) : MemoryBasicInformation :=
  let base := MemoryAddresses.align_address_to_page_start a in
  mkMBI base MemoryAddresses.pageSize win32.MEM_COMMIT
    (if base =? 0x11000
     then Z.lor win32.PAGE_READWRITE win32.PAGE_GUARD
     else win32.PAGE_READWRITE)
    win32.MEM_PRIVATE None None.

Definition os : OS :=
  mkOS
    (os_OpenProcess Demo.os)
    (os_CloseHandle Demo.os)
    (fun _ _ a => Success (page a))
    (os_ReadProcessMemory Demo.os)
    (os_WriteProcessMemory Demo.os)
    (os_VirtualAllocEx Demo.os)
    (os_VirtualFreeEx Demo.os)
    (os_VirtualProtectEx Demo.os)
    (os_scan_threads Demo.os)
    (os_SuspendThread Demo.os)
    (os_ResumeThread Demo.os)
    (os_GetLastError Demo.os)
    (os_IsWow64Process Demo.os)
    (win32_bits Demo.os)
    (win32_wow64 Demo.os)
    (win32_has_PROCESS_QUERY_LIMITED_INFORMATION Demo.os)
    (HexDump_new Demo.os).
End Guarded.

(** ** Classes of events *)

(** Calls that change the memory of the target. *)
Definition is_mutation (ev : Event) : bool :=
  match ev with
  | EvWriteProcessMemory _ _ _ _ => true
  | EvVirtualAllocEx _ _ _ _ _ _ => true
  | EvVirtualFreeEx _ _ _ _ _ => true
  | EvVirtualProtectEx _ _ _ _ _ => true
  | _ => false
  end.

(** Calls that suspend, resume or enumerate the threads of the target. *)
Definition is_thread_control (ev : Event) : bool :=
  match ev with
  | EvScanThreads _ _ => true
  | EvSuspendThread _ _ => true
  | EvResumeThread _ _ => true
  | _ => false
  end.

Definition is_write (ev : Event) : bool :=
  match ev with
  | EvWriteProcessMemory _ _ _ _ => true
  | _ => false
  end.

(** [emits P c]: whatever the state and the outcome, [c] only appends
    events to the log, and all of them satisfy [P]. *)
Definition emits {A} (P : Event -> Prop) (c : M A) : Prop :=
  forall s, exists evs, log (snd (c s)) = evs ++ log s /\ Forall P evs.

Definition no_mutation (ev : Event) : Prop := is_mutation ev = false.
Definition no_thread_control (ev : Event) : Prop := is_thread_control ev = false.

(** ** The transition table of the restore, row by row *)

(** What follows an allocation that the system placed at [address]
    instead of the captured base: that allocation is freed, the message
    is built, and [RuntimeError] is raised unless one of these steps
    raised before. *)
Definition misplaced (os : OS) (address : Z) (old_mbi : MemoryBasicInformation)
    : M MemoryBasicInformation :=
  free os address ;;
  do bits <- get_bits os ;
  HexDump os (BaseAddress old_mbi) bits ;;
  raise RuntimeError.

(** "Allocate at the exact captured address with the captured
    protection; fail loudly if the system honours a different address":
    one [VirtualAllocEx] call; on another address the call fails as
    [misplaced] says; on the captured address the current descriptor
    takes the captured protection and state. *)
Definition alloc_outcome (os : OS) (h : ProcessHandle)
    (new_mbi old_mbi : MemoryBasicInformation) (flAllocationType : Z)
    (s : ProcessState) : Result MemoryBasicInformation * ProcessState :=
  let call :=
    EvVirtualAllocEx (value h) (BaseAddress old_mbi) (RegionSize old_mbi)
      flAllocationType (Protect old_mbi) in
  match os_VirtualAllocEx os (log s) (value h) (BaseAddress old_mbi)
          (RegionSize old_mbi) flAllocationType (Protect old_mbi) with
  | Failure code => (Raise (WindowsError code), emit (call (Failure code)) s)
  | Success address =>
      let s1 := emit (call (Success address)) s in
      if address =? BaseAddress old_mbi then
        (Ok (set_State (set_Protect new_mbi (Protect old_mbi)) (State old_mbi)),
         s1)
      else misplaced os address old_mbi s1
  end.

(** "Release", "decommit", "decommit and release": one [VirtualFreeEx]
    call on the captured range; the current descriptor takes the captured
    state. *)
Definition free_outcome (os : OS) (h : ProcessHandle)
    (new_mbi old_mbi : MemoryBasicInformation) (dwFreeType : Z)
    (s : ProcessState) : Result MemoryBasicInformation * ProcessState :=
  let call :=
    EvVirtualFreeEx (value h) (BaseAddress old_mbi) (RegionSize old_mbi)
      dwFreeType in
  match os_VirtualFreeEx os (log s) (value h) (BaseAddress old_mbi)
          (RegionSize old_mbi) dwFreeType with
  | Failure code => (Raise (WindowsError code), emit (call (Failure code)) s)
  | Success u =>
      (Ok (set_State new_mbi (State old_mbi)), emit (call (Success u)) s)
  end.

(** "Reprotect to the captured value": one [VirtualProtectEx] call on the
    captured range. *)
Definition reprotect_outcome (os : OS) (h : ProcessHandle)
    (new_mbi old_mbi : MemoryBasicInformation)
    (s : ProcessState) : Result MemoryBasicInformation * ProcessState :=
  let call :=
    EvVirtualProtectEx (value h) (BaseAddress old_mbi) (RegionSize old_mbi)
      (Protect old_mbi) in
  match os_VirtualProtectEx os (log s) (value h) (BaseAddress old_mbi)
          (RegionSize old_mbi) (Protect old_mbi) with
  | Failure code => (Raise (WindowsError code), emit (call (Failure code)) s)
  | Success p =>
      (Ok (set_Protect new_mbi (Protect old_mbi)), emit (call (Success p)) s)
  end.

(** ** Regions used in the examples *)
Module Regions.
(** A committed, read-write, private page with two bytes of captured
    content. *)
Definition private_page : MemoryBasicInformation :=
  mkMBI 0x10000 0x1000 win32.MEM_COMMIT win32.PAGE_READWRITE
    win32.MEM_PRIVATE None (Some [Byte.x41; Byte.x42]).

(** The same page captured while it was only reserved. *)
Definition reserved_page : MemoryBasicInformation :=
  mkMBI 0x10000 0x1000 win32.MEM_RESERVE win32.PAGE_READWRITE
    win32.MEM_PRIVATE None None.

(** The same page seen free. *)
Definition free_page : MemoryBasicInformation :=
  mkMBI 0x10000 0x1000 win32.MEM_FREE 0 0 None None.
End Regions.

(** ** A system that allocates somewhere else

    As [Demo.os], except that every allocation is honoured one page above
    the address asked for. *)
Module Misplaced.
Definition os : OS :=
  mkOS
    (os_OpenProcess Demo.os)
    (os_CloseHandle Demo.os)
    (os_VirtualQueryEx Demo.os)
    (os_ReadProcessMemory Demo.os)
    (os_WriteProcessMemory Demo.os)
    (fun _ _ a _ _ _ => Success (a + MemoryAddresses.pageSize))
    (os_VirtualFreeEx Demo.os)
    (os_VirtualProtectEx Demo.os)
    (os_scan_threads Demo.os)
    (os_SuspendThread Demo.os)
    (os_ResumeThread Demo.os)
    (os_GetLastError Demo.os)
    (os_IsWow64Process Demo.os)
    (win32_bits Demo.os)
    (win32_wow64 Demo.os)
    (win32_has_PROCESS_QUERY_LIMITED_INFORMATION Demo.os)
    (HexDump_new Demo.os).

Definition handle : ProcessHandle := mkHandle 100 restore_access.

Definition process : ProcessState :=
  mkProcess 1234 (Some handle) [1; 2] [] None.
End Misplaced.

(** ** The prologue of the restore *)

(** What [restore_memory_snapshot] does between the check of its
    argument and the loop: get the handle, suspend the process. *)
Definition restore_prologue (os : OS) : M ProcessHandle :=
  do h <- get_handle os restore_access ;
  suspend os ;;
  ret h.

(** The check of the snapshot argument lets it through. *)
Definition accepted (snapshot : PyValue) : bool :=
  truthy snapshot && isinstance_list snapshot && first_isinstance_MBI snapshot.

(** [starts_with_thread_control c]: the first thing [c] does is a thread
    control call, and it never touches the memory afterwards. *)
Definition starts_with_thread_control {A} (c : M A) : Prop :=
  forall s, exists more first,
    log (snd (c s)) = more ++ first :: log s /\
    is_thread_control first = true /\
    Forall no_mutation more.

(** ** A system with one wide region

    As [Demo.os], except that every query is answered with a committed
    region of three pages starting at the page asked for. *)
Module Wide.
Definition region (a : Z) : MemoryBasicInformation :=
  mkMBI (MemoryAddresses.align_address_to_page_start a)
    (3 * MemoryAddresses.pageSize) win32.MEM_COMMIT win32.PAGE_READWRITE
    win32.MEM_PRIVATE None None.

Definition os : OS :=
  mkOS
    (os_OpenProcess Demo.os)
    (os_CloseHandle Demo.os)
    (fun _ _ a => Success (region a))
    (os_ReadProcessMemory Demo.os)
    (os_WriteProcessMemory Demo.os)
    (os_VirtualAllocEx Demo.os)
    (os_VirtualFreeEx Demo.os)
    (os_VirtualProtectEx Demo.os)
    (os_scan_threads Demo.os)
    (os_SuspendThread Demo.os)
    (os_ResumeThread Demo.os)
    (os_GetLastError Demo.os)
    (os_IsWow64Process Demo.os)
    (win32_bits Demo.os)
    (win32_wow64 Demo.os)
    (win32_has_PROCESS_QUERY_LIMITED_INFORMATION Demo.os)
    (HexDump_new Demo.os).

(** Two pages captured while they were only reserved. *)
Definition reserved_pages : MemoryBasicInformation :=
  mkMBI 0x10000 0x2000 win32.MEM_RESERVE win32.PAGE_READWRITE
    win32.MEM_PRIVATE None None.
End Wide.

(** ** Vocabulary of the container properties *)

Module ContainerSpec.
Import Container.

(** Every key of the dictionary holds a reference to an object that
    carries that process ID.  [_add_process] stores an object under its
    own ID, so the containers the scans build all satisfy this; it
    excludes two keys sharing one object. *)
Definition well_keyed (c : Snapshot) : Prop :=
  forall pid r,
    processDict c !! pid = Some r ->
    exists p, store c !! r = Some p /\ dwProcessId p = pid.

(** [kept c c']: [c'] is well keyed, and every process of [c] that is
    still tracked in [c'] is mapped to the same reference as in [c],
    behind which the same object is stored. *)
Definition kept (c c' : Snapshot) : Prop :=
  well_keyed c' /\
  forall pid r r',
    processDict c !! pid = Some r -> processDict c' !! pid = Some r' ->
    r' = r /\ store c' !! r = store c !! r.

(** [same_shape c c']: the dictionary is the same and every stored
    object has kept its process ID; only attributes of objects differ. *)
Definition same_shape (c c' : Snapshot) : Prop :=
  processDict c' = processDict c /\
  dwProcessId <$> store c' = dwProcessId <$> store c.

(** The image name of a process can be retrieved. *)
Definition name_retrieved (os : ScanOS) (pid : Z) : Prop :=
  exists n, os_get_image_name os pid = Ok n /\ name_truthy n = true.

(** The per-process steps of [scan], as answers of the system: the
    module scan of a process succeeds; its file name is retrieved, and
    is not empty; and the thread backfill, which only rescans a process
    that has threads, does not fail on it. *)
Definition modules_scanned (os : ScanOS) (pid : Z) : bool :=
  match os_scan_modules os pid with Success _ => true | Failure _ => false end.

Definition name_found (os : ScanOS) (pid : Z) : bool :=
  match os_get_image_name os pid with
  | Ok n => name_truthy n
  | Raise _ => false
  end.

Definition threads_backfilled (os : ScanOS) (p : Process) : bool :=
  match threadIds p with
  | [] => true
  | _ => match os_scan_threads os (dwProcessId p) with
         | Success _ => true
         | Failure _ => false
         end
  end.

(** What a step of a loop over the processes says of the object behind
    a reference; a reference to nothing is skipped. *)
Definition verdict_at (verdict : Process -> bool) (c : Snapshot) (r : nat)
    : bool :=
  match store c !! r with
  | Some p => verdict p
  | None => true
  end.

(** The thread information of a [scan] of the container [c] is
    complete: the toolhelp pass went through; or, after the fallback to
    the fast source, no thread backfill failed, that is, the thread scan
    succeeded for every process tracked at that point that had
    threads. *)
Definition threads_complete (os : ScanOS) (c : Snapshot) : Prop :=
  match scan_processes_and_threads os c with
  | (Ok _, _) => True
  | (Raise _, ct) =>
      let cf := snd (scan_processes_fast os ct) in
      forall r p,
        r ∈ values cf -> store cf !! r = Some p ->
        threads_backfilled os p = true
  end.

(** The process IDs a source reports, the caller's own excluded. *)
Definition reported (os : ScanOS) (pids : list Z) : gset Z :=
  list_to_set pids ∖ {[GetCurrentProcessId os]}.

(** The IDs of a toolhelp snapshot: those of the process entries and the
    owners of the thread entries. *)
Definition toolhelp_pids (th : Toolhelp) : list Z :=
  (process_entries th).*1 ++ (thread_entries th).*1.

(** The caller's own ID, if it is tracked. *)
Definition own_if_tracked (os : ScanOS) (c : Snapshot) : gset Z :=
  keys c ∩ {[GetCurrentProcessId os]}.

(** No handle fails to close. *)
Definition closes_succeed (os : ScanOS) : Prop :=
  forall v, exists u, CloseHandle os v = Success u.

(** The outcome of one enumeration pass that reported the IDs [S], from
    the container [c] to [c']: every reported ID is tracked; nothing else
    appeared; the caller's own ID is tracked after the pass exactly when
    it was before; when the pass returns, the tracked IDs are the
    reported ones, and the caller's own if it was tracked, so that every
    other ID that was tracked and is not reported is gone; and the pass
    returns when no handle fails to close. *)
Definition reconciled (os : ScanOS) (S : gset Z) (c : Snapshot)
    (res : Result unit) (c' : Snapshot) : Prop :=
  S ⊆ keys c' /\
  keys c' ⊆ S ∪ keys c /\
  own_if_tracked os c' = own_if_tracked os c /\
  (res = Ok tt -> keys c' = S ∪ own_if_tracked os c) /\
  (closes_succeed os -> res = Ok tt).

(** The object a process ID is mapped to, with its reference. *)
Definition tracked (c : Snapshot) (pid : Z) : option (nat * Process) :=
  match processDict c !! pid with
  | Some r => match store c !! r with
              | Some p => Some (r, p)
              | None => None
              end
  | None => None
  end.

(** A system where the toolhelp source is denied, the fast source lists
    three processes and the caller, the session source two of them, and
    every per-process query succeeds; the retrieval of a file name
    leaves the process with a handle opened for it.  The caller is
    process 1234. *)
Definition toolhelp_denied : ScanOS :=
  mkScanOS 1234
    (Success [4; 8; 12; 1234])
    (Failure win32.ERROR_ACCESS_DENIED)
    (Success [(4, "System"); (8, "calc.exe"); (1234, "python.exe")])
    (fun _ => Success tt)
    (fun _ => Success [])
    (fun _ => Success [0x400000])
    (fun pid => Ok (Some "C:\Windows\image.exe"))
    (fun pid _ => Some (mkHandle (4 * pid) win32.PROCESS_QUERY_LIMITED_INFORMATION))
    (fun _ bases => bases).

(** As [toolhelp_denied], but the threads of no process can be
    enumerated either. *)
Definition threads_denied : ScanOS :=
  mkScanOS 1234
    (Success [4; 8; 12; 1234])
    (Failure win32.ERROR_ACCESS_DENIED)
    (Success [(4, "System"); (8, "calc.exe"); (1234, "python.exe")])
    (fun _ => Success tt)
    (fun _ => Failure win32.ERROR_ACCESS_DENIED)
    (fun _ => Success [0x400000])
    (fun pid => Ok (Some "C:\Windows\image.exe"))
    (fun pid _ => Some (mkHandle (4 * pid) win32.PROCESS_QUERY_LIMITED_INFORMATION))
    (fun _ bases => bases).

(** A system where all three sources work and agree on processes 4 and
    8; process 8 has two threads. *)
Definition all_sources : ScanOS :=
  mkScanOS 1234
    (Success [4; 8; 1234])
    (Success (mkToolhelp [(4, "System"); (8, "calc.exe"); (1234, "python.exe")]
                [(8, 81); (8, 82); (1234, 12341)]))
    (Success [(4, "System"); (8, "calc.exe"); (1234, "python.exe")])
    (fun _ => Success tt)
    (fun _ => Success [])
    (fun _ => Success [0x400000])
    (fun pid => Ok (Some "C:\Windows\image.exe"))
    (fun pid _ => Some (mkHandle (4 * pid) win32.PROCESS_QUERY_LIMITED_INFORMATION))
    (fun _ bases => bases).

(** A container that tracks processes 4 and 16, the first with a handle
    and a thread. *)
Definition two_processes : Snapshot :=
  mkSnapshot {[ 4 := 0%nat; 16 := 1%nat ]}
    [mkProcessObj 4 (Some (mkHandle 100 0x400)) (Some "System") [41] [];
     mkProcessObj 16 None None [] []].

End ContainerSpec.

(** * More of [winappdbg.process]

    The address and buffer predicates, the strict read, and the lookups
    and notifications of the container. *)

(** ** Address predicates *)

(** A method that can also raise [ValueError], and whose [while] loop is
    followed for a bounded number of iterations: it returns, raises one
    of the exceptions above, raises [ValueError], or is still in its loop
    when the bound is reached. *)
Inductive Outcome (A : Type) :=
| Returns (a : A)
| Raises (e : Exn)
| RaisesValueError
| StillRunning.
Arguments Returns {A} a.
Arguments Raises {A} e.
Arguments RaisesValueError {A}.
Arguments StillRunning {A}.

Definition MO (A : Type) : Type := ProcessState -> Outcome A * ProcessState.

(** A method body of [M] run where [ValueError] is possible. *)
Definition lift {A} (c : M A) : MO A :=
  fun s => match c s with
           | (Ok a, s') => (Returns a, s')
           | (Raise e, s') => (Raises e, s')
           end.

Definition obind {A B} (c : MO A) (k : A -> MO B) : MO B :=
  fun s => match c s with
           | (Returns a, s') => k a s'
           | (Raises e, s') => (Raises e, s')
           | (RaisesValueError, s') => (RaisesValueError, s')
           | (StillRunning, s') => (StillRunning, s')
           end.

Section MoreOfProcess.

Variable os : OS.

(** The [try] block shared by the address and buffer predicates:
    [mbi = self.mquery(address)], where [ERROR_INVALID_PARAMETER] makes
    the predicate answer [False] ([None] here) and any other error is
    raised again. *)
Definition query_or_false (address : Z) : M (option MemoryBasicInformation) :=
  except_WindowsError
    (do mbi <- mquery os address ; ret (Some mbi))
    (fun code => if code =? win32.ERROR_INVALID_PARAMETER then ret None
                 else raise (WindowsError code)).

(** The shape of [Process.is_pointer] and of the [is_address_*] methods:
    they differ by the test made on the region. *)
Definition address_predicate (test : MemoryBasicInformation -> bool)
    (address : Z) : M bool :=
  do q <- query_or_false address ;
  match q with
  | None => ret false
  | Some mbi => ret (test mbi)
  end.

(** [Process.is_pointer] *)
Definition is_pointer : Z -> M bool := address_predicate MBI.has_content.
(** [Process.is_address_valid] *)
Definition is_address_valid : Z -> M bool := address_predicate (fun _ => true).
(** [Process.is_address_free] *)
Definition is_address_free : Z -> M bool := address_predicate MBI.is_free.
(** [Process.is_address_reserved] *)
Definition is_address_reserved : Z -> M bool :=
  address_predicate MBI.is_reserved.
(** [Process.is_address_commited] *)
Definition is_address_commited : Z -> M bool :=
  address_predicate MBI.is_commited.
(** [Process.is_address_readable] *)
Definition is_address_readable : Z -> M bool :=
  address_predicate MBI.is_readable.
(** [Process.is_address_writeable] *)
Definition is_address_writeable : Z -> M bool :=
  address_predicate MBI.is_writeable.
(** [Process.is_address_executable] *)
Definition is_address_executable : Z -> M bool :=
  address_predicate MBI.is_executable.

(** ** Buffer predicates *)

(** The [while size > 0] loop of [Process.is_buffer] and of the
    [is_buffer_*] methods.  Every iteration queries [address] again and
    takes the size of the region it is told about off [size].  [fuel]
    bounds the number of iterations that are followed. *)
Fixpoint buffer_loop (test : MemoryBasicInformation -> bool) (fuel : nat)
    (address size : Z) : MO bool :=
  fun s =>
    if 0 <? size then
      match fuel with
      | O => (StillRunning, s)
      | S fuel' =>
          match query_or_false address s with
          | (Raise e, s') => (Raises e, s')
          | (Ok None, s') => (Returns false, s')
          | (Ok (Some mbi), s') =>
              if negb (test mbi) then (Returns false, s')
              else buffer_loop test fuel' address (size - RegionSize mbi) s'
          end
      end
    else (Returns true, s).

(** The shape of the buffer predicates: [ValueError] unless the size is
    positive, then the loop. *)
Definition buffer_predicate (test : MemoryBasicInformation -> bool)
    (fuel : nat) (address size : Z) : MO bool :=
  fun s =>
    if size <=? 0 then (RaisesValueError, s)
    else buffer_loop test fuel address size s.

(** [Process.is_buffer] *)
Definition is_buffer : nat -> Z -> Z -> MO bool :=
  buffer_predicate MBI.has_content.
(** [Process.is_buffer_readable] *)
Definition is_buffer_readable : nat -> Z -> Z -> MO bool :=
  buffer_predicate MBI.is_readable.
(** [Process.is_buffer_writeable] *)
Definition is_buffer_writeable : nat -> Z -> Z -> MO bool :=
  buffer_predicate MBI.is_writeable.
(** [Process.is_buffer_executable] *)
Definition is_buffer_executable : nat -> Z -> Z -> MO bool :=
  buffer_predicate MBI.is_executable.
(** [Process.is_buffer_executable_and_writeable]: the test it makes on
    each region is [mbi.is_executable()]. *)
Definition is_buffer_executable_and_writeable : nat -> Z -> Z -> MO bool :=
  buffer_predicate MBI.is_executable.

(** ** Strict read *)

(** [Process.read] *)
Definition read (fuel : nat) (lpBaseAddress nSize : Z)
    : MO (list Byte.byte) :=
  obind
    (lift (get_handle os
             (Z.lor win32.PROCESS_VM_READ win32.PROCESS_QUERY_INFORMATION)))
    (fun hProcess =>
       obind (is_buffer fuel lpBaseAddress nSize)
         (fun ok =>
            if negb ok then
              lift (raise (WindowsError win32.ERROR_INVALID_ADDRESS))
            else
              obind (lift (ReadProcessMemory os hProcess lpBaseAddress nSize))
                (fun data =>
                   if negb (Z.of_nat (length data) =? nSize)
                   then lift (raise_WinError os)
                   else lift (ret data)))).

End MoreOfProcess.

(** ** Lookups and notifications of the container *)

Module ContainerOps.
Import Container.

Section WithScanOS.

Variable os : ScanOS.

(** [_ProcessContainer.has_process] *)
Definition has_process (dwProcessId : Z) : C bool :=
  initialize_snapshot os ;;
  fun c => (Ok (bool_decide (is_Some (processDict c !! dwProcessId))), c).

(** [_ProcessContainer.get_process]; the object is returned by
    reference. *)
Definition get_process (dwProcessId : Z) : C nat :=
  initialize_snapshot os ;;
  fun c => match processDict c !! dwProcessId with
           | None => (Raise KeyError, c)
           | Some r => (Ok r, c)
           end.

(** [_ProcessContainer.get_process_count] *)
Definition get_process_count : C nat :=
  initialize_snapshot os ;;
  fun c => (Ok (size (processDict c)), c).

(** [_ProcessContainer.iter_processes], as references. *)
Definition iter_processes : C (list nat) :=
  initialize_snapshot os ;;
  fun c => (Ok (values c), c).

(** [_ProcessContainer._notify_exit_process]; of the event only
    [get_pid()] is used. *)
Definition _notify_exit_process (dwProcessId : Z) : C bool :=
  fun c =>
    match processDict c !! dwProcessId with
    | Some _ => (_del_process os dwProcessId ;; ret true) c
    | None => (Ok true, c)
    end.

(** [_ProcessContainer.clear_processes]: every object is cleared, then
    the container gets a new, empty dictionary. *)
Definition clear_processes : C unit :=
  do refs <- iter_processes ;
  for_each (Process_clear os) refs ;;
  fun c => (Ok tt, mkSnapshot ∅ (store c)).

(** [aProcess.close_handle()] on the object behind [r]. *)
Definition Process_close_handle (r : nat) : C unit :=
  fun c =>
    match read_object r c with
    | None => (Ok tt, c)
    | Some p =>
        let c' := write_object r (set_hProcess None p) c in
        match hProcess p with
        | None => (Ok tt, c')
        | Some h =>
            if value h =? win32.INVALID_HANDLE_VALUE then (Ok tt, c')
            else match CloseHandle os (value h) with
                 | Success _ => (Ok tt, c')
                 | Failure code => (Raise (WindowsError code), c')
                 end
        end
    end.

(** [_ProcessContainer.close_process_handles]: a handle that fails to
    close is only warned about. *)
Definition close_process_handles : C unit :=
  do pids <- get_process_ids os ;
  for_each
    (fun pid =>
       do r <- get_process pid ;
       try_except (Process_close_handle r) (fun _ => ret tt))
    (elements pids).

End WithScanOS.

(** *** Vocabulary of the container properties *)

(** What [Process.clear] leaves of an object: its ID and its file name. *)
Definition cleared (p : Process) : Process :=
  set_hProcess None (set_moduleBases [] (set_threadIds [] p)).

(** [names_kept c c']: every object of [c] is still there in [c'], with
    its process ID, and with its file name if it had one. *)
Definition names_kept (c c' : Snapshot) : Prop :=
  forall r p,
    store c !! r = Some p ->
    exists p',
      store c' !! r = Some p' /\
      dwProcessId p' = dwProcessId p /\
      (name_truthy (fileName p) = true -> fileName p' = fileName p).

(** The file name an object has after a refresh: the name that was
    retrieved, or the one it had when the retrieval fails or answers
    with an empty name. *)
Definition refreshed_name (os : ScanOS) (p : Process) : option string :=
  match os_get_image_name os (dwProcessId p) with
  | Ok n => if name_truthy n then n else fileName p
  | Raise _ => fileName p
  end.

(** A process object after one refresh of its file name: the handle and
    the module snapshot are what the retrieval of the image name left. *)
Definition refreshed (os : ScanOS) (p : Process) : Process :=
  set_fileName (refreshed_name os p) (after_get_image_name os p).

(** [names_improved os c c']: the dictionary is the same, and every
    object keeps its process ID and its threads, with a file name that
    is the one it had or a non-empty name the system gave for that
    process. *)
Definition names_improved (os : ScanOS) (c c' : Snapshot) : Prop :=
  processDict c' = processDict c /\
  forall r p,
    store c !! r = Some p ->
    exists p',
      store c' !! r = Some p' /\
      dwProcessId p' = dwProcessId p /\
      threadIds p' = threadIds p /\
      (fileName p' = fileName p \/
       (name_truthy (fileName p') = true /\
        os_get_image_name os (dwProcessId p) = Ok (fileName p'))).

(** [handles_closed c c']: the dictionary is the same, and every object
    that is tracked differs at most by its handle, which is gone; the
    other objects are as they were. *)
Definition handles_closed (c c' : Snapshot) : Prop :=
  processDict c' = processDict c /\
  forall r,
    store c' !! r
    = if bool_decide (r ∈ values c)
      then set_hProcess None <$> store c !! r
      else store c !! r.

(** A system where no handle can be closed. *)
Definition closes_fail : ScanOS :=
  mkScanOS 1234
    (Success [4; 8; 1234])
    (Failure win32.ERROR_ACCESS_DENIED)
    (Failure win32.ERROR_ACCESS_DENIED)
    (fun _ => Failure win32.ERROR_ACCESS_DENIED)
    (fun _ => Success [])
    (fun _ => Success [0x400000])
    (fun pid => Ok None)
    (fun _ h => h)
    (fun _ bases => bases).

End ContainerOps.

(** ** Vocabulary of the further properties *)

Definition poke_access : Z :=
  Z.lor win32.PROCESS_VM_WRITE
    (Z.lor win32.PROCESS_VM_OPERATION win32.PROCESS_QUERY_INFORMATION).

(** The protection [poke] switches a region to before it writes, if it
    does: copy-on-write for images and mapped files, nothing for a region
    that is writeable already, read-write otherwise, with execute when
    the region is executable. *)
Definition temporary_protection (mbi : MemoryBasicInformation) : option Z :=
  if MBI.is_image mbi || MBI.is_mapped mbi then Some win32.PAGE_WRITECOPY
  else if MBI.is_writeable mbi then None
  else if MBI.is_executable mbi then Some win32.PAGE_EXECUTE_READWRITE
  else Some win32.PAGE_READWRITE.





(** An event of a method that only looks at the region of [address]:
    handle management, warnings, and region queries at [address]. *)
Definition probes (address : Z) (ev : Event) : Prop :=
  match ev with
  | EvOpenProcess _ _ _ => True
  | EvCloseHandle _ _ => True
  | EvWarn _ => True
  | EvVirtualQueryEx _ a _ => a = address
  | _ => False
  end.

(** Calls that neither change the memory of the target nor touch its
    threads. *)
Definition read_only (ev : Event) : Prop :=
  is_mutation ev = false /\ is_thread_control ev = false.

(** Calls that change the state of a region: allocations and frees. *)
Definition is_state_change (ev : Event) : bool :=
  match ev with
  | EvVirtualAllocEx _ _ _ _ _ _ => true
  | EvVirtualFreeEx _ _ _ _ _ => true
  | _ => false
  end.

Definition no_state_change (ev : Event) : Prop := is_state_change ev = false.

(** Every region query at [address] is answered with the region [mbi],
    whatever happened before: the target is quiescent there. *)
Definition region_is (os : OS) (address : Z) (mbi : MemoryBasicInformation)
    : Prop :=
  forall l h, os_VirtualQueryEx os l h address = Success mbi.

(** ** Further example systems *)

(** As [Demo.os], except that thread 2 cannot be suspended. *)
Module Stubborn.
Definition os : OS :=
  mkOS
    (os_OpenProcess Demo.os)
    (os_CloseHandle Demo.os)
    (os_VirtualQueryEx Demo.os)
    (os_ReadProcessMemory Demo.os)
    (os_WriteProcessMemory Demo.os)
    (os_VirtualAllocEx Demo.os)
    (os_VirtualFreeEx Demo.os)
    (os_VirtualProtectEx Demo.os)
    (fun _ _ => Success [1; 2; 3])
    (fun _ t => if t =? 2 then Failure win32.ERROR_ACCESS_DENIED else Success 0)
    (os_ResumeThread Demo.os)
    (os_GetLastError Demo.os)
    (os_IsWow64Process Demo.os)
    (win32_bits Demo.os)
    (win32_wow64 Demo.os)
    (win32_has_PROCESS_QUERY_LIMITED_INFORMATION Demo.os)
    (HexDump_new Demo.os).
End Stubborn.

(** As [Demo.os], except that every page is read-only and executable
    code, and that no handle closes. *)
Module Sealed.
Definition page (a : Z) : MemoryBasicInformation :=
  mkMBI (MemoryAddresses.align_address_to_page_start a)
    MemoryAddresses.pageSize win32.MEM_COMMIT win32.PAGE_EXECUTE_READ
    win32.MEM_PRIVATE None None.

Definition os : OS :=
  mkOS
    (os_OpenProcess Demo.os)
    (fun _ _ => Failure win32.ERROR_ACCESS_DENIED)
    (fun _ _ a => Success (page a))
    (os_ReadProcessMemory Demo.os)
    (os_WriteProcessMemory Demo.os)
    (os_VirtualAllocEx Demo.os)
    (os_VirtualFreeEx Demo.os)
    (fun _ _ _ _ _ => Success win32.PAGE_EXECUTE_READ)
    (os_scan_threads Demo.os)
    (os_SuspendThread Demo.os)
    (os_ResumeThread Demo.os)
    (os_GetLastError Demo.os)
    (os_IsWow64Process Demo.os)
    (win32_bits Demo.os)
    (win32_wow64 Demo.os)
    (win32_has_PROCESS_QUERY_LIMITED_INFORMATION Demo.os)
    (HexDump_new Demo.os).

(** A process that holds a handle with the rights [poke] asks for. *)
Definition process : ProcessState :=
  mkProcess 1234 (Some (mkHandle 100 poke_access)) [] [] None.
End Sealed.

(** As [Demo.os], except that every page is read-only code whose
    protection cannot be changed. *)
Module Locked.
Definition os : OS :=
  mkOS
    (os_OpenProcess Demo.os)
    (os_CloseHandle Demo.os)
    (fun _ _ a => Success (Sealed.page a))
    (os_ReadProcessMemory Demo.os)
    (os_WriteProcessMemory Demo.os)
    (os_VirtualAllocEx Demo.os)
    (os_VirtualFreeEx Demo.os)
    (fun _ _ _ _ _ => Failure win32.ERROR_ACCESS_DENIED)
    (os_scan_threads Demo.os)
    (os_SuspendThread Demo.os)
    (os_ResumeThread Demo.os)
    (os_GetLastError Demo.os)
    (os_IsWow64Process Demo.os)
    (win32_bits Demo.os)
    (win32_wow64 Demo.os)
    (win32_has_PROCESS_QUERY_LIMITED_INFORMATION Demo.os)
    (HexDump_new Demo.os).
End Locked.

(** As [Demo.os], except that only the page at 0x10000 is committed:
    every other address lies in free memory. *)
Module Island.
Definition page (a : Z) : MemoryBasicInformation :=
  let base := MemoryAddresses.align_address_to_page_start a in
  if base =? 0x10000 then Demo.page a
  else mkMBI base MemoryAddresses.pageSize win32.MEM_FREE win32.PAGE_NOACCESS
         0 None None.

Definition os : OS :=
  mkOS
    (os_OpenProcess Demo.os)
    (os_CloseHandle Demo.os)
    (fun _ _ a => Success (page a))
    (os_ReadProcessMemory Demo.os)
    (os_WriteProcessMemory Demo.os)
    (os_VirtualAllocEx Demo.os)
    (os_VirtualFreeEx Demo.os)
    (os_VirtualProtectEx Demo.os)
    (os_scan_threads Demo.os)
    (os_SuspendThread Demo.os)
    (os_ResumeThread Demo.os)
    (os_GetLastError Demo.os)
    (os_IsWow64Process Demo.os)
    (win32_bits Demo.os)
    (win32_wow64 Demo.os)
    (win32_has_PROCESS_QUERY_LIMITED_INFORMATION Demo.os)
    (HexDump_new Demo.os).

(** A process that holds a handle that can query. *)
Definition process : ProcessState :=
  mkProcess 1234 (Some (mkHandle 100 win32.PROCESS_QUERY_INFORMATION)) [] [] None.
End Island.

(** * Properties *)

(** ** The handle manager *)

Lemma lor_absorbs_iff (A R : Z) : Z.lor A R = A <-> has_rights A R.
Proof.
  split.
  - intros H i Hi HR. rewrite <- H, Z.lor_spec, HR. apply orb_true_r.
  - intros H. apply Z.bits_inj'. intros i Hi. rewrite Z.lor_spec.
    destruct (Z.testbit R i) eqn:HR.
    + rewrite (H i Hi HR). reflexivity.
    + apply orb_false_r.
Qed.

Lemma open_handle_spec (os : OS) (A : Z) (s : ProcessState) :
  open_handle os A s =
  match os_OpenProcess os (log s) A (dwProcessId s) with
  | Failure code =>
      (Raise (WindowsError code),
       emit (EvOpenProcess A (dwProcessId s) (Failure code)) s)
  | Success v =>
      let l1 := EvOpenProcess A (dwProcessId s) (Success v) :: log s in
      let closing :=
        match held s with
        | Some h0 =>
            match os_CloseHandle os l1 (value h0) with
            | Success u => [EvCloseHandle (value h0) (Success u)]
            | Failure code =>
                [EvWarn "Failed to close process handle";
                 EvCloseHandle (value h0) (Failure code)]
            end
        | None => []
        end in
      (Ok (mkHandle v A),
       mkProcess (dwProcessId s) (Some (mkHandle v A)) (threadIds s)
         (closing ++ l1) (wow64 s))
  end.
Proof.
  unfold open_handle, bind, get_pid, os_call, try_except, close_handle,
    try_finally, get_hProcess, set_hProcess, ret, warn, held, Handle_close, emit.
  cbn.
  destruct (os_OpenProcess os (log s) A (dwProcessId s)) as [v|code]; cbn; [|reflexivity].
  destruct (hProcess s) as [h0|]; cbn; [|reflexivity].
  destruct (value h0 =? win32.INVALID_HANDLE_VALUE); cbn; [reflexivity|].
  unfold os_call; cbn.
  destruct (os_CloseHandle os _ (value h0)); cbn; reflexivity.
Qed.

Lemma get_handle_spec (os : OS) (R : Z) (s : ProcessState) :
  get_handle os R s =
  match held s with
  | Some h =>
      if Z.lor (dwAccess h) R =? dwAccess h then (Ok h, s)
      else open_handle os (Z.lor (dwAccess h) R) s
  | None => open_handle os R s
  end.
Proof.
  unfold get_handle, held, bind, get_hProcess, ret. cbn.
  destruct (hProcess s) as [h|]; [|reflexivity].
  destruct (value h =? win32.INVALID_HANDLE_VALUE); [reflexivity|].
  destruct (Z.lor (dwAccess h) R =? dwAccess h); reflexivity.
Qed.

Lemma sufficient_dec_eq (s : ProcessState) (R : Z) :
  sufficient s R <->
  exists h, held s = Some h /\ (Z.lor (dwAccess h) R =? dwAccess h) = true.
Proof.
  unfold sufficient. split; intros (h & Hh & H); exists h; split; auto.
  - apply Z.eqb_eq, lor_absorbs_iff, H.
  - apply lor_absorbs_iff, Z.eqb_eq, H.
Qed.

Lemma has_rights_lor_l (A R : Z) : has_rights (Z.lor A R) A.
Proof. intros i Hi H. rewrite Z.lor_spec, H. reflexivity. Qed.

Lemma has_rights_lor_r (A R : Z) : has_rights (Z.lor A R) R.
Proof. intros i Hi H. rewrite Z.lor_spec, H. apply orb_true_r. Qed.

Lemma has_rights_refl (A : Z) : has_rights A A.
Proof. intros i Hi H. exact H. Qed.

Lemma has_rights_trans (A B C : Z) :
  has_rights A B -> has_rights B C -> has_rights A C.
Proof. intros H1 H2 i Hi H. auto. Qed.

Lemma has_rights_union (A R1 R2 : Z) :
  has_rights A R1 -> has_rights A R2 -> has_rights A (Z.lor R1 R2).
Proof.
  intros H1 H2 i Hi. rewrite Z.lor_spec. intros H.
  apply orb_true_iff in H. destruct H; auto.
Qed.

Lemma has_rights_zero (A : Z) : has_rights A 0.
Proof. intros i Hi H. rewrite Z.bits_0 in H. discriminate. Qed.

Lemma opens_app (l1 l2 : list Event) : opens (l1 ++ l2) = (opens l1 + opens l2)%nat.
Proof. unfold opens. rewrite List.filter_app, length_app. reflexivity. Qed.

Lemma closes_app (l1 l2 : list Event) : closes (l1 ++ l2) = (closes l1 + closes l2)%nat.
Proof. unfold closes. rewrite List.filter_app, length_app. reflexivity. Qed.

(** What one [open_handle] does to the state. *)
Lemma open_handle_effect (os : OS) (A : Z) (s : ProcessState) :
  let '(res, s') := open_handle os A s in
  opens (log s') = S (opens (log s)) /\
  dwProcessId s' = dwProcessId s /\
  match res with
  | Ok h =>
      exists v, os_OpenProcess os (log s) A (dwProcessId s) = Success v /\
      h = mkHandle v A /\ hProcess s' = Some h /\
      closes (log s') = (closes (log s) + (match held s with Some _ => 1 | None => 0 end))%nat
  | Raise e =>
      (exists code, os_OpenProcess os (log s) A (dwProcessId s) = Failure code /\
                    e = WindowsError code) /\
      hProcess s' = hProcess s /\ closes (log s') = closes (log s)
  end.
Proof.
  rewrite open_handle_spec.
  destruct (os_OpenProcess os (log s) A (dwProcessId s)) as [v|code];
    cbv zeta; unfold emit; simpl log; simpl hProcess; simpl dwProcessId.
  - split; [|split; [reflexivity|]].
    + rewrite opens_app. unfold opens.
      destruct (held s) as [h0|]; [|reflexivity].
      destruct (os_CloseHandle os _ (value h0)); reflexivity.
    + exists v. repeat split.
      rewrite closes_app. unfold closes.
      destruct (held s) as [h0|]; [|cbn; lia].
      destruct (os_CloseHandle os _ (value h0)); cbn; lia.
  - repeat split. exists code. split; reflexivity.
Qed.

Lemma held_after_open (os : OS) (s' : ProcessState) (v A : Z) :
  opens_valid_handles os ->
  forall l pid, os_OpenProcess os l A pid = Success v ->
  hProcess s' = Some (mkHandle v A) ->
  held s' = Some (mkHandle v A).
Proof.
  intros Hos l pid Hv Hs. unfold held. rewrite Hs. cbn.
  destruct (Z.eqb_spec v win32.INVALID_HANDLE_VALUE) as [E|E]; [|reflexivity].
  exfalso. exact (Hos _ _ _ _ Hv E).
Qed.

(** One call of [get_handle], case by case. *)
Lemma get_handle_call (os : OS) (Hos : opens_valid_handles os)
    (R : Z) (s : ProcessState) (res : Result ProcessHandle) (s' : ProcessState) :
  get_handle os R s = (res, s') ->
  (sufficient s R -> s' = s /\ exists h, hProcess s = Some h /\ res = Ok h) /\
  (~ sufficient s R ->
     opens (log s') = S (opens (log s)) /\
     match res with
     | Ok _ =>
         closes (log s') =
           (closes (log s) + match held s with Some _ => 1 | None => 0 end)%nat
     | Raise _ => closes (log s') = closes (log s) /\ hProcess s' = hProcess s
     end) /\
  (is_Ok res = true <->
     sufficient s R \/
     exists v, os_OpenProcess os (log s) (merged_rights s R) (dwProcessId s)
               = Success v) /\
  (forall h, res = Ok h ->
     held s' = Some h /\ has_rights (dwAccess h) R /\
     forall h0, held s = Some h0 -> has_rights (dwAccess h) (dwAccess h0)).
Proof.
  intros Hrun. rewrite get_handle_spec in Hrun.
  pose proof (sufficient_dec_eq s R) as Hsuff.
  unfold merged_rights.
  destruct (held s) as [h0|] eqn:Hheld.
  - destruct (Z.lor (dwAccess h0) R =? dwAccess h0) eqn:Hlor.
    + (* the held handle is enough *)
      assert (Hs : sufficient s R) by (apply Hsuff; eauto).
      injection Hrun as <- <-.
      assert (Hh : hProcess s = Some h0).
      { unfold held in Hheld. destruct (hProcess s) as [h|]; [|discriminate].
        destruct (value h =? win32.INVALID_HANDLE_VALUE); congruence. }
      split; [intros _; split; [reflexivity|exists h0; auto]|].
      split; [intros Hn; contradiction|].
      split; [split; [intros _; left; exact Hs|reflexivity]|].
      intros h E. injection E as <-. split; [exact Hheld|].
      split; [apply lor_absorbs_iff, Z.eqb_eq, Hlor|].
      intros h1 E. injection E as <-. apply has_rights_refl.
    + (* reopen with the merged rights *)
      assert (Hs : ~ sufficient s R).
      { intros Hs. apply Hsuff in Hs. destruct Hs as (h & E & Hh).
        injection E as <-. congruence. }
      pose proof (open_handle_effect os (Z.lor (dwAccess h0) R) s) as He.
      rewrite Hrun in He. destruct He as (Ho & Hp & He). rewrite Hheld in He.
      split; [intros; contradiction|].
      split; [|split].
      * intros _. split; [exact Ho|].
        destruct res as [h|e].
        -- destruct He as (v & _ & _ & _ & Hc). exact Hc.
        -- destruct He as (_ & Hh & Hc). auto.
      * destruct res as [h|e]; cbn.
        -- destruct He as (v & Hv & _). split; eauto.
        -- destruct He as ((code & Hv & _) & _). split; [discriminate|].
           intros [Hc|(v & Hc)]; [contradiction|congruence].
      * intros h ->. destruct He as (v & Hv & -> & Hh & _). cbn.
        split; [eapply held_after_open; eauto|].
        split; [apply has_rights_lor_r|].
        intros h1 E. injection E as <-. apply has_rights_lor_l.
  - assert (Hs : ~ sufficient s R).
    { intros Hs. apply Hsuff in Hs. destruct Hs as (h & E & Hh). discriminate. }
    pose proof (open_handle_effect os R s) as He.
    rewrite Hrun in He. destruct He as (Ho & Hp & He). rewrite Hheld in He.
    split; [intros; contradiction|].
    split; [|split].
    + intros _. split; [exact Ho|].
      destruct res as [h|e].
      * destruct He as (v & _ & _ & _ & Hc). exact Hc.
      * destruct He as (_ & Hh & Hc). auto.
    + destruct res as [h|e]; cbn.
      * destruct He as (v & Hv & _). split; eauto.
      * destruct He as ((code & Hv & _) & _). split; [discriminate|].
        intros [Hc|(v & Hc)]; [contradiction|congruence].
    + intros h ->. destruct He as (v & Hv & -> & Hh & _). cbn.
      split; [eapply held_after_open; eauto|].
      split; [apply has_rights_refl|].
      intros h1 E. discriminate.
Qed.

Lemma get_handles_prefix (os : OS) (rs1 rs2 : list Z) :
  forall s hs s',
    get_handles os (rs1 ++ rs2) s = (Ok hs, s') ->
    exists hs1 s1, get_handles os rs1 s = (Ok hs1, s1).
Proof.
  induction rs1 as [|R rs1 IH]; intros s hs s' H.
  - exists [], s. reflexivity.
  - cbn in H |- *. unfold bind in H |- *.
    destruct (get_handle os R s) as [[h|e] s0]; [|discriminate].
    destruct (get_handles os (rs1 ++ rs2) s0) as [[hs0|e] s1] eqn:E; [|discriminate].
    destruct (IH _ _ _ E) as (hs1 & s2 & E2). rewrite E2. cbn. eauto.
Qed.

Lemma get_handles_covers (os : OS) (Hos : opens_valid_handles os) (rs : list Z) :
  forall s hs s',
    get_handles os rs s = (Ok hs, s') ->
    (forall h0, held s = Some h0 ->
       exists h, held s' = Some h /\ has_rights (dwAccess h) (dwAccess h0)) /\
    (rs <> [] ->
       exists h, held s' = Some h /\ has_rights (dwAccess h) (rights_union rs)).
Proof.
  induction rs as [|R rs IH]; intros s hs s' H.
  - cbn in H. injection H as <- <-. split; [|congruence].
    intros h0 E. exists h0. split; [exact E|apply has_rights_refl].
  - cbn in H. unfold bind in H.
    destruct (get_handle os R s) as [[h|e] s0] eqn:E0; [|discriminate].
    destruct (get_handles os rs s0) as [[hs0|e] s1] eqn:E1; [|discriminate].
    cbn in H. injection H as <- <-.
    destruct (get_handle_call os Hos R s _ _ E0) as (_ & _ & _ & Hok).
    destruct (Hok h eq_refl) as (Hh & HR & Hmono).
    destruct (IH _ _ _ E1) as (IHmono & IHcov).
    destruct (IHmono h Hh) as (h' & Hh' & Hge).
    split.
    + intros h0 E. exists h'. split; [exact Hh'|].
      eapply has_rights_trans; [exact Hge|]. apply Hmono, E.
    + intros _. cbn.
      destruct rs as [|R' rs'].
      * exists h'. split; [exact Hh'|]. cbn.
        apply has_rights_union; [|apply has_rights_zero].
        exact (has_rights_trans _ _ _ Hge HR).
      * destruct (IHcov ltac:(congruence)) as (h'' & Hh'' & Hcov).
        exists h''. split; [exact Hh''|].
        apply has_rights_union; [|exact Hcov].
        rewrite Hh' in Hh''. injection Hh'' as <-.
        exact (has_rights_trans _ _ _ Hge HR).
Qed.

(** C7.  Rights held by a process handle only grow.  For one call of
    [get_handle]: when the handle held covers the requested rights,
    nothing is opened or closed, the state is unchanged and the handle
    returned is the one held; otherwise the system is asked exactly once
    to open a handle, with the held rights merged with the requested
    ones, and on success the previous handle, if one was held, is closed
    exactly once.  A call that returns leaves a held handle whose rights
    cover the request and the rights held before.  For a sequence of
    calls: after each call the held handle covers the union of all the
    rights requested so far. *)
Theorem get_handle_rights_monotone (os : OS) (Hos : opens_valid_handles os) :
  (forall R s res s',
     get_handle os R s = (res, s') ->
     (sufficient s R ->
        s' = s /\ exists h, hProcess s = Some h /\ res = Ok h) /\
     (~ sufficient s R ->
        opens (log s') = S (opens (log s)) /\
        match res with
        | Ok _ =>
            closes (log s') =
              (closes (log s) + match held s with Some _ => 1 | None => 0 end)%nat
        | Raise _ =>
            closes (log s') = closes (log s) /\ hProcess s' = hProcess s
        end) /\
     (is_Ok res = true <->
        sufficient s R \/
        exists v, os_OpenProcess os (log s) (merged_rights s R) (dwProcessId s)
                  = Success v) /\
     (forall h, res = Ok h ->
        held s' = Some h /\ has_rights (dwAccess h) R /\
        forall h0, held s = Some h0 -> has_rights (dwAccess h) (dwAccess h0))) /\
  (forall rs1 rs2 s hs s',
     get_handles os (rs1 ++ rs2) s = (Ok hs, s') ->
     rs1 <> [] ->
     exists hs1 s1 h,
       get_handles os rs1 s = (Ok hs1, s1) /\
       held s1 = Some h /\
       has_rights (dwAccess h) (rights_union rs1)).
Proof.
  split.
  - intros R s res s' H. exact (get_handle_call os Hos R s res s' H).
  - intros rs1 rs2 s hs s' H Hne.
    destruct (get_handles_prefix os rs1 rs2 s hs s' H) as (hs1 & s1 & H1).
    destruct (get_handles_covers os Hos rs1 s hs1 s1 H1) as (_ & Hcov).
    destruct (Hcov Hne) as (h & Hh & Hr).
    exists hs1, s1, h. auto.
Qed.

Lemma Demo_opens_valid_handles : opens_valid_handles Demo.os.
Proof. intros l access pid v H. cbn in H. injection H as <-. unfold win32.INVALID_HANDLE_VALUE. lia. Defined.

(** The theorem at work: read access, then query access, on a process
    without handle. *)
Lemma get_handle_rights_monotone_witness :
  opens_valid_handles Demo.os /\
  exists hs1 s1 h,
    get_handles Demo.os [win32.PROCESS_VM_READ; win32.PROCESS_QUERY_INFORMATION]
      Demo.process = (Ok hs1, s1) /\
    held s1 = Some h /\
    has_rights (dwAccess h)
      (rights_union [win32.PROCESS_VM_READ; win32.PROCESS_QUERY_INFORMATION]).
Proof.
  split; [exact Demo_opens_valid_handles|].
  destruct (get_handle_rights_monotone Demo.os Demo_opens_valid_handles)
    as [_ Hseq].
  eapply (Hseq [win32.PROCESS_VM_READ; win32.PROCESS_QUERY_INFORMATION] []).
  - vm_compute. reflexivity.
  - discriminate.
Defined.

(** ** The memory map *)

Lemma os_call_raise {A} (answer : list Event -> OsResult A)
    (ev : OsResult A -> Event) (s s' : ProcessState) (e : Exn) :
  (forall r, event_failure (ev r) = failure_code r) ->
  os_call answer ev s = (Raise e, s') ->
  exists code, e = WindowsError code /\ last_call_failed s' code.
Proof.
  intros Hev H. unfold os_call in H.
  destruct (answer (log s)) as [a|code] eqn:E; [discriminate|].
  injection H as <- <-. exists code. split; [reflexivity|].
  exists (ev (Failure code)), (log s). split; [reflexivity|].
  rewrite Hev. reflexivity.
Qed.

Lemma get_handle_raise (os : OS) (R : Z) (s s' : ProcessState) (e : Exn) :
  get_handle os R s = (Raise e, s') ->
  exists code, e = WindowsError code /\ last_call_failed s' code.
Proof.
  rewrite get_handle_spec.
  assert (Hopen : forall A, open_handle os A s = (Raise e, s') ->
            exists code, e = WindowsError code /\ last_call_failed s' code).
  { intros A. rewrite open_handle_spec.
    destruct (os_OpenProcess os (log s) A (dwProcessId s)) as [v|code];
      [discriminate|].
    intros H. injection H as <- <-. exists code. split; [reflexivity|].
    eexists _, _. split; reflexivity. }
  destruct (held s) as [h|]; [|apply Hopen].
  destruct (Z.lor (dwAccess h) R =? dwAccess h); [discriminate|apply Hopen].
Qed.

Lemma mquery_raise (os : OS) (a : Z) (s s' : ProcessState) (e : Exn) :
  mquery os a s = (Raise e, s') ->
  exists code, e = WindowsError code /\ last_call_failed s' code.
Proof.
  unfold mquery, bind.
  destruct (get_handle os win32.PROCESS_QUERY_INFORMATION s) as [[h|e0] s0] eqn:E.
  - apply os_call_raise. reflexivity.
  - intros H. injection H as <- <-. eapply get_handle_raise, E.
Qed.

Lemma mquery_ok (os : OS) (a : Z) (s s' : ProcessState) (m : MemoryBasicInformation) :
  mquery os a s = (Ok m, s') ->
  exists l h, os_VirtualQueryEx os l h a = Success m.
Proof.
  unfold mquery, bind.
  destruct (get_handle os win32.PROCESS_QUERY_INFORMATION s) as [[h|e0] s0];
    [|discriminate].
  unfold VirtualQueryEx, os_call.
  destruct (os_VirtualQueryEx os (log s0) (value h) a) as [m'|code] eqn:E;
    [|discriminate].
  intros H. injection H as <- <-. eauto.
Qed.

Lemma align_start_fixpoint (a : Z) :
  a mod MemoryAddresses.pageSize = 0 ->
  MemoryAddresses.align_address_to_page_start a = a.
Proof. unfold MemoryAddresses.align_address_to_page_start. lia. Qed.

Lemma aligned_add (a n : Z) :
  a mod MemoryAddresses.pageSize = 0 ->
  n mod MemoryAddresses.pageSize = 0 ->
  (a + n) mod MemoryAddresses.pageSize = 0.
Proof.
  unfold MemoryAddresses.pageSize. intros Ha Hn.
  rewrite Z.add_mod, Ha, Hn by lia. reflexivity.
Qed.

(** The walk, from any aligned cursor. *)
Lemma iter_memory_map_loop_tiles (os : OS) (Hos : region_contract os) :
  forall fuel prevAddr currentAddr maxAddr s regions stop s',
    currentAddr mod MemoryAddresses.pageSize = 0 ->
    prevAddr < currentAddr ->
    (Z.to_nat (maxAddr - currentAddr) < fuel)%nat ->
    iter_memory_map_loop os fuel prevAddr currentAddr maxAddr s
      = ((regions, stop), s') ->
    contiguous_from currentAddr regions /\
    match stop with
    | None =>
        maxAddr <= end_of currentAddr regions \/
        last_call_failed s' win32.ERROR_INVALID_PARAMETER
    | Some e =>
        exists code, e = WindowsError code /\
                     code <> win32.ERROR_INVALID_PARAMETER /\
                     last_call_failed s' code
    end.
Proof.
  induction fuel as [|fuel IH]; intros prev cur hi s regions stop s' Hal Hlt Hfuel H;
    [lia|].
  cbn [iter_memory_map_loop] in H.
  destruct (Z.ltb_spec prev cur) as [_|]; [|lia].
  destruct (Z.ltb_spec cur hi) as [Hin|Hout]; cbn [andb] in H.
  - destruct (mquery os cur s) as [[m|e] s0] eqn:Eq.
    + destruct (mquery_ok _ _ _ _ _ Eq) as (l & h & Hq).
      destruct (Hos _ _ _ _ Hq) as (Hbase & Hsize & Hpages).
      rewrite align_start_fixpoint in Hbase by exact Hal.
      destruct (iter_memory_map_loop os fuel cur (BaseAddress m + RegionSize m) hi s0)
        as [[rest stop0] s1] eqn:Eloop.
      injection H as <- <- <-.
      assert (Hal' : (BaseAddress m + RegionSize m) mod MemoryAddresses.pageSize = 0)
        by (apply aligned_add; [rewrite Hbase; exact Hal|exact Hpages]).
      destruct (IH cur (BaseAddress m + RegionSize m) hi s0 rest stop0 s1
                  Hal' ltac:(lia) ltac:(lia) Eloop) as (Hc & Hstop).
      split; [cbn; auto|]. exact Hstop.
    + destruct (mquery_raise _ _ _ _ _ Eq) as (code & -> & Hfail).
      destruct (code =? win32.ERROR_INVALID_PARAMETER) eqn:Ecode;
        injection H as <- <- <-; cbn.
      * apply Z.eqb_eq in Ecode. subst code.
        split; [exact I|]. right. exact Hfail.
      * apply Z.eqb_neq in Ecode. split; [exact I|]. eauto.
  - injection H as <- <- <-. cbn. split; [exact I|]. left. lia.
Qed.

Lemma contiguous_from_lower (regions : list MemoryBasicInformation) :
  forall c, contiguous_from c regions ->
  forall j mj, regions !! j = Some mj -> c <= BaseAddress mj.
Proof.
  induction regions as [|m rest IH]; intros c H j mj Hj; [discriminate|].
  destruct H as (Hb & Hs & Hc). destruct j as [|j]; cbn in Hj.
  - injection Hj as <-. lia.
  - specialize (IH _ Hc j mj Hj). lia.
Qed.

(** Contiguous regions are in increasing address order and do not
    overlap. *)
Lemma contiguous_from_ordered (regions : list MemoryBasicInformation) :
  forall c, contiguous_from c regions ->
  forall i j mi mj,
    regions !! i = Some mi -> regions !! j = Some mj -> (i < j)%nat ->
    BaseAddress mi + RegionSize mi <= BaseAddress mj.
Proof.
  induction regions as [|m rest IH]; intros c H i j mi mj Hi Hj Hlt;
    [discriminate|].
  destruct H as (Hb & Hs & Hc).
  destruct j as [|j]; [lia|]. cbn in Hj.
  destruct i as [|i]; cbn in Hi.
  - injection Hi as <-. exact (contiguous_from_lower rest _ Hc j mj Hj).
  - apply (IH _ Hc i j mi mj Hi Hj). lia.
Qed.

(** The bound on the number of iterations is never what stops the walk:
    allowing more iterations changes nothing. *)
Lemma iter_memory_map_loop_fuel (os : OS) :
  forall fuel prevAddr currentAddr maxAddr s k,
    (1 <= fuel)%nat ->
    (prevAddr < currentAddr -> (Z.to_nat (maxAddr - currentAddr) < fuel)%nat) ->
    iter_memory_map_loop os (fuel + k) prevAddr currentAddr maxAddr s
    = iter_memory_map_loop os fuel prevAddr currentAddr maxAddr s.
Proof.
  induction fuel as [|fuel IH]; intros prev cur hi s k H1 Hfuel; [lia|].
  cbn [Nat.add iter_memory_map_loop].
  destruct (Z.ltb_spec prev cur) as [Hlt|]; [|reflexivity].
  destruct (Z.ltb_spec cur hi) as [Hin|]; [|reflexivity]. cbn [andb].
  destruct (mquery os cur s) as [[m|e] s0]; [|reflexivity].
  specialize (Hfuel Hlt).
  rewrite IH; [reflexivity|lia|lia].
Qed.

Lemma align_start_aligned (a : Z) :
  MemoryAddresses.align_address_to_page_start a mod MemoryAddresses.pageSize = 0.
Proof.
  unfold MemoryAddresses.align_address_to_page_start.
  rewrite Zminus_mod_idemp_r, Z.sub_diag. reflexivity.
Qed.

Lemma align_address_range_aligned (minAddr maxAddr : option Z) :
  fst (MemoryAddresses.align_address_range minAddr maxAddr)
    mod MemoryAddresses.pageSize = 0.
Proof.
  unfold MemoryAddresses.align_address_range.
  destruct (_ <? _); cbn; apply align_start_aligned.
Qed.

(** C6.  Under the region-query contract of the system, the regions
    yielded by [iter_memory_map] for a range tile it: the first starts at
    the page-aligned lower bound, each next one starts where the previous
    one ended, they are in increasing order without overlap, and when the
    walk ends without exception either the last region reaches the
    aligned upper bound or the last query was answered "invalid
    parameter", which ends the walk as the end of the address space and
    is not raised.  Any other failure is raised.  The walk always ends by
    itself. *)
Theorem iter_memory_map_tiles (os : OS) (Hos : region_contract os)
    (minAddr maxAddr : option Z) (s : ProcessState) :
  let '(lo, hi) := MemoryAddresses.align_address_range minAddr maxAddr in
  let '((regions, stop), s') := iter_memory_map os minAddr maxAddr s in
  contiguous_from lo regions /\
  (forall i j mi mj,
     regions !! i = Some mi -> regions !! j = Some mj -> (i < j)%nat ->
     BaseAddress mi + RegionSize mi <= BaseAddress mj) /\
  match stop with
  | None =>
      hi <= end_of lo regions \/
      last_call_failed s' win32.ERROR_INVALID_PARAMETER
  | Some e =>
      exists code, e = WindowsError code /\
                   code <> win32.ERROR_INVALID_PARAMETER /\
                   last_call_failed s' code
  end /\
  forall k,
    iter_memory_map_loop os (S (Z.to_nat (hi - lo)) + k) (lo - 1) lo hi s
    = ((regions, stop), s').
Proof.
  pose proof (align_address_range_aligned minAddr maxAddr) as Hal.
  unfold iter_memory_map.
  destruct (MemoryAddresses.align_address_range minAddr maxAddr) as [lo hi].
  cbn [fst] in Hal.
  destruct (iter_memory_map_loop os (S (Z.to_nat (hi - lo))) (lo - 1) lo hi s)
    as [[regions stop] s'] eqn:E.
  assert (Hprev : lo - 1 < lo) by lia.
  assert (Hfuel : (Z.to_nat (hi - lo) < S (Z.to_nat (hi - lo)))%nat) by lia.
  destruct (iter_memory_map_loop_tiles os Hos _ _ _ _ _ _ _ _ Hal
              Hprev Hfuel E) as (Hc & Hstop).
  split; [exact Hc|].
  split; [exact (contiguous_from_ordered regions lo Hc)|].
  split; [exact Hstop|].
  intros k. rewrite iter_memory_map_loop_fuel; [exact E|lia|lia].
Qed.

Lemma Demo_region_contract : region_contract Demo.os.
Proof.
  intros l h a m H. cbn in H. injection H as <-. cbn.
  unfold MemoryAddresses.pageSize. repeat split; lia.
Defined.

(** The theorem at work: three pages from 0x10000. *)
Lemma iter_memory_map_tiles_witness :
  region_contract Demo.os /\
  exists regions s',
    iter_memory_map Demo.os (Some 0x10000) (Some 0x12001) Demo.process
      = ((regions, None), s') /\
    map BaseAddress regions = [0x10000; 0x11000; 0x12000] /\
    contiguous_from 0x10000 regions /\
    0x13000 <= end_of 0x10000 regions.
Proof.
  split; [exact Demo_region_contract|].
  pose proof (iter_memory_map_tiles Demo.os Demo_region_contract
                (Some 0x10000) (Some 0x12001) Demo.process) as H.
  vm_compute in H. destruct H as (Hc & _ & Hend & _).
  eexists _, _. split; [vm_compute; reflexivity|].
  split; [reflexivity|]. split; [exact Hc|].
  vm_compute. discriminate.
Defined.

(** ** Best-effort read *)

Lemma iter_memory_map_loop_stop (os : OS) :
  forall fuel prevAddr currentAddr maxAddr s regions e s',
    iter_memory_map_loop os fuel prevAddr currentAddr maxAddr s
      = ((regions, Some e), s') ->
    exists code, e = WindowsError code.
Proof.
  induction fuel as [|fuel IH]; intros prev cur hi s regions e s' H;
    [discriminate|].
  cbn [iter_memory_map_loop] in H.
  destruct ((prev <? cur) && (cur <? hi)); [|discriminate].
  destruct (mquery os cur s) as [[m|e0] s0] eqn:Eq.
  - destruct (iter_memory_map_loop os fuel cur (BaseAddress m + RegionSize m) hi s0)
      as [[rest stop0] s1] eqn:Eloop.
    injection H as <- -> <-. eapply IH, Eloop.
  - destruct (mquery_raise _ _ _ _ _ Eq) as (code & -> & _).
    destruct (code =? win32.ERROR_INVALID_PARAMETER); [discriminate|].
    injection H as <- <- <-. eauto.
Qed.

Lemma iter_memory_map_stop (os : OS) (minAddr maxAddr : option Z)
    (s s' : ProcessState) (regions : list MemoryBasicInformation) (e : Exn) :
  iter_memory_map os minAddr maxAddr s = ((regions, Some e), s') ->
  exists code, e = WindowsError code.
Proof.
  unfold iter_memory_map.
  destruct (MemoryAddresses.align_address_range minAddr maxAddr) as [lo hi].
  apply iter_memory_map_loop_stop.
Qed.

(** [peek], outcome by outcome. *)
Lemma peek_cases (os : OS) (address nSize : Z) (s : ProcessState) :
  peek os address nSize s =
  if 0 <? nSize then
    match get_handle os peek_access s with
    | (Raise _, s1) => (Ok [], emit (EvWarn "Error reading process") s1)
    | (Ok h, s1) =>
        match iter_memory_map os (Some address) (Some (address + nSize)) s1 with
        | ((_, Some _), s2) => (Ok [], emit (EvWarn "Error reading process") s2)
        | ((regions, None), s2) =>
            let n := peek_truncate address nSize regions in
            if 0 <? n then
              match os_ReadProcessMemory os (log s2) (value h) address n with
              | Success data =>
                  (Ok data,
                   emit (EvReadProcessMemory (value h) address n (Success data)) s2)
              | Failure code =>
                  (Ok [],
                   emit (EvWarn "Error reading process")
                     (emit (EvReadProcessMemory (value h) address n (Failure code))
                        s2))
              end
            else (Ok [], s2)
        end
    end
  else (Ok [], s).
Proof.
  unfold peek.
  destruct (0 <? nSize); [|reflexivity].
  unfold except_WindowsError, try_except, bind. fold peek_access.
  destruct (get_handle os peek_access s) as [[h|e] s1] eqn:Eh.
  - unfold get_memory_map.
    destruct (iter_memory_map os (Some address) (Some (address + nSize)) s1)
      as [[regions [e|]] s2] eqn:Em.
    + destruct (iter_memory_map_stop _ _ _ _ _ _ _ Em) as (code & ->).
      reflexivity.
    + cbv zeta.
      destruct (0 <? peek_truncate address nSize regions); [|reflexivity].
      unfold ReadProcessMemory, os_call.
      destruct (os_ReadProcessMemory os (log s2) (value h) address _);
        reflexivity.
  - destruct (get_handle_raise _ _ _ _ _ Eh) as (code & -> & _). reflexivity.
Qed.

Lemma peek_truncate_cut (address nSize : Z)
    (regions : list MemoryBasicInformation) :
  readable_cut address nSize regions (peek_truncate address nSize regions).
Proof.
  induction regions as [|m rest IH]; cbn.
  - left. split; [constructor|reflexivity].
  - destruct (MBI.is_readable m) eqn:Hr; cbn.
    + destruct IH as [(Hall & Hn)|(pre & m' & post & -> & Hpre & Hm' & Hn)].
      * left. split; [constructor; assumption|exact Hn].
      * right. exists (m :: pre), m', post.
        split; [reflexivity|]. split; [constructor; assumption|]. auto.
    + right. exists [], m, rest. split; [reflexivity|].
      split; [constructor|]. auto.
Qed.

(** Contiguous regions cover every address between the cursor and
    their end. *)
Lemma contiguous_from_covers (regions : list MemoryBasicInformation) :
  forall c a,
    contiguous_from c regions -> c <= a < end_of c regions ->
    exists m, m ∈ regions /\ in_region a m.
Proof.
  induction regions as [|m rest IH]; intros c a H Ha; cbn in *; [lia|].
  destruct H as (Hb & Hs & Hc).
  destruct (Z.lt_ge_cases a (BaseAddress m + RegionSize m)) as [Hin|Hout].
  - exists m. split; [left|]. unfold in_region. lia.
  - destruct (IH _ a Hc ltac:(lia)) as (m' & Hm' & Hin').
    exists m'. split; [right; exact Hm'|exact Hin'].
Qed.

Lemma contiguous_from_app (pre post : list MemoryBasicInformation) :
  forall c,
    contiguous_from c (pre ++ post) ->
    contiguous_from c pre /\ contiguous_from (end_of c pre) post.
Proof.
  induction pre as [|m pre IH]; intros c H; cbn in *; [auto|].
  destruct H as (Hb & Hs & Hc). destruct (IH _ Hc) as (H1 & H2). auto.
Qed.

(** Under the region-query contract every region of the walk starts
    below the upper bound, on a page boundary, and spans a positive
    number of whole pages. *)
Lemma iter_memory_map_loop_pages (os : OS) (Hos : region_contract os) :
  forall fuel prevAddr currentAddr maxAddr s regions stop s',
    currentAddr mod MemoryAddresses.pageSize = 0 ->
    iter_memory_map_loop os fuel prevAddr currentAddr maxAddr s
      = ((regions, stop), s') ->
    Forall (fun m => BaseAddress m < maxAddr /\ whole_pages m) regions.
Proof.
  induction fuel as [|fuel IH]; intros prev cur hi s regions stop s' Hal H.
  - injection H as <- _ _. constructor.
  - cbn [iter_memory_map_loop] in H.
    destruct (Z.ltb_spec prev cur) as [_|]; [|injection H as <- _ _; constructor].
    destruct (Z.ltb_spec cur hi) as [Hin|]; cbn [andb] in H;
      [|injection H as <- _ _; constructor].
    destruct (mquery os cur s) as [[m|e] s0] eqn:Eq.
    + destruct (mquery_ok _ _ _ _ _ Eq) as (l & h & Hq).
      destruct (Hos _ _ _ _ Hq) as (Hbase & Hsize & Hpages).
      rewrite align_start_fixpoint in Hbase by exact Hal.
      destruct (iter_memory_map_loop os fuel cur (BaseAddress m + RegionSize m)
                  hi s0) as [[rest stop0] s1] eqn:Eloop.
      injection H as <- _ _.
      assert (Hal' : (BaseAddress m + RegionSize m) mod MemoryAddresses.pageSize
                     = 0)
        by (apply aligned_add; [rewrite Hbase; exact Hal|exact Hpages]).
      constructor.
      * split; [lia|]. unfold whole_pages. rewrite Hbase. auto.
      * eapply IH; [exact Hal'|exact Eloop].
    + destruct e as [code| | | | |];
        try (destruct (code =? win32.ERROR_INVALID_PARAMETER));
        injection H as <- _ _; constructor.
Qed.

(** What the walk of [peek] gives under the contract: regions that
    follow one another from the page of the address, on page boundaries
    below the aligned end of the request, up to that end unless the
    system said that the address space ends before. *)
Lemma peek_map (os : OS) (Hos : region_contract os) (address nSize : Z)
    (s s' : ProcessState) (regions : list MemoryBasicInformation) :
  0 < nSize ->
  iter_memory_map os (Some address) (Some (address + nSize)) s
    = ((regions, None), s') ->
  let '(lo, hi) :=
    MemoryAddresses.align_address_range (Some address)
      (Some (address + nSize)) in
  contiguous_from lo regions /\
  Forall (fun m => BaseAddress m < hi /\ whole_pages m) regions /\
  (hi <= end_of lo regions \/
   last_call_failed s' win32.ERROR_INVALID_PARAMETER).
Proof.
  intros Hn H.
  pose proof (align_address_range_aligned (Some address)
                (Some (address + nSize))) as Hal.
  unfold iter_memory_map in H.
  destruct (MemoryAddresses.align_address_range (Some address)
              (Some (address + nSize))) as [lo hi].
  cbn [fst] in Hal.
  assert (Hprev : lo - 1 < lo) by lia.
  assert (Hfuel : (Z.to_nat (hi - lo) < S (Z.to_nat (hi - lo)))%nat) by lia.
  destruct (iter_memory_map_loop_tiles os Hos _ _ _ _ _ _ _ _ Hal
              Hprev Hfuel H) as (Hc & Hstop).
  split; [exact Hc|]. split; [|exact Hstop].
  eapply iter_memory_map_loop_pages; [exact Hos|exact Hal|exact H].
Qed.

Lemma align_address_range_pages (address nSize : Z) :
  0 < nSize ->
  let '(lo, hi) :=
    MemoryAddresses.align_address_range (Some address)
      (Some (address + nSize)) in
  lo <= address < lo + MemoryAddresses.pageSize /\
  address + nSize <= hi < address + nSize + MemoryAddresses.pageSize /\
  hi mod MemoryAddresses.pageSize = 0.
Proof.
  intros Hn. unfold MemoryAddresses.align_address_range.
  destruct (Z.ltb_spec (address + nSize) address) as [|_]; [lia|].
  unfold MemoryAddresses.align_address_to_page_start,
    MemoryAddresses.align_address_to_page_end, MemoryAddresses.pageSize.
  pose proof (Z.mod_pos_bound address 4096 eq_refl).
  pose proof (Z.mod_pos_bound (address + nSize) 4096 eq_refl).
  destruct (Z.eqb_spec (address + nSize)
              (address + nSize - (address + nSize) mod 4096)) as [E|E];
    cbn [negb].
  - split; [lia|]. split; [lia|]. lia.
  - split; [lia|]. split; [lia|].
    replace (address + nSize + 4096 - (address + nSize) mod 4096)
      with ((address + nSize - (address + nSize) mod 4096) + 1 * 4096) by lia.
    rewrite Z.mod_add by lia.
    rewrite Zminus_mod_idemp_r, Z.sub_diag. reflexivity.
Qed.

Lemma end_of_app (pre post : list MemoryBasicInformation) :
  forall c, end_of c (pre ++ post) = end_of (end_of c pre) post.
Proof. induction pre as [|m pre IH]; intros c; cbn; auto. Qed.

Lemma contiguous_from_end (regions : list MemoryBasicInformation) :
  forall c, contiguous_from c regions -> c <= end_of c regions.
Proof.
  induction regions as [|m rest IH]; intros c H; cbn in *; [lia|].
  destruct H as (Hb & Hs & Hc). specialize (IH _ Hc). lia.
Qed.

(** Two multiples of the page size that differ are a page apart. *)
Lemma pages_apart (a b : Z) :
  a mod MemoryAddresses.pageSize = 0 -> b mod MemoryAddresses.pageSize = 0 ->
  a < b -> a + MemoryAddresses.pageSize <= b.
Proof.
  unfold MemoryAddresses.pageSize. intros Ha Hb Hlt.
  apply Z.mod_divide in Ha, Hb; try lia.
  destruct Ha as (x & ->). destruct Hb as (y & ->). nia.
Qed.

(** The cut of [peek] is the longest readable prefix of the request. *)
Lemma readable_cut_longest (address nSize lo hi n : Z)
    (regions : list MemoryBasicInformation) :
  lo <= address < lo + MemoryAddresses.pageSize ->
  address + nSize <= hi < address + nSize + MemoryAddresses.pageSize ->
  hi mod MemoryAddresses.pageSize = 0 ->
  contiguous_from lo regions ->
  Forall (fun m => BaseAddress m < hi /\ whole_pages m) regions ->
  readable_cut address nSize regions n ->
  longest_readable_prefix address nSize lo regions n.
Proof.
  intros Hlo Hhi Hal Hc Hpages Hcut.
  rewrite Forall_forall in Hpages.
  destruct Hcut as [(Hall & ->)|(pre & m & post & -> & Hpre & Hm & ->)].
  - split; [lia|]. split; [|lia].
    intros a Ha Hend.
    destruct (contiguous_from_covers regions lo a Hc ltac:(lia))
      as (m & Hm & Hin).
    exists m. split; [exact Hm|]. split; [exact Hin|].
    rewrite Forall_forall in Hall. apply Hall, Hm.
  - destruct (contiguous_from_app pre (m :: post) lo Hc) as (Hc1 & Hc2).
    pose proof Hc2 as Hc2'. cbn in Hc2. destruct Hc2 as (Hb & Hsz & Hc3).
    destruct (Hpages m ltac:(apply elem_of_app; right; left))
      as (Hlt & Hmb & _ & Hms).
    pose proof (pages_apart _ _ Hmb Hal Hlt) as Hgap.
    assert (Hend : BaseAddress m + RegionSize m
                   <= end_of lo (pre ++ m :: post)).
    { rewrite end_of_app. cbn [end_of]. rewrite Hb.
      apply (contiguous_from_end post). rewrite <- Hb. exact Hc3. }
    split; [lia|]. split.
    + intros a Ha _.
      destruct (contiguous_from_covers pre lo a Hc1 ltac:(lia))
        as (m' & Hm' & Hin).
      exists m'. split; [apply elem_of_app; left; exact Hm'|].
      split; [exact Hin|]. rewrite Forall_forall in Hpre. apply Hpre, Hm'.
    + intros _. split; [lia|].
      exists m. split; [apply elem_of_app; right; left|].
      split; [exact Hm|]. unfold in_region.
      pose proof (contiguous_from_end pre lo Hc1) as Hge.
      assert (Hpage : MemoryAddresses.pageSize <= RegionSize m).
      { apply Z.mod_divide in Hms; [|unfold MemoryAddresses.pageSize; lia].
        destruct Hms as (x & Hx). unfold MemoryAddresses.pageSize in *. nia. }
      lia.
Qed.

(** C8.  [peek] never raises.  A request of no positive size reads
    nothing.  Otherwise, when the handle and the memory map are obtained,
    the read is cut at the base of the first region of the map that is
    not readable ([readable_cut]); nothing is read when the cut leaves no
    byte; else exactly one read of the cut size at [address] is made and
    its bytes are returned as they come, a failing read giving the empty
    result and a warning.  When the handle or the map cannot be obtained
    the result is empty, with a warning.  Under the region-query contract
    the map is the one of the request: its regions follow one another
    from the page of [address] and reach the aligned end of the request,
    unless the system answered "invalid parameter", the end of the
    address space, before; and the cut is the longest readable prefix:
    it is not longer than the request, every byte of it that the map
    describes lies in a readable region, and when it is shorter than the
    request the byte that follows it lies in a region that is not
    readable. *)
Theorem peek_readable_prefix (os : OS) (address nSize : Z) (s : ProcessState) :
  let '(lo, hi) :=
    MemoryAddresses.align_address_range (Some address) (Some (address + nSize)) in
  let '(res, s') := peek os address nSize s in
  (exists data, res = Ok data) /\
  (nSize <= 0 -> res = Ok [] /\ s' = s) /\
  (0 < nSize ->
   match get_handle os peek_access s with
   | (Raise _, s1) =>
       res = Ok [] /\ s' = emit (EvWarn "Error reading process") s1
   | (Ok h, s1) =>
       match iter_memory_map os (Some address) (Some (address + nSize)) s1 with
       | ((_, Some _), s2) =>
           res = Ok [] /\ s' = emit (EvWarn "Error reading process") s2
       | ((regions, None), s2) =>
           exists n,
             readable_cut address nSize regions n /\
             (n <= 0 -> res = Ok [] /\ s' = s2) /\
             (0 < n ->
              match os_ReadProcessMemory os (log s2) (value h) address n with
              | Success data =>
                  res = Ok data /\
                  s' = emit (EvReadProcessMemory (value h) address n
                               (Success data)) s2
              | Failure code =>
                  res = Ok [] /\
                  s' = emit (EvWarn "Error reading process")
                         (emit (EvReadProcessMemory (value h) address n
                                  (Failure code)) s2)
              end) /\
             (region_contract os ->
              lo <= address /\
              contiguous_from lo regions /\
              (hi <= end_of lo regions \/
               last_call_failed s2 win32.ERROR_INVALID_PARAMETER) /\
              longest_readable_prefix address nSize lo regions n)
       end
   end).
Proof.
  pose proof (align_address_range_pages address nSize) as Hb.
  pose proof (fun Hos s1 s2 regions =>
                peek_map os Hos address nSize s1 s2 regions) as Hmap.
  destruct (MemoryAddresses.align_address_range (Some address)
              (Some (address + nSize))) as [lo hi] eqn:Er.
  rewrite peek_cases.
  destruct (Z.ltb_spec 0 nSize) as [Hpos|Hneg].
  - destruct (get_handle os peek_access s) as [[h|e] s1].
    + destruct (iter_memory_map os (Some address) (Some (address + nSize)) s1)
        as [[regions [e|]] s2] eqn:Em.
      * split; [eauto|]. split; [lia|]. auto.
      * cbv zeta.
        pose proof (peek_truncate_cut address nSize regions) as Hcut.
        set (n := peek_truncate address nSize regions) in *.
        assert (Hcov : region_contract os ->
                  lo <= address /\
                  contiguous_from lo regions /\
                  (hi <= end_of lo regions \/
                   last_call_failed s2 win32.ERROR_INVALID_PARAMETER) /\
                  longest_readable_prefix address nSize lo regions n).
        { intros Hos.
          destruct (Hmap Hos s1 s2 regions Hpos Em) as (Hc & Hpages & Hreach).
          destruct (Hb Hpos) as (Hlo & Hhi & Hal).
          split; [lia|]. split; [exact Hc|]. split; [exact Hreach|].
          exact (readable_cut_longest address nSize lo hi n regions
                   Hlo Hhi Hal Hc Hpages Hcut). }
        destruct (Z.ltb_spec 0 n) as [Hn|Hn].
        -- destruct (os_ReadProcessMemory os (log s2) (value h) address n)
             as [data|code] eqn:Eread.
           ++ split; [eauto|]. split; [lia|]. intros _. exists n.
              split; [exact Hcut|]. split; [lia|]. split; [|exact Hcov].
              intros _. rewrite Eread. auto.
           ++ split; [eauto|]. split; [lia|]. intros _. exists n.
              split; [exact Hcut|]. split; [lia|]. split; [|exact Hcov].
              intros _. rewrite Eread. auto.
        -- split; [eauto|]. split; [lia|]. intros _. exists n.
           split; [exact Hcut|]. split; [auto|]. split; [lia|exact Hcov].
    + split; [eauto|]. split; [lia|]. auto.
  - split; [eauto|]. split; [auto|]. lia.
Qed.

Lemma Guarded_region_contract : region_contract Guarded.os.
Proof.
  intros l h a m H. cbn in H. injection H as <-. cbn.
  unfold MemoryAddresses.pageSize. repeat split; lia.
Defined.

(** A read that runs into a guard page: eight bytes are asked for four
    bytes before the guard page at 0x11000; the map of the request is
    the page of the address and the guard page, the read is cut to four
    bytes, which lie in the first page, and the fifth lies in the guard
    page. *)
Lemma peek_readable_prefix_witness :
  region_contract Guarded.os /\
  exists s' regions,
    peek Guarded.os 0x10FFC 8 Demo.process = (Ok (repeat Byte.x00 4), s') /\
    head (log s') = Some (EvReadProcessMemory 100 0x10FFC 4
                            (Success (repeat Byte.x00 4))) /\
    map BaseAddress regions = [0x10000; 0x11000] /\
    longest_readable_prefix 0x10FFC 8 0x10000 regions 4.
Proof.
  split; [exact Guarded_region_contract|].
  pose proof (peek_readable_prefix Guarded.os 0x10FFC 8 Demo.process) as H.
  destruct (MemoryAddresses.align_address_range (Some 0x10FFC)
              (Some (0x10FFC + 8))) as [lo hi] eqn:Er.
  vm_compute in Er. injection Er as <- <-.
  destruct (peek Guarded.os 0x10FFC 8 Demo.process) as [res s'] eqn:Ep.
  destruct H as (_ & _ & H). specialize (H ltac:(reflexivity)).
  destruct (get_handle Guarded.os peek_access Demo.process) as [[h|e] s1] eqn:Eh;
    [|vm_compute in Eh; discriminate].
  destruct (iter_memory_map Guarded.os (Some 0x10FFC) (Some (0x10FFC + 8)) s1)
    as [[regions [e|]] s2] eqn:Em.
  { vm_compute in Eh. injection Eh as <- <-. vm_compute in Em. discriminate. }
  destruct H as (n & Hcut & _ & _ & Hlong).
  destruct (Hlong Guarded_region_contract) as (_ & _ & _ & Hprefix).
  vm_compute in Eh. injection Eh as <- <-.
  vm_compute in Em. injection Em as <- <-.
  assert (Hn : n = 4).
  { destruct Hcut as [(Hall & _)|(pre & m & post & E & Hpre & Hm & ->)].
    - exfalso. apply Forall_cons in Hall. destruct Hall as (_ & Hall).
      apply Forall_cons in Hall. destruct Hall as (Hg & _).
      vm_compute in Hg. discriminate.
    - destruct pre as [|m1 pre].
      + injection E as <- _. vm_compute in Hm. discriminate.
      + injection E as <- E. destruct pre as [|m2 pre].
        * injection E as <- _. reflexivity.
        * exfalso. injection E as <- E. apply Forall_cons in Hpre.
          destruct Hpre as (_ & Hpre). apply Forall_cons in Hpre.
          destruct Hpre as (Hg & _). vm_compute in Hg. discriminate. }
  subst n.
  vm_compute in Ep. injection Ep as <- <-.
  eexists _, _. split; [reflexivity|]. split; [reflexivity|].
  split; [|exact Hprefix]. reflexivity.
Defined.
(** ** What a method can do to the log *)

Section Emits.

Variable P : Event -> Prop.

Lemma emits_pure {A} (c : M A) :
  (forall s, log (snd (c s)) = log s) -> emits P c.
Proof. intros H s. exists []. split; [apply H|constructor]. Qed.

Lemma emits_ret {A} (a : A) : emits P (ret a).
Proof. apply emits_pure. reflexivity. Qed.

Lemma emits_raise {A} (e : Exn) : emits P (raise e : M A).
Proof. apply emits_pure. reflexivity. Qed.

Lemma emits_bind {A B} (c : M A) (k : A -> M B) :
  emits P c -> (forall a, emits P (k a)) -> emits P (bind c k).
Proof.
  intros Hc Hk s. unfold bind.
  destruct (Hc s) as (evs1 & H1 & F1).
  destruct (c s) as [[a|e] s1]; cbn [snd] in *.
  - destruct (Hk a s1) as (evs2 & H2 & F2).
    exists (evs2 ++ evs1). rewrite H2, H1, app_assoc.
    split; [reflexivity|]. apply Forall_app. auto.
  - exists evs1. auto.
Qed.

Lemma emits_try_except {A} (body : M A) (handler : Exn -> M A) :
  emits P body -> (forall e, emits P (handler e)) ->
  emits P (try_except body handler).
Proof.
  intros Hc Hk s. unfold try_except.
  destruct (Hc s) as (evs1 & H1 & F1).
  destruct (body s) as [[a|e] s1]; cbn [snd] in *.
  - exists evs1. auto.
  - destruct (Hk e s1) as (evs2 & H2 & F2).
    exists (evs2 ++ evs1). rewrite H2, H1, app_assoc.
    split; [reflexivity|]. apply Forall_app. auto.
Qed.

Lemma emits_try_finally {A} (body : M A) (cleanup : M unit) :
  emits P body -> emits P cleanup -> emits P (try_finally body cleanup).
Proof.
  intros Hc Hk s. unfold try_finally.
  destruct (Hc s) as (evs1 & H1 & F1).
  destruct (body s) as [r s1]; cbn [snd] in *.
  destruct (Hk s1) as (evs2 & H2 & F2).
  exists (evs2 ++ evs1).
  destruct (cleanup s1) as [[u|e] s2]; cbn [snd] in *;
    rewrite H2, H1, app_assoc; (split; [reflexivity|]); apply Forall_app; auto.
Qed.

Lemma emits_os_call {A} (answer : list Event -> OsResult A)
    (ev : OsResult A -> Event) :
  (forall r, P (ev r)) -> emits P (os_call answer ev).
Proof.
  intros H s. unfold os_call.
  exists [ev (answer (log s))].
  destruct (answer (log s)); cbn; (split; [reflexivity|]);
    constructor; auto.
Qed.

Lemma emits_py_call {A} (answer : list Event -> Result A)
    (ev : Result A -> Event) :
  (forall r, P (ev r)) -> emits P (py_call answer ev).
Proof.
  intros H s. unfold py_call. exists [ev (answer (log s))].
  split; [reflexivity|]. constructor; auto.
Qed.

Lemma emits_warn (msg : string) : P (EvWarn msg) -> emits P (warn msg).
Proof.
  intros H s. exists [EvWarn msg]. split; [reflexivity|]. constructor; auto.
Qed.

Lemma emits_for_each {A} (body : A -> M unit) (l : list A) :
  (forall x, emits P (body x)) -> emits P (for_each body l).
Proof.
  intros H. induction l as [|x l IH]; cbn [for_each].
  - apply emits_ret.
  - apply emits_bind; [apply H|intros _; exact IH].
Qed.

End Emits.

(** Break a method body down to its calls. *)
Ltac emits_step :=
  first
    [ apply emits_ret
    | apply emits_raise
    | apply emits_warn; reflexivity
    | apply emits_os_call; intros ?; reflexivity
    | apply emits_py_call; intros ?; reflexivity
    | apply emits_pure; reflexivity
    | solve [auto]
    | apply emits_bind; [|intros ?]
    | apply emits_try_except; [|intros ?]
    | apply emits_try_finally
    | match goal with
      | |- emits _ (if ?b then _ else _) => destruct b
      | |- emits _ (match ?x with _ => _ end) => destruct x
      | |- emits _ (let _ := _ in _) => cbv zeta
      end ].

Ltac emits_go := repeat emits_step.

(** The methods of the handle manager open and close handles, nothing
    else. *)
Lemma get_handle_emits (P : Event -> Prop) (os : OS) (R : Z) :
  (forall a p r, P (EvOpenProcess a p r)) ->
  (forall h r, P (EvCloseHandle h r)) ->
  (forall msg, P (EvWarn msg)) ->
  emits P (get_handle os R).
Proof.
  intros Ho Hc Hw.
  assert (Hopen : forall A, emits P (open_handle os A)).
  { intros A. unfold open_handle, close_handle, Handle_close, get_pid,
      get_hProcess, set_hProcess.
    apply emits_bind; [apply emits_pure; reflexivity|intros pid].
    apply emits_bind; [apply emits_os_call; intros r; apply Ho|intros v].
    apply emits_bind.
    - apply emits_try_except.
      + apply emits_try_finally; [|apply emits_pure; reflexivity].
        apply emits_bind; [apply emits_pure; reflexivity|intros [h0|]].
        * destruct (value h0 =? win32.INVALID_HANDLE_VALUE);
            [apply emits_ret|apply emits_os_call; intros r; apply Hc].
        * apply emits_ret.
      + intros e. apply emits_warn, Hw.
    - intros _. apply emits_bind; [apply emits_pure; reflexivity|intros _].
      apply emits_ret. }
  unfold get_handle, get_hProcess.
  apply emits_bind; [apply emits_pure; reflexivity|intros [h|]]; [|apply Hopen].
  destruct (value h =? win32.INVALID_HANDLE_VALUE); [apply Hopen|].
  destruct (negb _); [apply Hopen|apply emits_ret].
Qed.

Lemma get_handle_no_mutation (os : OS) (R : Z) :
  emits no_mutation (get_handle os R).
Proof. apply get_handle_emits; reflexivity. Qed.

Lemma get_handle_no_thread_control (os : OS) (R : Z) :
  emits no_thread_control (get_handle os R).
Proof. apply get_handle_emits; reflexivity. Qed.

(** Finding the word size of the target opens and closes handles and
    asks whether the target runs under WOW64, nothing else. *)
Lemma get_bits_emits (P : Event -> Prop) (os : OS) :
  (forall a p r, P (EvOpenProcess a p r)) ->
  (forall h r, P (EvCloseHandle h r)) ->
  (forall msg, P (EvWarn msg)) ->
  (forall h r, P (EvIsWow64Process h r)) ->
  emits P (get_bits os).
Proof.
  intros Ho Hc Hw Hq.
  pose proof (get_handle_emits P os) as Hh.
  assert (His : emits P (is_wow64 os)).
  { unfold is_wow64, get_wow64, set_wow64, except_WindowsError, IsWow64Process.
    apply emits_bind; [apply emits_pure; reflexivity|intros [w|]];
      [apply emits_ret|].
    apply emits_bind;
      [|intros w; apply emits_bind;
                    [apply emits_pure; reflexivity|intros _; apply emits_ret]].
    destruct (on_32_bit_system os); [apply emits_ret|].
    apply emits_try_except.
    - cbv zeta. apply emits_bind; [apply Hh; assumption|intros h].
      apply emits_try_except; [apply emits_py_call; intros r; apply Hq|].
      intros e. destruct e; first [apply emits_ret|apply emits_raise].
    - intros e. destruct e; first [apply emits_ret|apply emits_raise]. }
  unfold get_bits. destruct (on_32_bit_system os); [apply emits_ret|].
  apply emits_bind; [exact His|intros w]. destruct w; apply emits_ret.
Qed.

Lemma get_bits_no_mutation (os : OS) : emits no_mutation (get_bits os).
Proof. apply get_bits_emits; reflexivity. Qed.

Lemma get_bits_no_thread_control (os : OS) :
  emits no_thread_control (get_bits os).
Proof. apply get_bits_emits; reflexivity. Qed.

Lemma HexDump_emits (P : Event -> Prop) (os : OS) (address bits : Z) :
  emits P (HexDump os address bits).
Proof. apply emits_pure. reflexivity. Qed.

(** The memory operations never touch the threads. *)
Lemma mquery_no_thread_control (os : OS) (a : Z) :
  emits no_thread_control (mquery os a).
Proof.
  pose proof (get_handle_no_thread_control os).
  unfold mquery, VirtualQueryEx. emits_go.
Qed.

Lemma mprotect_no_thread_control (os : OS) (a n p : Z) :
  emits no_thread_control (mprotect os a n p).
Proof.
  pose proof (get_handle_no_thread_control os).
  unfold mprotect, VirtualProtectEx. emits_go.
Qed.

Lemma free_no_thread_control (os : OS) (a : Z) :
  emits no_thread_control (free os a).
Proof.
  pose proof (get_handle_no_thread_control os).
  unfold free, VirtualFreeEx. emits_go.
Qed.

Lemma poke_no_thread_control (os : OS) (a : Z) (b : option (list Byte.byte)) :
  emits no_thread_control (poke os a b).
Proof.
  pose proof (get_handle_no_thread_control os).
  pose proof (get_bits_no_thread_control os).
  pose proof (mquery_no_thread_control os).
  pose proof (mprotect_no_thread_control os).
  unfold poke, py_len, WriteProcessMemory. emits_go.
Qed.

Lemma write_no_thread_control (os : OS) (a : Z) (b : option (list Byte.byte)) :
  emits no_thread_control (write os a b).
Proof.
  pose proof (poke_no_thread_control os).
  unfold write, py_len, raise_WinError. emits_go.
Qed.

Lemma restore_mbi_no_thread_control (os : OS) (h : ProcessHandle)
    (new_mbi old_mbi : MemoryBasicInformation) (bM bE : bool) :
  emits no_thread_control (__restore_mbi os h new_mbi old_mbi bM bE).
Proof.
  pose proof (free_no_thread_control os) as Hfree.
  pose proof (get_bits_no_thread_control os) as Hbits.
  pose proof (HexDump_emits no_thread_control os) as Hhex.
  pose proof (poke_no_thread_control os) as Hpoke.
  pose proof (write_no_thread_control os) as Hwrite.
  assert (Hstate : forall n, emits no_thread_control (restore_state os h n old_mbi)).
  { intros n. unfold restore_state, restore_alloc, VirtualAllocEx, VirtualFreeEx.
    emits_go. }
  assert (Hprot : forall n, emits no_thread_control (restore_protect os h n old_mbi)).
  { intros n. unfold restore_protect, VirtualProtectEx. emits_go. }
  assert (Hdata : forall n, emits no_thread_control (restore_data os n old_mbi bM)).
  { intros n. unfold restore_data. emits_go. }
  assert (Herr : forall n e,
            emits no_thread_control (restore_on_error os bE n old_mbi e)).
  { intros n e. unfold restore_on_error. emits_go. }
  intros s. unfold __restore_mbi.
  destruct (Hstate new_mbi s) as (evs1 & H1 & F1).
  destruct (restore_state os h new_mbi old_mbi s) as [[new1|e] s1]; cbn [snd] in *.
  - destruct (Hprot new1 s1) as (evs2 & H2 & F2).
    destruct (restore_protect os h new1 old_mbi s1) as [[new2|e] s2]; cbn [snd] in *.
    + destruct (Hdata new2 s2) as (evs3 & H3 & F3).
      destruct (restore_data os new2 old_mbi bM s2) as [[new3|e] s3]; cbn [snd] in *.
      * exists (evs3 ++ evs2 ++ evs1). rewrite H3, H2, H1, !app_assoc.
        split; [reflexivity|]. rewrite !Forall_app. auto.
      * destruct (Herr new2 e s3) as (evs4 & H4 & F4).
        exists (evs4 ++ evs3 ++ evs2 ++ evs1). rewrite H4, H3, H2, H1, !app_assoc.
        split; [reflexivity|]. rewrite !Forall_app. auto.
    + destruct (Herr new1 e s2) as (evs4 & H4 & F4).
      exists (evs4 ++ evs2 ++ evs1). rewrite H4, H2, H1, !app_assoc.
      split; [reflexivity|]. rewrite !Forall_app. auto.
  - destruct (Herr new_mbi e s1) as (evs4 & H4 & F4).
    exists (evs4 ++ evs1). rewrite H4, H1, !app_assoc.
    split; [reflexivity|]. rewrite !Forall_app. auto.
Qed.

Lemma restore_pages_no_thread_control (os : OS) (h : ProcessHandle)
    (bM bE : bool) (end_ : Z) (old_mbi : MemoryBasicInformation) :
  forall fuel address new_mbi,
    emits no_thread_control
      (restore_pages os fuel h address end_ new_mbi old_mbi bM bE).
Proof.
  induction fuel as [|fuel IH]; intros address new_mbi; cbn [restore_pages].
  - apply emits_ret.
  - destruct (address <? end_); [|apply emits_ret].
    apply emits_bind; [apply restore_mbi_no_thread_control|intros n; apply IH].
Qed.

Lemma restore_region_no_thread_control (os : OS) (h : ProcessHandle)
    (bM bE : bool) (elem : PyValue) :
  emits no_thread_control (restore_region os h bM bE elem).
Proof.
  pose proof (mquery_no_thread_control os).
  pose proof (restore_mbi_no_thread_control os).
  pose proof (restore_pages_no_thread_control os).
  unfold restore_region. emits_go.
Qed.

(** Suspending and resuming never touch the memory. *)
Lemma all_threads_no_mutation (op undo : Z -> M Z) :
  (forall t, emits no_mutation (op t)) ->
  (forall t, emits no_mutation (undo t)) ->
  forall todo done, emits no_mutation (all_threads op undo todo done).
Proof.
  intros Hop Hundo.
  assert (Hq : forall l, emits no_mutation (undo_quietly undo l)).
  { induction l as [|t l IH]; cbn [undo_quietly]; emits_go. }
  induction todo as [|t todo IH]; intros done_; cbn [all_threads]; emits_go.
Qed.

Lemma suspend_no_mutation (os : OS) : emits no_mutation (suspend os).
Proof.
  pose proof (all_threads_no_mutation (Thread_suspend os) (Thread_resume os)) as H.
  unfold suspend, scan_threads, get_pid, get_threadIds, set_threadIds.
  emits_go. apply H; intros t; unfold Thread_suspend, Thread_resume; emits_go.
Qed.

Lemma resume_no_mutation (os : OS) : emits no_mutation (resume os).
Proof.
  pose proof (all_threads_no_mutation (Thread_resume os) (Thread_suspend os)) as H.
  unfold resume, scan_threads, get_pid, get_threadIds, set_threadIds.
  emits_go; apply H; intros t; unfold Thread_suspend, Thread_resume; emits_go.
Qed.

(** ** Restoring one region *)

Lemma set_State_same (m : MemoryBasicInformation) (st : Z) :
  State m = st -> set_State m st = m.
Proof. intros <-. destruct m. reflexivity. Qed.

(** A misplaced allocation never ends well. *)
Lemma misplaced_raises (os : OS) (address : Z) (old_mbi : MemoryBasicInformation)
    (s : ProcessState) :
  is_Ok (fst (misplaced os address old_mbi s)) = false.
Proof.
  unfold misplaced, bind, raise.
  destruct (free os address s) as [[u|e] s1]; [|reflexivity].
  destruct (get_bits os s1) as [[bits|e] s2]; [|reflexivity].
  destruct (HexDump os (BaseAddress old_mbi) bits s2) as [[txt|e] s3];
    reflexivity.
Qed.

Lemma restore_alloc_outcome (os : OS) (h : ProcessHandle)
    (new_mbi old_mbi : MemoryBasicInformation) (flAllocationType : Z)
    (s : ProcessState) :
  (do new1 <- restore_alloc os h new_mbi old_mbi flAllocationType ;
   ret (set_State new1 (State old_mbi))) s
  = alloc_outcome os h new_mbi old_mbi flAllocationType s.
Proof.
  unfold restore_alloc, alloc_outcome. unfold bind at 1 2.
  unfold VirtualAllocEx, os_call.
  destruct (os_VirtualAllocEx os (log s) (value h) (BaseAddress old_mbi)
              (RegionSize old_mbi) flAllocationType (Protect old_mbi))
    as [address|code]; [|reflexivity].
  cbv zeta. destruct (address =? BaseAddress old_mbi); cbn [negb]; [reflexivity|].
  fold (misplaced os address old_mbi).
  pose proof (misplaced_raises os address old_mbi
                (emit (EvVirtualAllocEx (value h) (BaseAddress old_mbi)
                         (RegionSize old_mbi) flAllocationType (Protect old_mbi)
                         (Success address)) s)) as Hr.
  destruct (misplaced os address old_mbi _) as [[a|e] s2];
    [discriminate|reflexivity].
Qed.

Lemma restore_free_outcome (os : OS) (h : ProcessHandle)
    (new_mbi old_mbi : MemoryBasicInformation) (dwFreeType : Z)
    (s : ProcessState) :
  (do new1 <- (VirtualFreeEx os h (BaseAddress old_mbi) (RegionSize old_mbi)
                 dwFreeType ;; ret new_mbi) ;
   ret (set_State new1 (State old_mbi))) s
  = free_outcome os h new_mbi old_mbi dwFreeType s.
Proof.
  unfold free_outcome, bind, VirtualFreeEx, os_call, ret.
  destruct (os_VirtualFreeEx os (log s) (value h) (BaseAddress old_mbi)
              (RegionSize old_mbi) dwFreeType); reflexivity.
Qed.

(** One call of [__restore_mbi] follows the transition table for the
    states of the two descriptors it is handed: current free and
    captured reserved, reserve at the captured address with the captured
    protection; current free and captured committed, reserve and commit
    there; current reserved and captured committed, commit; current
    reserved and captured free, release; current committed and captured
    reserved, decommit; current committed and captured free, decommit and
    release; equal states, no call.  The protection stage reprotects to
    the captured value exactly when the captured region is committed and
    its protection differs from the one the current descriptor has by
    then. *)
Lemma restore_state_transition_table (os : OS) (h : ProcessHandle)
    (new_mbi old_mbi : MemoryBasicInformation) (s : ProcessState) :
  (State new_mbi = State old_mbi ->
   restore_state os h new_mbi old_mbi s = (Ok new_mbi, s)) /\
  (MBI.is_free new_mbi = true -> MBI.is_reserved old_mbi = true ->
   restore_state os h new_mbi old_mbi s
   = alloc_outcome os h new_mbi old_mbi win32.MEM_RESERVE s) /\
  (MBI.is_free new_mbi = true -> MBI.is_commited old_mbi = true ->
   restore_state os h new_mbi old_mbi s
   = alloc_outcome os h new_mbi old_mbi
       (Z.lor win32.MEM_RESERVE win32.MEM_COMMIT) s) /\
  (MBI.is_reserved new_mbi = true -> MBI.is_commited old_mbi = true ->
   restore_state os h new_mbi old_mbi s
   = alloc_outcome os h new_mbi old_mbi win32.MEM_COMMIT s) /\
  (MBI.is_reserved new_mbi = true -> MBI.is_free old_mbi = true ->
   restore_state os h new_mbi old_mbi s
   = free_outcome os h new_mbi old_mbi win32.MEM_RELEASE s) /\
  (MBI.is_commited new_mbi = true -> MBI.is_reserved old_mbi = true ->
   restore_state os h new_mbi old_mbi s
   = free_outcome os h new_mbi old_mbi win32.MEM_DECOMMIT s) /\
  (MBI.is_commited new_mbi = true -> MBI.is_free old_mbi = true ->
   restore_state os h new_mbi old_mbi s
   = free_outcome os h new_mbi old_mbi
       (Z.lor win32.MEM_DECOMMIT win32.MEM_RELEASE) s) /\
  (forall new1 s1,
     restore_protect os h new1 old_mbi s1
     = if MBI.is_commited old_mbi && negb (Protect old_mbi =? Protect new1)
       then reprotect_outcome os h new1 old_mbi s1
       else (Ok new1, s1)).
Proof.
  unfold MBI.is_free, MBI.is_reserved, MBI.is_commited.
  split.
  { intros E. unfold restore_state, bind, ret.
    rewrite (proj2 (Z.eqb_eq _ _) E). cbn [negb].
    rewrite set_State_same by exact E. reflexivity. }
  assert (Hne : forall a b, State new_mbi = a -> State old_mbi = b -> a <> b ->
            negb (State new_mbi =? State old_mbi) = true).
  { intros a b -> -> Hab. apply negb_true_iff, Z.eqb_neq, Hab. }
  repeat split.
  - intros Hn Ho. apply Z.eqb_eq in Hn, Ho. unfold restore_state.
    rewrite <- restore_alloc_outcome. unfold bind at 1 3.
    rewrite (Hne _ _ Hn Ho) by discriminate.
    unfold MBI.is_free, MBI.is_reserved. rewrite Hn, Ho. reflexivity.
  - intros Hn Ho. apply Z.eqb_eq in Hn, Ho. unfold restore_state.
    rewrite <- restore_alloc_outcome. unfold bind at 1 3.
    rewrite (Hne _ _ Hn Ho) by discriminate.
    unfold MBI.is_free, MBI.is_reserved. rewrite Hn, Ho. reflexivity.
  - intros Hn Ho. apply Z.eqb_eq in Hn, Ho. unfold restore_state.
    rewrite <- restore_alloc_outcome. unfold bind at 1 3.
    rewrite (Hne _ _ Hn Ho) by discriminate.
    unfold MBI.is_free, MBI.is_reserved, MBI.is_commited. rewrite Hn, Ho.
    reflexivity.
  - intros Hn Ho. apply Z.eqb_eq in Hn, Ho. unfold restore_state.
    rewrite <- restore_free_outcome. unfold bind at 1 4.
    rewrite (Hne _ _ Hn Ho) by discriminate.
    unfold MBI.is_free, MBI.is_reserved, MBI.is_commited. rewrite Hn, Ho.
    reflexivity.
  - intros Hn Ho. apply Z.eqb_eq in Hn, Ho. unfold restore_state.
    rewrite <- restore_free_outcome. unfold bind at 1 4.
    rewrite (Hne _ _ Hn Ho) by discriminate.
    unfold MBI.is_free, MBI.is_reserved, MBI.is_commited. rewrite Hn, Ho.
    reflexivity.
  - intros Hn Ho. apply Z.eqb_eq in Hn, Ho. unfold restore_state.
    rewrite <- restore_free_outcome. unfold bind at 1 4.
    rewrite (Hne _ _ Hn Ho) by discriminate.
    unfold MBI.is_free, MBI.is_reserved, MBI.is_commited. rewrite Hn, Ho.
    reflexivity.
  - intros new1 s1. unfold restore_protect, reprotect_outcome.
    destruct (_ && _); [|reflexivity].
    unfold bind, VirtualProtectEx, os_call, ret.
    destruct (os_VirtualProtectEx os (log s1) (value h) (BaseAddress old_mbi)
                (RegionSize old_mbi) (Protect old_mbi)); reflexivity.
Qed.

(** The table at work: a free page captured as reserved. *)
Example restore_state_reserves :
  restore_state Demo.os Misplaced.handle Regions.free_page
    Regions.reserved_page Demo.process
  = alloc_outcome Demo.os Misplaced.handle Regions.free_page
      Regions.reserved_page win32.MEM_RESERVE Demo.process.
Proof.
  destruct (restore_state_transition_table Demo.os Misplaced.handle
              Regions.free_page Regions.reserved_page Demo.process)
    as (_ & Hrow & _).
  apply Hrow; reflexivity.
Qed.

(** A reservation that the system places one page above the captured
    address is freed, and the call raises, in strict mode and also with
    [bSkipOnError]: the message of the error cannot be built. *)
Example restore_mbi_misplaced_raises :
  exists s1 s2,
    __restore_mbi Misplaced.os Misplaced.handle Regions.free_page
      Regions.reserved_page true false Misplaced.process
    = (Raise NotImplementedError, s1) /\
    __restore_mbi Misplaced.os Misplaced.handle Regions.free_page
      Regions.reserved_page true true Misplaced.process
    = (Raise NotImplementedError, s2) /\
    List.filter is_mutation (rev (log s2))
    = [EvVirtualAllocEx 100 0x10000 0x1000 win32.MEM_RESERVE
         win32.PAGE_READWRITE (Success 0x11000);
       EvVirtualFreeEx 100 0x11000 0 win32.MEM_RELEASE (Success tt)].
Proof. eexists. eexists. repeat split; vm_compute; reflexivity. Qed.

(** C1 fails on the code where a captured region is restored page by
    page.  Two pages were captured while they were reserved; they now
    lie in a committed region of three pages, so the current state of
    both differs from the captured one.  The restore decommits the page
    at 0x10000 and makes no call for the page at 0x11000: the first call
    of [__restore_mbi] writes the captured state into the descriptor of
    the current region, which serves all pages, and the second call
    finds the states equal. *)
Theorem restore_memory_snapshot_restores_first_page_only :
  MBI.is_reserved Wide.reserved_pages = true /\
  BaseAddress Wide.reserved_pages = 0x10000 /\
  RegionSize Wide.reserved_pages = 2 * MemoryAddresses.pageSize /\
  (forall l h a,
     exists m, os_VirtualQueryEx Wide.os l h a = Success m /\
               MBI.is_commited m = true /\
               in_region a m) /\
  exists s',
    restore_memory_snapshot Wide.os (PyList [PyMBI Wide.reserved_pages])
      true false Demo.process = (Ok tt, s') /\
    List.filter is_mutation (rev (log s'))
    = [EvVirtualFreeEx 100 0x10000 0x1000 win32.MEM_DECOMMIT (Success tt)].
Proof.
  split; [reflexivity|]. split; [reflexivity|]. split; [reflexivity|].
  split.
  - intros l h a. exists (Wide.region a). split; [reflexivity|].
    split; [reflexivity|].
    unfold in_region, Wide.region. cbn [BaseAddress RegionSize].
    unfold MemoryAddresses.align_address_to_page_start, MemoryAddresses.pageSize.
    pose proof (Z.mod_pos_bound a 0x1000 ltac:(lia)). lia.
  - eexists. split; vm_compute; reflexivity.
Qed.

(** C2 fails on the code.  A committed private page is not backed by a
    mapped file, and it carries captured content; restored with the
    default [bSkipMappedFiles], its bytes are not written: the content
    stage tests [Type != 0], which holds for private memory too, and does
    nothing to the target. *)
Theorem restore_data_skips_private_content (os : OS)
    (new_mbi : MemoryBasicInformation) (s : ProcessState) :
  MBI.has_content Regions.private_page = true /\
  MBI.is_private Regions.private_page = true /\
  MBI.is_mapped Regions.private_page = false /\
  MBI.is_image Regions.private_page = false /\
  restore_data os new_mbi Regions.private_page true s
  = (Ok (set_content new_mbi (content Regions.private_page)), s).
Proof. repeat split. Qed.

(** The same through the entry point: restoring a snapshot made of that
    page, with the default arguments, succeeds without a single write. *)
Lemma restore_memory_snapshot_skips_private_content :
  exists s',
    restore_memory_snapshot Demo.os (PyList [PyMBI Regions.private_page])
      true false Demo.process = (Ok tt, s') /\
    List.filter is_write (log s') = [].
Proof. eexists. split; vm_compute; reflexivity. Qed.

(** With [bSkipMappedFiles] off the bytes of the page are written. *)
Lemma restore_memory_snapshot_writes_when_asked :
  exists s',
    restore_memory_snapshot Demo.os (PyList [PyMBI Regions.private_page])
      false false Demo.process = (Ok tt, s') /\
    List.filter is_write (log s')
    = [EvWriteProcessMemory 100 0x10000 [Byte.x41; Byte.x42] (Success 2)].
Proof. eexists. split; vm_compute; reflexivity. Qed.

(** ** Restoring a snapshot *)

Lemma starts_os_call {A} (answer : list Event -> OsResult A)
    (ev : OsResult A -> Event) :
  (forall r, is_thread_control (ev r) = true) ->
  starts_with_thread_control (os_call answer ev).
Proof.
  intros H s. unfold os_call. exists [], (ev (answer (log s))).
  destruct (answer (log s)); cbn; auto.
Qed.

Lemma starts_bind {A B} (c : M A) (k : A -> M B) :
  starts_with_thread_control c -> (forall a, emits no_mutation (k a)) ->
  starts_with_thread_control (bind c k).
Proof.
  intros Hc Hk s. unfold bind.
  destruct (Hc s) as (more & first & H1 & Hf & F1).
  destruct (c s) as [[a|e] s1]; cbn [snd] in *.
  - destruct (Hk a s1) as (evs2 & H2 & F2).
    exists (evs2 ++ more), first. rewrite H2, H1, app_assoc.
    split; [reflexivity|]. split; [exact Hf|]. apply Forall_app. auto.
  - exists more, first. auto.
Qed.

Lemma starts_try_except {A} (body : M A) (handler : Exn -> M A) :
  starts_with_thread_control body -> (forall e, emits no_mutation (handler e)) ->
  starts_with_thread_control (try_except body handler).
Proof.
  intros Hc Hk s. unfold try_except.
  destruct (Hc s) as (more & first & H1 & Hf & F1).
  destruct (body s) as [[a|e] s1]; cbn [snd] in *.
  - exists more, first. auto.
  - destruct (Hk e s1) as (evs2 & H2 & F2).
    exists (evs2 ++ more), first. rewrite H2, H1, app_assoc.
    split; [reflexivity|]. split; [exact Hf|]. apply Forall_app. auto.
Qed.

Lemma Thread_ops_no_mutation (os : OS) :
  (forall t, emits no_mutation (Thread_suspend os t)) /\
  (forall t, emits no_mutation (Thread_resume os t)).
Proof. split; intros t; unfold Thread_suspend, Thread_resume; emits_go. Qed.

(** [resume] begins with a thread control call, whatever the state. *)
Lemma resume_starts (os : OS) : starts_with_thread_control (resume os).
Proof.
  destruct (Thread_ops_no_mutation os) as (Hs & Hr).
  pose proof (all_threads_no_mutation (Thread_resume os) (Thread_suspend os) Hr Hs)
    as Hall.
  intros s. unfold resume, get_threadIds. unfold bind at 1.
  destruct (threadIds s) as [|t rest] eqn:Et.
  - cbn [length Z.of_nat Z.eqb].
    apply starts_bind.
    + unfold scan_threads, get_pid. unfold bind at 1.
      intros s0. cbn beta iota.
      apply (starts_bind (os_call _ _) _); [apply starts_os_call; reflexivity|].
      intros l. unfold set_threadIds. apply emits_pure. reflexivity.
    + intros _. apply emits_bind; [apply emits_pure; reflexivity|].
      intros tids. apply Hall.
  - replace (Z.of_nat (length (t :: rest)) =? 0) with false
      by (symmetry; apply Z.eqb_neq; cbn [length]; lia).
    unfold bind at 1, ret at 1. unfold bind at 1. rewrite Et.
    cbn [all_threads].
    apply starts_bind.
    + apply starts_try_except.
      * apply starts_bind; [apply starts_os_call; reflexivity|].
        intros n. apply emits_ret.
      * intros e. apply emits_bind; [|intros _; apply emits_raise].
        cbn [undo_quietly]. apply emits_ret.
    + intros _. apply Hall.
Qed.

Lemma all_threads_keeps_threadIds (os : OS) (op undo : Z -> M Z) :
  (forall t s, threadIds (snd (op t s)) = threadIds s) ->
  (forall t s, threadIds (snd (undo t s)) = threadIds s) ->
  forall todo done s,
    threadIds (snd (all_threads op undo todo done s)) = threadIds s.
Proof.
  intros Hop Hundo.
  assert (Hq : forall l s, threadIds (snd (undo_quietly undo l s)) = threadIds s).
  { induction l as [|t l IH]; intros s; cbn [undo_quietly]; [reflexivity|].
    unfold bind, try_except, ret. specialize (Hundo t s).
    destruct (undo t s) as [[n|e] s1]; cbn [snd] in *;
      rewrite <- Hundo; apply IH. }
  induction todo as [|t todo IH]; intros done_ s; cbn [all_threads];
    [reflexivity|].
  unfold bind, try_except, ret, raise. specialize (Hop t s).
  destruct (op t s) as [[n|e] s1]; cbn [snd] in *.
  - rewrite <- Hop. apply IH.
  - specialize (Hq done_ s1).
    destruct (undo_quietly undo done_ s1) as [[u|e'] s2]; cbn [snd] in *;
      congruence.
Qed.

(** When the suspending loop goes through, every thread it was given has
    been suspended. *)
Lemma all_threads_suspended (os : OS) :
  forall todo done s s',
    all_threads (Thread_suspend os) (Thread_resume os) todo done s = (Ok tt, s') ->
    exists evs,
      log s' = evs ++ log s /\
      Forall (fun t => exists n, In (EvSuspendThread t (Success n)) evs) todo.
Proof.
  induction todo as [|t todo IH]; intros done_ s s' H; cbn [all_threads] in H.
  - injection H as <-. exists []. split; [reflexivity|constructor].
  - unfold bind at 1, try_except, Thread_suspend, os_call in H.
    unfold bind at 1 in H.
    destruct (os_SuspendThread os (log s) t) as [n|code] eqn:En.
    + cbn in H. destruct (IH _ _ _ H) as (evs & Hl & Hall).
      exists (evs ++ [EvSuspendThread t (Success n)]).
      split; [rewrite Hl, <- app_assoc; reflexivity|].
      constructor.
      * exists n. apply in_or_app. right. left. reflexivity.
      * eapply Forall_impl; [exact Hall|].
        intros t' (n' & Hin). exists n'. apply in_or_app. left. exact Hin.
    + exfalso. cbn in H. unfold bind, raise in H.
      destruct (undo_quietly (Thread_resume os) done_ _) as [[u|e] s2];
        discriminate.
Qed.

Lemma suspend_suspended (os : OS) (s s' : ProcessState) :
  suspend os s = (Ok tt, s') ->
  exists evs,
    log s' = evs ++ log s /\
    Forall (fun t => exists n, In (EvSuspendThread t (Success n)) evs)
      (threadIds s').
Proof.
  unfold suspend, scan_threads, get_pid, get_threadIds, set_threadIds, os_call.
  unfold bind, ret.
  destruct (os_scan_threads os (log s) (dwProcessId s)) as [tids|code];
    [|discriminate].
  cbn. intros H.
  pose proof (all_threads_keeps_threadIds os (Thread_suspend os)
                (Thread_resume os)) as Hkeep.
  match type of H with all_threads _ _ _ _ ?s1 = _ =>
    specialize (Hkeep (fun t s0 => ltac:(unfold Thread_suspend, os_call;
                          destruct (os_SuspendThread os (log s0) t); reflexivity))
                  (fun t s0 => ltac:(unfold Thread_resume, os_call;
                          destruct (os_ResumeThread os (log s0) t); reflexivity))
                  tids [] s1)
  end.
  rewrite H in Hkeep. cbn in Hkeep.
  destruct (all_threads_suspended os _ _ _ _ H) as (evs & Hl & Hall).
  exists (evs ++ [EvScanThreads (dwProcessId s) (Success tids)]).
  split; [rewrite Hl, <- app_assoc; reflexivity|].
  rewrite Hkeep. eapply Forall_impl; [exact Hall|].
  intros t' (n' & Hin). exists n'. apply in_or_app. left. exact Hin.
Qed.

Lemma restore_prologue_no_mutation (os : OS) :
  emits no_mutation (restore_prologue os).
Proof.
  pose proof (get_handle_no_mutation os).
  pose proof (suspend_no_mutation os).
  unfold restore_prologue. emits_go.
Qed.

Lemma restore_memory_snapshot_unfold (os : OS) (snapshot : PyValue)
    (bM bE : bool) (s : ProcessState) :
  restore_memory_snapshot os snapshot bM bE s =
  if accepted snapshot then
    match restore_prologue os s with
    | (Raise e, s1) => (Raise e, s1)
    | (Ok h, s1) =>
        try_finally
          (for_each (restore_region os h bM bE) (items snapshot))
          (resume os) s1
    end
  else (Raise TypeError, s).
Proof.
  unfold restore_memory_snapshot, accepted, restore_prologue.
  destruct (truthy snapshot), (isinstance_list snapshot),
    (first_isinstance_MBI snapshot); cbn [negb orb andb]; try reflexivity.
  unfold bind, ret.
  destruct (get_handle os restore_access s) as [[h|e] s0]; [|reflexivity].
  destruct (suspend os s0) as [[u|e] s1]; reflexivity.
Qed.

(** C3.  A snapshot that passes the check of the argument is restored in
    three phases.  The prologue gets the handle and suspends the process;
    it changes no memory, and when it fails the call ends there with its
    exception: the process was not suspended by the call and nothing was
    changed.  When it succeeds every thread of the process has been
    suspended; then the loop over the regions runs, and it makes no
    thread control call: nothing resumes the process while regions are
    restored; then [resume] is called on the state the loop left,
    whatever the outcome of the loop, its first action being a thread
    control call and no memory being changed after it.  The call returns
    the outcome of the loop, unless [resume] itself raises. *)
Theorem restore_memory_snapshot_resumes (os : OS) (snapshot : PyValue)
    (bSkipMappedFiles bSkipOnError : bool) (s : ProcessState) :
  let '(res, s') :=
    restore_memory_snapshot os snapshot bSkipMappedFiles bSkipOnError s in
  if accepted snapshot then
    match restore_prologue os s with
    | (Raise e, s1) =>
        res = Raise e /\ s' = s1 /\
        exists pre, log s1 = pre ++ log s /\ Forall no_mutation pre
    | (Ok h, s1) =>
        (exists pre,
           log s1 = pre ++ log s /\ Forall no_mutation pre /\
           Forall (fun t => exists n, In (EvSuspendThread t (Success n)) pre)
             (threadIds s1)) /\
        exists r2 s2 r3 mid more first,
          for_each (restore_region os h bSkipMappedFiles bSkipOnError)
            (items snapshot) s1 = (r2, s2) /\
          log s2 = mid ++ log s1 /\ Forall no_thread_control mid /\
          resume os s2 = (r3, s') /\
          log s' = more ++ first :: log s2 /\
          is_thread_control first = true /\ Forall no_mutation more /\
          res = match r3 with Ok _ => r2 | Raise e => Raise e end
    end
  else res = Raise TypeError /\ s' = s.
Proof.
  rewrite restore_memory_snapshot_unfold.
  destruct (accepted snapshot); [|auto].
  destruct (restore_prologue_no_mutation os s) as (pre & Hpre & Fpre).
  destruct (restore_prologue os s) as [[h|e] s1] eqn:Ep; cbn [snd] in *.
  - unfold try_finally.
    pose proof (emits_for_each no_thread_control
                  (restore_region os h bSkipMappedFiles bSkipOnError)
                  (items snapshot)
                  (restore_region_no_thread_control os h _ _) s1) as Hmid.
    destruct (for_each _ (items snapshot) s1) as [r2 s2] eqn:Eloop.
    cbn [snd] in Hmid. destruct Hmid as (mid & Hmid & Fmid).
    destruct (resume_starts os s2) as (more & first & Hpost & Hfirst & Fmore).
    destruct (resume os s2) as [r3 s3] eqn:Er. cbn [snd] in Hpost.
    assert (Hres : (let '(res, s') :=
                      match r3 with
                      | Ok _ => (r2, s3)
                      | Raise e => (Raise e, s3)
                      end in
                    res = match r3 with Ok _ => r2 | Raise e => Raise e end /\
                    s' = s3)) by (destruct r3; auto).
    destruct (match r3 with Ok _ => (r2, s3) | Raise e => (Raise e, s3) end)
      as [res s'].
    destruct Hres as (-> & ->).
    split.
    + exists pre. split; [exact Hpre|]. split; [exact Fpre|].
      unfold restore_prologue, bind, ret in Ep.
      destruct (get_handle os restore_access s) as [[h0|e0] s0] eqn:Eh;
        [|discriminate].
      destruct (suspend os s0) as [[[]|e0] s1'] eqn:Es; [|discriminate].
      injection Ep as -> ->.
      destruct (suspend_suspended os s0 s1 Es) as (evs & Hl & Hall).
      destruct (get_handle_no_mutation os restore_access s) as (evs0 & Hl0 & _).
      rewrite Eh in Hl0. cbn [snd] in Hl0.
      assert (pre = evs ++ evs0) as ->.
      { apply (app_inv_tail (log s)). rewrite <- Hpre, Hl, Hl0, app_assoc.
        reflexivity. }
      eapply Forall_impl; [exact Hall|].
      intros t (n & Hin). exists n. apply in_or_app. left. exact Hin.
    + exists r2, s2, r3, mid, more, first. auto 10.
  - split; [reflexivity|]. split; [reflexivity|]. eauto.
Qed.

(** The protocol on a page that has to be decommitted: both threads are
    suspended, the page is decommitted, both threads are resumed. *)
Lemma restore_memory_snapshot_resumes_witness :
  exists s',
    restore_memory_snapshot Demo.os (PyList [PyMBI Regions.reserved_page])
      true false Demo.process = (Ok tt, s') /\
    List.filter (fun ev => is_thread_control ev || is_mutation ev) (rev (log s'))
    = [EvScanThreads 1234 (Success [1; 2]);
       EvSuspendThread 1 (Success 0); EvSuspendThread 2 (Success 0);
       EvVirtualFreeEx 100 0x10000 0x1000 win32.MEM_DECOMMIT (Success tt);
       EvResumeThread 1 (Success 1); EvResumeThread 2 (Success 1)].
Proof.
  pose proof (restore_memory_snapshot_resumes Demo.os
                (PyList [PyMBI Regions.reserved_page]) true false Demo.process)
    as H.
  destruct (restore_memory_snapshot Demo.os _ true false Demo.process)
    as [res s'] eqn:E.
  cbn [accepted truthy isinstance_list first_isinstance_MBI isinstance_MBI andb]
    in H.
  destruct (restore_prologue Demo.os Demo.process) as [[h|e] s1] eqn:Ep;
    [|vm_compute in Ep; discriminate].
  destruct H as (_ & r2 & s2 & r3 & mid & more & first & _ & _ & _ & _ & _ & _ & _ & Hres).
  exists s'. vm_compute in E. injection E as <- <-.
  split; reflexivity.
Defined.

Lemma suspend_starts (os : OS) : starts_with_thread_control (suspend os).
Proof.
  destruct (Thread_ops_no_mutation os) as (Hs & Hr).
  pose proof (all_threads_no_mutation (Thread_suspend os) (Thread_resume os) Hs Hr)
    as Hall.
  unfold suspend, scan_threads, get_pid.
  apply starts_bind.
  - intros s. unfold bind at 1. cbn beta iota.
    apply (starts_bind (os_call _ _) _); [apply starts_os_call; reflexivity|].
    intros l. apply emits_pure. reflexivity.
  - intros _. apply emits_bind; [apply emits_pure; reflexivity|].
    intros tids. apply Hall.
Qed.

(** Once the argument is accepted the log grows: the handle is asked for
    or the threads are enumerated. *)
Lemma restore_prologue_grows (os : OS) (s : ProcessState) :
  (length (log s) < length (log (snd (restore_prologue os s))))%nat.
Proof.
  unfold restore_prologue, bind.
  destruct (get_handle_no_mutation os restore_access s) as (evs0 & H0 & _).
  destruct (get_handle os restore_access s) as [[h|e] s0] eqn:Eh; cbn [snd] in *.
  - destruct (suspend_starts os s0) as (more & first & H1 & _ & _).
    destruct (suspend os s0) as [[u|e] s1]; unfold ret; cbn [snd] in *;
      rewrite H1, length_app; cbn [length]; rewrite H0, length_app; lia.
  - assert (Ho : opens (log s0) = S (opens (log s))).
    { rewrite get_handle_spec in Eh.
      assert (Hopen : forall A, open_handle os A s = (Raise e, s0) ->
                opens (log s0) = S (opens (log s))).
      { intros A HA. pose proof (open_handle_effect os A s) as He.
        rewrite HA in He. apply He. }
      destruct (held s) as [h0|]; [|eapply Hopen, Eh].
      destruct (Z.lor (dwAccess h0) restore_access =? dwAccess h0);
        [discriminate|eapply Hopen, Eh]. }
    rewrite H0 in Ho |- *. destruct evs0 as [|ev evs0].
    + cbn [app] in Ho. lia.
    + cbn [length app]. rewrite length_app. lia.
Qed.

(** C9, as amended.  The check of the argument looks at the container
    and at its first element only: a snapshot is accepted exactly when it
    is a list whose first element is a region descriptor.  A snapshot
    that is not accepted is rejected with [TypeError] and nothing
    happens: the state of the process object and the log are unchanged.
    An accepted snapshot starts the operation, whatever its later
    elements are: the log grows. *)
Theorem restore_memory_snapshot_checks_head (os : OS) (snapshot : PyValue)
    (bSkipMappedFiles bSkipOnError : bool) (s : ProcessState) :
  accepted snapshot
  = match snapshot with
    | PyList (PyMBI _ :: _) => true
    | _ => false
    end /\
  (accepted snapshot = false ->
   restore_memory_snapshot os snapshot bSkipMappedFiles bSkipOnError s
   = (Raise TypeError, s)) /\
  (accepted snapshot = true ->
   (length (log s)
    < length (log (snd (restore_memory_snapshot os snapshot bSkipMappedFiles
                          bSkipOnError s))))%nat).
Proof.
  split; [|split].
  - destruct snapshot as [|z| | |[|[] l]]; unfold accepted; cbn;
      rewrite ?andb_false_r; reflexivity.
  - intros H. rewrite restore_memory_snapshot_unfold, H. reflexivity.
  - intros H. rewrite restore_memory_snapshot_unfold, H.
    pose proof (restore_prologue_grows os s) as Hg.
    destruct (restore_prologue os s) as [[h|e] s1]; cbn [snd] in *; [|exact Hg].
    pose proof (emits_try_finally no_thread_control
                  (for_each (restore_region os h bSkipMappedFiles bSkipOnError)
                     (items snapshot))
                  (resume os)) as Hem.
    assert (Hlen : forall s1,
              (length (log s1)
               <= length (log (snd (try_finally
                    (for_each (restore_region os h bSkipMappedFiles bSkipOnError)
                       (items snapshot)) (resume os) s1))))%nat).
    { intros s0. unfold try_finally.
      destruct (emits_for_each no_thread_control _ (items snapshot)
                  (restore_region_no_thread_control os h bSkipMappedFiles
                     bSkipOnError) s0) as (mid & Hmid & _).
      destruct (for_each _ (items snapshot) s0) as [r2 s2]. cbn [snd] in Hmid.
      destruct (resume_no_mutation os s2) as (post & Hpost & _).
      destruct (resume os s2) as [[u|e] s3]; cbn [snd] in *;
        rewrite Hpost, Hmid, !length_app; lia. }
    specialize (Hlen s1). lia.
Qed.

(** C9 as stated fails on a list whose second element is malformed: the
    first region is restored, here by decommitting a page, and only then
    the call fails, with [AttributeError]. *)
Lemma restore_memory_snapshot_late_malformed :
  isinstance_MBI PyNone = false /\
  exists s',
    restore_memory_snapshot Demo.os
      (PyList [PyMBI Regions.reserved_page; PyNone]) true false Demo.process
    = (Raise AttributeError, s') /\
    List.filter is_mutation (log s')
    = [EvVirtualFreeEx 100 0x10000 0x1000 win32.MEM_DECOMMIT (Success tt)].
Proof. split; [reflexivity|]. eexists. split; vm_compute; reflexivity. Qed.

(** The amended statement at work on the same list and on an empty one. *)
Lemma restore_memory_snapshot_checks_head_witness :
  restore_memory_snapshot Demo.os (PyList []) true false Demo.process
  = (Raise TypeError, Demo.process) /\
  (length (log Demo.process)
   < length (log (snd (restore_memory_snapshot Demo.os
                         (PyList [PyMBI Regions.reserved_page; PyNone])
                         true false Demo.process))))%nat.
Proof.
  split.
  - apply (restore_memory_snapshot_checks_head Demo.os (PyList [])). reflexivity.
  - apply (restore_memory_snapshot_checks_head Demo.os
             (PyList [PyMBI Regions.reserved_page; PyNone])). reflexivity.
Defined.

(** ** The process container *)

Lemma for_each_invariant {S A} (I : S -> Prop) (body : A -> StateExn S unit)
    (l : list A) :
  (forall x s, x ∈ l -> I s -> I (snd (body x s))) ->
  forall s, I s -> I (snd (for_each body l s)).
Proof.
  induction l as [|x l IH]; intros Hbody s Hs; cbn [for_each]; [exact Hs|].
  unfold bind.
  pose proof (Hbody x s ltac:(left) Hs) as H1.
  destruct (body x s) as [[u|e] s1]; cbn [snd] in *; [|exact H1].
  apply IH; [|exact H1]. intros y s0 Hy. apply Hbody. right. exact Hy.
Qed.

Lemma bind_invariant {S A B} (I : S -> Prop) (c : StateExn S A)
    (k : A -> StateExn S B) (s : S) :
  I (snd (c s)) -> (forall a s', I s' -> I (snd (k a s'))) ->
  I (snd (bind c k s)).
Proof.
  intros Hc Hk. unfold bind.
  destruct (c s) as [[a|e] s1]; cbn [snd] in *; [apply Hk|]; exact Hc.
Qed.

Module ContainerProofs.
Import Container ContainerSpec.

(** *** Adding and deleting one process *)

Lemma add_process_dict (p : Process) (c : Snapshot) :
  processDict (snd (_add_process p c))
  = <[dwProcessId p := length (store c)]> (processDict c).
Proof. reflexivity. Qed.

Lemma add_process_store (p : Process) (c : Snapshot) :
  store (snd (_add_process p c)) = store c ++ [p].
Proof. reflexivity. Qed.

Lemma Process_clear_dict (os : ScanOS) (r : nat) (c : Snapshot) :
  processDict (snd (Process_clear os r c)) = processDict c.
Proof.
  unfold Process_clear, read_object.
  destruct (store c !! r) as [p|]; [|reflexivity].
  destruct (hProcess p) as [h|]; [|reflexivity].
  destruct (value h =? win32.INVALID_HANDLE_VALUE); [reflexivity|].
  destruct (CloseHandle os (value h)); reflexivity.
Qed.

(** [Process.clear] rewrites the object behind [r], keeping its process
    ID, and nothing else. *)
Lemma Process_clear_store (os : ScanOS) (r : nat) (c : Snapshot) :
  exists f,
    (forall p, dwProcessId (f p) = dwProcessId p) /\
    store (snd (Process_clear os r c))
    = match store c !! r with
      | Some p => <[r := f p]> (store c)
      | None => store c
      end.
Proof.
  exists (fun p => set_hProcess None (set_moduleBases [] (set_threadIds [] p))).
  split; [reflexivity|].
  unfold Process_clear, read_object.
  destruct (store c !! r) as [p|]; [|reflexivity].
  destruct (hProcess p) as [h|]; [|reflexivity].
  destruct (value h =? win32.INVALID_HANDLE_VALUE); [reflexivity|].
  destruct (CloseHandle os (value h)); reflexivity.
Qed.

Lemma Process_clear_ok (os : ScanOS) (r : nat) (c : Snapshot) :
  closes_succeed os -> fst (Process_clear os r c) = Ok tt.
Proof.
  intros Hos. unfold Process_clear, read_object.
  destruct (store c !! r) as [p|]; [|reflexivity].
  destruct (hProcess p) as [h|]; [|reflexivity].
  destruct (value h =? win32.INVALID_HANDLE_VALUE); [reflexivity|].
  destruct (Hos (value h)) as ([] & ->). reflexivity.
Qed.

Lemma del_process_dict (os : ScanOS) (pid : Z) (c : Snapshot) :
  processDict (snd (_del_process os pid c)) = delete pid (processDict c).
Proof.
  unfold _del_process.
  destruct (processDict c !! pid) as [r|] eqn:E.
  - rewrite Process_clear_dict. reflexivity.
  - cbn. symmetry. apply delete_id. exact E.
Qed.

Lemma del_process_ok (os : ScanOS) (pid : Z) (c : Snapshot) :
  closes_succeed os -> fst (_del_process os pid c) = Ok tt.
Proof.
  intros Hos. unfold _del_process.
  destruct (processDict c !! pid); [|reflexivity].
  apply Process_clear_ok, Hos.
Qed.

(** *** What a scan step keeps *)

Lemma kept_refl (c : Snapshot) : well_keyed c -> kept c c.
Proof. intros H. split; [exact H|]. intros pid r r' E E'. split; congruence. Qed.

Lemma kept_add (c c' : Snapshot) (pid : Z) (n : option string) :
  kept c c' -> processDict c !! pid = None ->
  kept c (snd (_add_process (new_Process pid n) c')).
Proof.
  intros (Hwf & Hk) Hfresh. split.
  - intros q r. rewrite add_process_dict, add_process_store. cbn [dwProcessId new_Process].
    destruct (decide (pid = q)) as [->|Hne].
    + rewrite lookup_insert_eq. intros [= <-].
      exists (new_Process q n). split; [|reflexivity].
      rewrite lookup_app_r by lia. rewrite Nat.sub_diag. reflexivity.
    + rewrite lookup_insert_ne by exact Hne. intros E.
      destruct (Hwf q r E) as (p & Hp & Hpid). exists p. split; [|exact Hpid].
      rewrite lookup_app_l; [exact Hp|]. eapply lookup_lt_Some, Hp.
  - intros q r r' E E'. rewrite add_process_dict in E'.
    cbn [dwProcessId new_Process] in E'.
    rewrite lookup_insert_ne in E' by congruence.
    destruct (Hk q r r' E E') as (-> & Hs). split; [reflexivity|].
    rewrite add_process_store, <- Hs.
    destruct (Hwf q r E') as (p & Hp & _).
    rewrite lookup_app_l; [reflexivity|]. eapply lookup_lt_Some, Hp.
Qed.

Lemma kept_del (os : ScanOS) (c c' : Snapshot) (pid : Z) :
  kept c c' -> kept c (snd (_del_process os pid c')).
Proof.
  intros (Hwf & Hk).
  pose proof (del_process_dict os pid c') as Hd.
  unfold _del_process in *.
  destruct (processDict c' !! pid) as [r0|] eqn:E0; [|split; assumption].
  set (c0 := mkSnapshot (delete pid (processDict c')) (store c')) in *.
  destruct (Process_clear_store os r0 c0) as (f & Hf & Hs).
  rewrite Process_clear_dict in Hd. cbn [processDict c0] in Hd.
  destruct (Hwf pid r0 E0) as (p0 & Hp0 & Hpid0).
  cbn [store c0] in Hs. rewrite Hp0 in Hs.
  assert (Hother : forall q r, q <> pid -> processDict c' !! q = Some r ->
            r <> r0).
  { intros q r Hq E Heq. subst r. destruct (Hwf q r0 E) as (p & Hp & Hpid).
    congruence. }
  split.
  - intros q r. rewrite Process_clear_dict. cbn [processDict c0].
    intros E. apply lookup_delete_Some in E. destruct E as (Hq & E).
    destruct (Hwf q r E) as (p & Hp & Hpid). exists p. split; [|exact Hpid].
    rewrite Hs, list_lookup_insert_ne; [exact Hp|].
    intros Heq. subst r. exact (Hother q r0 ltac:(congruence) E eq_refl).
  - intros q r r' E E'. rewrite Process_clear_dict in E'. cbn [processDict c0] in E'.
    apply lookup_delete_Some in E'. destruct E' as (Hq & E').
    destruct (Hk q r r' E E') as (-> & Hst). split; [reflexivity|].
    rewrite Hs, list_lookup_insert_ne; [exact Hst|].
    intros Heq. subst r. exact (Hother q r0 ltac:(congruence) E' eq_refl).
Qed.

(** *** The tracked IDs after a scan step *)

Lemma keys_add (p : Process) (c : Snapshot) :
  keys (snd (_add_process p c)) = keys c ∪ {[dwProcessId p]}.
Proof.
  unfold keys. rewrite add_process_dict, dom_insert_L. set_solver.
Qed.

Lemma keys_del (os : ScanOS) (pid : Z) (c : Snapshot) :
  keys (snd (_del_process os pid c)) = keys c ∖ {[pid]}.
Proof. unfold keys. rewrite del_process_dict, dom_delete_L. reflexivity. Qed.

Lemma keys_update_object (r : nat) (f : Process -> Process) (c : Snapshot) :
  keys (snd (update_object r f c)) = keys c.
Proof. unfold update_object, read_object. destruct (store c !! r); reflexivity. Qed.

Lemma keys_enrich (pid : Z) (n : option string) (c : Snapshot) :
  keys (snd (enrich_fileName pid n c)) = keys c ∪ {[pid]}.
Proof.
  unfold enrich_fileName.
  destruct (processDict c !! pid) as [r|] eqn:E.
  - assert (Hin : pid ∈ keys c) by (apply elem_of_dom; eauto).
    destruct (name_truthy n); [rewrite keys_update_object|cbn [snd]];
      apply set_eq; intros x; rewrite elem_of_union, elem_of_singleton;
      split; [auto|intros [H| ->]; auto| auto|intros [H| ->]; auto].
  - apply keys_add.
Qed.

(** Adding the processes of a list. *)
Lemma for_each_add (l : list Z) :
  forall c,
    fst (for_each (fun pid => _add_process (new_Process pid None)) l c) = Ok tt /\
    keys (snd (for_each (fun pid => _add_process (new_Process pid None)) l c))
    = keys c ∪ list_to_set l.
Proof.
  induction l as [|pid l IH]; intros c; cbn [for_each].
  - split; [reflexivity|]. cbn. set_solver.
  - unfold bind.
    pose proof (keys_add (new_Process pid None) c) as Hk.
    destruct (_add_process (new_Process pid None) c) as [[u|e] c1] eqn:E;
      [|discriminate].
    cbn [snd new_Process dwProcessId] in Hk.
    destruct (IH c1) as (H1 & H2). split; [exact H1|].
    rewrite H2, Hk. cbn [list_to_set]. set_solver.
Qed.

(** Deleting the processes of a list: all of them are gone when the loop
    goes through, which it does when no handle fails to close; whatever
    happens, only processes of the list are deleted. *)
Lemma for_each_del (os : ScanOS) (l : list Z) :
  forall c,
    let '(res, c') := for_each (_del_process os) l c in
    keys c' ⊆ keys c /\
    keys c ∖ list_to_set l ⊆ keys c' /\
    (res = Ok tt -> keys c' = keys c ∖ list_to_set l) /\
    (closes_succeed os -> res = Ok tt).
Proof.
  induction l as [|pid l IH]; intros c; cbn [for_each].
  - cbn. repeat split; set_solver.
  - unfold bind.
    pose proof (keys_del os pid c) as Hk.
    pose proof (del_process_ok os pid c) as Hok.
    destruct (_del_process os pid c) as [[u|e] c1]; cbn [fst snd] in *.
    + specialize (IH c1).
      destruct (for_each (_del_process os) l c1) as [res c'].
      destruct IH as (H1 & H2 & H3 & H4). rewrite Hk in *.
      cbn [list_to_set]. repeat split.
      * set_solver.
      * set_solver.
      * intros Hres. rewrite (H3 Hres). set_solver.
      * exact H4.
    + rewrite Hk. cbn [list_to_set]. repeat split.
      * set_solver.
      * set_solver.
      * discriminate.
      * intros Hos. specialize (Hok Hos). discriminate.
Qed.

(** Membership in the sets built by the scans, decided by cases. *)
Ltac set_cases :=
  repeat match goal with
         | |- _ ⊆ _ => intros ?x
         | |- @eq (gset Z) _ _ => apply set_eq; intros ?x
         end;
  repeat first
    [ rewrite elem_of_union in *
    | rewrite elem_of_difference in *
    | rewrite elem_of_intersection in *
    | rewrite elem_of_singleton in *
    | rewrite elem_of_list_to_set in * ];
  try tauto; try (intuition congruence).

Lemma reconcile_del (os : ScanOS) (S dead : gset Z) (c c2 : Snapshot) :
  keys c2 = keys c ∪ S ->
  GetCurrentProcessId os ∉ S ->
  dead = (keys c ∖ {[GetCurrentProcessId os]}) ∖ S ->
  let '(res, c') := for_each (_del_process os) (elements dead) c2 in
  reconciled os S c res c'.
Proof.
  intros Hk Hown ->.
  pose proof (for_each_del os
                (elements ((keys c ∖ {[GetCurrentProcessId os]}) ∖ S)) c2) as H.
  destruct (for_each (_del_process os) _ c2) as [res c'].
  rewrite list_to_set_elements_L, Hk in H.
  destruct H as (H1 & H2 & H3 & H4).
  unfold reconciled, own_if_tracked.
  set (our := GetCurrentProcessId os) in *.
  assert (Hin : forall x, x ∈ keys c' -> x ∈ keys c \/ x ∈ S).
  { intros x Hx. apply H1 in Hx. apply elem_of_union in Hx. exact Hx. }
  assert (Hout : forall x, (x ∈ keys c \/ x ∈ S) ->
            ~ (x ∈ keys c /\ x <> our /\ x ∉ S) -> x ∈ keys c').
  { intros x Hx Hd. apply H2. set_cases. }
  split; [|split; [|split; [|split]]].
  - intros x Hx. apply Hout; tauto.
  - intros x Hx. apply Hin in Hx. set_cases.
  - apply set_eq. intros x. rewrite !elem_of_intersection, elem_of_singleton.
    split; intros (Hx & ->); (split; [|reflexivity]).
    + destruct (Hin _ Hx); tauto.
    + apply Hout; tauto.
  - intros Hres. rewrite (H3 Hres). apply set_eq. intros x.
    destruct (decide (x = our)) as [Hx|Hx], (decide (x ∈ S)) as [HS|HS];
      set_cases.
  - exact H4.
Qed.

Lemma walk_toolhelp_process (our : Z) (entries : list (Z * string)) :
  forall dead c,
    let '(dead', c') := walk (toolhelp_process our) dead entries c in
    dead' = dead ∖ (list_to_set entries.*1 ∖ {[our]}) /\
    keys c' = keys c ∪ (list_to_set entries.*1 ∖ {[our]}).
Proof.
  induction entries as [|[pid name] entries IH]; intros dead c; cbn [walk].
  - cbn. split; set_solver.
  - unfold toolhelp_process at 1.
    destruct (Z.eqb_spec pid our) as [->|Hne]; cbn [negb].
    + specialize (IH dead c).
      destruct (walk (toolhelp_process our) dead entries c) as [dead' c'].
      destruct IH as (-> & ->). rewrite fmap_cons. cbn [list_to_set fst].
      split; set_solver.
    + pose proof (keys_enrich pid (Some name) c) as Hk.
      specialize (IH (dead ∖ {[pid]}) (snd (enrich_fileName pid (Some name) c))).
      destruct (walk (toolhelp_process our) _ entries _) as [dead' c'].
      destruct IH as (-> & ->). rewrite Hk, fmap_cons. cbn [list_to_set fst].
      split; set_solver.
Qed.

Lemma walk_session_process (our : Z) (entries : list (Z * string)) :
  forall dead c,
    let '(dead', c') := walk (session_process our) dead entries c in
    dead' = dead ∖ (list_to_set entries.*1 ∖ {[our]}) /\
    keys c' = keys c ∪ (list_to_set entries.*1 ∖ {[our]}).
Proof.
  induction entries as [|[pid name] entries IH]; intros dead c; cbn [walk].
  - cbn. split; set_solver.
  - unfold session_process at 1.
    destruct (Z.eqb_spec pid our) as [->|Hne].
    + specialize (IH dead c).
      destruct (walk (session_process our) dead entries c) as [dead' c'].
      destruct IH as (-> & ->). rewrite fmap_cons. cbn [list_to_set fst].
      split; set_solver.
    + pose proof (keys_enrich pid (Some name) c) as Hk.
      specialize (IH (dead ∖ {[pid]}) (snd (enrich_fileName pid (Some name) c))).
      destruct (walk (session_process our) _ entries _) as [dead' c'].
      destruct IH as (-> & ->). rewrite Hk, fmap_cons. cbn [list_to_set fst].
      split; set_solver.
Qed.

Lemma walk_toolhelp_thread (our : Z) (entries : list (Z * Z)) :
  forall dead found c,
    let '((dead', found'), c') :=
      walk (toolhelp_thread our) (dead, found) entries c in
    dead' = dead ∖ (list_to_set entries.*1 ∖ {[our]}) /\
    keys c' = keys c ∪ (list_to_set entries.*1 ∖ {[our]}).
Proof.
  induction entries as [|[pid tid] entries IH]; intros dead found c; cbn [walk].
  - cbn. split; set_solver.
  - unfold toolhelp_thread at 1.
    destruct (Z.eqb_spec pid our) as [->|Hne]; cbn [negb].
    + specialize (IH dead found c).
      destruct (walk (toolhelp_thread our) (dead, found) entries c)
        as [[dead' found'] c'].
      destruct IH as (-> & ->). rewrite fmap_cons. cbn [list_to_set fst].
      split; set_solver.
    + set (c1 := match processDict c !! pid with
                 | Some _ => c
                 | None => snd (_add_process (new_Process pid None) c)
                 end).
      set (c2 := match processDict c1 !! pid with
                 | Some r => snd (update_object r (add_thread tid) c1)
                 | None => c1
                 end).
      assert (Hk1 : keys c1 = keys c ∪ {[pid]}).
      { subst c1. destruct (processDict c !! pid) as [r|] eqn:E.
        - assert (pid ∈ keys c) by (apply elem_of_dom; eauto). set_solver.
        - apply keys_add. }
      assert (Hk2 : keys c2 = keys c1).
      { subst c2. destruct (processDict c1 !! pid); [|reflexivity].
        apply keys_update_object. }
      specialize (IH (dead ∖ {[pid]}) (found ∪ {[tid]}) c2).
      destruct (walk (toolhelp_thread our) _ entries c2) as [[dead' found'] c'].
      destruct IH as (-> & ->). rewrite Hk2, Hk1, fmap_cons.
      cbn [list_to_set fst]. split; set_solver.
Qed.

Lemma for_each_remove_dead_threads (found : gset Z) (refs : list nat) :
  forall c,
    fst (for_each (remove_dead_threads found) refs c) = Ok tt /\
    keys (snd (for_each (remove_dead_threads found) refs c)) = keys c.
Proof.
  induction refs as [|r refs IH]; intros c; cbn [for_each]; [auto|].
  unfold bind.
  pose proof (keys_update_object r
    (fun p => set_threadIds (filter (fun tid => tid ∈ found) (threadIds p)) p) c)
    as Hk.
  fold (remove_dead_threads found r) in Hk.
  destruct (remove_dead_threads found r c) as [[u|e] c1] eqn:E; cbn [snd] in Hk.
  - destruct (IH c1) as (H1 & H2). rewrite H1, H2. auto.
  - unfold remove_dead_threads, update_object in E.
    destruct (read_object r c); discriminate.
Qed.

Lemma reported_not_own (os : ScanOS) (pids : list Z) :
  GetCurrentProcessId os ∉ reported os pids.
Proof.
  unfold reported. rewrite elem_of_difference, elem_of_singleton.
  intros (_ & H). apply H. reflexivity.
Qed.

Lemma scan_processes_fast_reconciled (os : ScanOS) (c : Snapshot)
    (pids : list Z) :
  EnumProcesses os = Success pids ->
  let '(res, c') := scan_processes_fast os c in
  reconciled os (reported os pids) c res c'.
Proof.
  intros E. unfold scan_processes_fast. rewrite E.
  fold (reported os pids). unfold bind.
  pose proof (reported_not_own os pids) as Hn.
  set (S := reported os pids) in *.
  set (our := GetCurrentProcessId os) in *.
  set (old := keys c ∖ {[our]}).
  destruct (for_each_add (elements (S ∖ old)) c) as (Hok & Hk).
  destruct (for_each (fun pid => _add_process (new_Process pid None))
              (elements (S ∖ old)) c) as [[u|e] c1]; [|discriminate].
  cbn [snd] in Hk. rewrite list_to_set_elements_L in Hk.
  apply (reconcile_del os S (old ∖ S) c c1).
  - rewrite Hk. subst old. apply set_eq. intros x.
    destruct (decide (x = our)) as [Hx|Hx], (decide (x ∈ S)) as [HS|HS],
      (decide (x ∈ keys c)) as [Hc|Hc]; set_cases.
  - exact Hn.
  - reflexivity.
Qed.

Lemma scan_processes_and_threads_reconciled (os : ScanOS) (c : Snapshot)
    (th : Toolhelp) :
  CreateToolhelp32Snapshot os = Success th ->
  let '(res, c') := scan_processes_and_threads os c in
  reconciled os (reported os (toolhelp_pids th)) c res c'.
Proof.
  intros E. unfold scan_processes_and_threads. rewrite E.
  set (our := GetCurrentProcessId os).
  pose proof (walk_toolhelp_process our (process_entries th)
                (keys c ∖ {[our]}) c) as H1.
  destruct (walk (toolhelp_process our) _ (process_entries th) c)
    as [dead1 c1].
  destruct H1 as (Hd1 & Hk1).
  pose proof (walk_toolhelp_thread our (thread_entries th) dead1 ∅ c1) as H2.
  destruct (walk (toolhelp_thread our) _ (thread_entries th) c1)
    as [[dead2 found] c2].
  destruct H2 as (Hd2 & Hk2).
  unfold bind.
  pose proof (reconcile_del os (reported os (toolhelp_pids th)) dead2 c c2)
    as Hr.
  assert (HS : reported os (toolhelp_pids th)
               = (list_to_set (process_entries th).*1 ∖ {[our]})
                 ∪ (list_to_set (thread_entries th).*1 ∖ {[our]})).
  { unfold reported, toolhelp_pids. fold our.
    rewrite list_to_set_app_L. set_solver. }
  specialize (Hr ltac:(rewrite Hk2, Hk1, HS; set_solver)
                 (reported_not_own os _)
                 ltac:(rewrite Hd2, Hd1, HS; fold our; set_solver)).
  destruct (for_each (_del_process os) (elements dead2) c2) as [[u|e] c3].
  + destruct (for_each_remove_dead_threads found (values c3) c3) as (Hok & Hk).
    destruct (for_each (remove_dead_threads found) (values c3) c3)
      as [res c4]. cbn [fst snd] in *. subst res.
    unfold reconciled, own_if_tracked in *. rewrite Hk.
    destruct Hr as (R1 & R2 & R3 & R4 & R5).
    repeat split; auto.
    intros _. destruct u. apply R4. reflexivity.
  + exact Hr.
Qed.

Lemma scan_processes_reconciled (os : ScanOS) (c : Snapshot)
    (infos : list (Z * string)) :
  WTSEnumerateProcesses os = Success infos ->
  let '(res, c') := scan_processes os c in
  reconciled os (reported os infos.*1) c res c'.
Proof.
  intros E. unfold scan_processes. rewrite E.
  set (our := GetCurrentProcessId os).
  pose proof (walk_session_process our infos (keys c ∖ {[our]}) c) as H1.
  destruct (walk (session_process our) _ infos c) as [dead1 c1].
  destruct H1 as (Hd1 & Hk1).
  apply (reconcile_del os (reported os infos.*1) dead1 c c1).
  + rewrite Hk1. reflexivity.
  + apply reported_not_own.
  + rewrite Hd1. reflexivity.
Qed.

Lemma scan_processes_fast_kept (os : ScanOS) (c : Snapshot) :
  well_keyed c -> kept c (snd (scan_processes_fast os c)).
Proof.
  intros Hc.
   unfold scan_processes_fast.
  destruct (EnumProcesses os) as [pids|code]; [|apply kept_refl, Hc].
  apply bind_invariant.
  - apply for_each_invariant; [|apply kept_refl, Hc].
    intros pid c0 Hpid Hk. apply kept_add; [exact Hk|].
    apply not_elem_of_dom. apply elem_of_elements in Hpid.
    unfold keys in Hpid.
    rewrite !elem_of_difference, elem_of_singleton in Hpid. tauto.
  - intros _ c0 Hk. apply for_each_invariant; [|exact Hk].
    intros pid c1 _ Hk1. apply kept_del, Hk1.
Qed.

(** *** Steps that only change attributes of objects *)

Lemma same_shape_refl (c : Snapshot) : same_shape c c.
Proof. split; reflexivity. Qed.

Lemma same_shape_trans (c1 c2 c3 : Snapshot) :
  same_shape c1 c2 -> same_shape c2 c3 -> same_shape c1 c3.
Proof. intros (H1 & H2) (H3 & H4). split; congruence. Qed.

Lemma same_shape_keys (c c' : Snapshot) : same_shape c c' -> keys c' = keys c.
Proof. intros (H & _). unfold keys. rewrite H. reflexivity. Qed.

Lemma same_shape_lookup (c c' : Snapshot) (r : nat) (p' : Process) :
  same_shape c c' -> store c' !! r = Some p' ->
  exists p, store c !! r = Some p /\ dwProcessId p = dwProcessId p'.
Proof.
  intros (_ & H) Hr.
  assert (E : (dwProcessId <$> store c') !! r = Some (dwProcessId p'))
    by (rewrite list_lookup_fmap, Hr; reflexivity).
  rewrite H, list_lookup_fmap in E.
  destruct (store c !! r) as [p|]; [|discriminate].
  exists p. split; [reflexivity|]. cbn in E. congruence.
Qed.

Lemma same_shape_sym (c c' : Snapshot) : same_shape c c' -> same_shape c' c.
Proof. intros (H1 & H2). split; congruence. Qed.

Lemma same_shape_well_keyed (c c' : Snapshot) :
  same_shape c c' -> well_keyed c -> well_keyed c'.
Proof.
  intros Hs Hwf pid r E. destruct Hs as (Hd & Hst). rewrite Hd in E.
  destruct (Hwf pid r E) as (p & Hp & Hpid).
  destruct (same_shape_lookup c' c r p) as (p' & Hp' & Hpid');
    [split; congruence|exact Hp|].
  exists p'. split; [exact Hp'|congruence].
Qed.

Lemma write_object_shape (r : nat) (p p' : Process) (c : Snapshot) :
  store c !! r = Some p -> dwProcessId p' = dwProcessId p ->
  same_shape c (write_object r p' c).
Proof.
  intros Hp Hpid. split; [reflexivity|]. cbn [store write_object].
  rewrite list_fmap_insert, Hpid. apply list_insert_id.
  rewrite list_lookup_fmap, Hp. reflexivity.
Qed.

Lemma update_object_shape (r : nat) (f : Process -> Process) (c : Snapshot) :
  (forall p, dwProcessId (f p) = dwProcessId p) ->
  same_shape c (snd (update_object r f c)).
Proof.
  intros Hf. unfold update_object, read_object.
  destruct (store c !! r) as [p|] eqn:E; [|apply same_shape_refl].
  apply (write_object_shape r p); auto.
Qed.

(** *** Well-keyed containers stay well keyed *)

Lemma well_keyed_add (pid : Z) (n : option string) (c : Snapshot) :
  well_keyed c -> well_keyed (snd (_add_process (new_Process pid n) c)).
Proof.
  intros Hwf q r. rewrite add_process_dict, add_process_store.
  cbn [dwProcessId new_Process].
  destruct (decide (pid = q)) as [->|Hne].
  - rewrite lookup_insert_eq. intros [= <-].
    exists (new_Process q n). split; [|reflexivity].
    rewrite lookup_app_r by lia. rewrite Nat.sub_diag. reflexivity.
  - rewrite lookup_insert_ne by exact Hne. intros E.
    destruct (Hwf q r E) as (p & Hp & Hpid). exists p. split; [|exact Hpid].
    rewrite lookup_app_l; [exact Hp|]. eapply lookup_lt_Some, Hp.
Qed.

Lemma well_keyed_del (os : ScanOS) (pid : Z) (c : Snapshot) :
  well_keyed c -> well_keyed (snd (_del_process os pid c)).
Proof. intros Hwf. apply (kept_del os c c pid), kept_refl, Hwf. Qed.

Lemma well_keyed_enrich (pid : Z) (n : option string) (c : Snapshot) :
  well_keyed c -> well_keyed (snd (enrich_fileName pid n c)).
Proof.
  intros Hwf. unfold enrich_fileName.
  destruct (processDict c !! pid) as [r|]; [|apply well_keyed_add, Hwf].
  destruct (name_truthy n); [|exact Hwf].
  eapply same_shape_well_keyed; [|exact Hwf].
  apply update_object_shape. intros p. destruct (negb _); reflexivity.
Qed.

Lemma walk_invariant {A B} (I : Snapshot -> Prop)
    (step : A -> B -> Snapshot -> A * Snapshot) (entries : list B) :
  (forall acc e c, I c -> I (snd (step acc e c))) ->
  forall acc c, I c -> I (snd (walk step acc entries c)).
Proof.
  intros Hstep. induction entries as [|e entries IH]; intros acc c Hc;
    cbn [walk]; [exact Hc|].
  specialize (Hstep acc e c Hc).
  destruct (step acc e c) as [acc' c']. apply IH, Hstep.
Qed.

Lemma well_keyed_toolhelp_process (our : Z) (dead : gset Z) (pe : Z * string)
    (c : Snapshot) :
  well_keyed c -> well_keyed (snd (toolhelp_process our dead pe c)).
Proof.
  intros Hwf. destruct pe as [pid name]. unfold toolhelp_process.
  destruct (negb _); [|exact Hwf]. apply well_keyed_enrich, Hwf.
Qed.

Lemma well_keyed_session_process (our : Z) (dead : gset Z) (pe : Z * string)
    (c : Snapshot) :
  well_keyed c -> well_keyed (snd (session_process our dead pe c)).
Proof.
  intros Hwf. destruct pe as [pid name]. unfold session_process.
  destruct (_ =? _); [exact Hwf|]. apply well_keyed_enrich, Hwf.
Qed.

Lemma well_keyed_toolhelp_thread (our : Z) (acc : gset Z * gset Z)
    (te : Z * Z) (c : Snapshot) :
  well_keyed c -> well_keyed (snd (toolhelp_thread our acc te c)).
Proof.
  intros Hwf. destruct acc as [dead found], te as [pid tid].
  unfold toolhelp_thread. destruct (negb _); [|exact Hwf]. cbn [snd].
  set (c1 := match processDict c !! pid with
             | Some _ => c
             | None => snd (_add_process (new_Process pid None) c)
             end).
  assert (H1 : well_keyed c1).
  { subst c1. destruct (processDict c !! pid); [exact Hwf|].
    apply well_keyed_add, Hwf. }
  destruct (processDict c1 !! pid) as [r|]; [|exact H1].
  eapply same_shape_well_keyed; [|exact H1].
  apply update_object_shape. intros p. unfold add_thread.
  destruct (bool_decide _); reflexivity.
Qed.

Lemma well_keyed_scan_processes_and_threads (os : ScanOS) (c : Snapshot) :
  well_keyed c -> well_keyed (snd (scan_processes_and_threads os c)).
Proof.
  intros Hwf. unfold scan_processes_and_threads.
  destruct (CreateToolhelp32Snapshot os) as [th|code]; [|exact Hwf].
  pose proof (walk_invariant well_keyed
                (toolhelp_process (GetCurrentProcessId os)) (process_entries th)
                (fun acc e c0 => well_keyed_toolhelp_process _ acc e c0)
                (keys c ∖ {[GetCurrentProcessId os]}) c Hwf) as H1.
  destruct (walk (toolhelp_process _) _ (process_entries th) c) as [dead1 c1].
  cbn [snd] in H1.
  pose proof (walk_invariant well_keyed
                (toolhelp_thread (GetCurrentProcessId os)) (thread_entries th)
                (fun acc e c0 => well_keyed_toolhelp_thread _ acc e c0)
                (dead1, ∅) c1 H1) as H2.
  destruct (walk (toolhelp_thread _) _ (thread_entries th) c1)
    as [[dead2 found] c2].
  cbn [snd] in H2.
  apply bind_invariant.
  - apply for_each_invariant; [|exact H2].
    intros pid c0 _. apply well_keyed_del.
  - intros _ c3 H3. apply for_each_invariant; [|exact H3].
    intros r c0 _ H0. eapply same_shape_well_keyed; [|exact H0].
    apply update_object_shape. reflexivity.
Qed.

Lemma well_keyed_scan_processes (os : ScanOS) (c : Snapshot) :
  well_keyed c -> well_keyed (snd (scan_processes os c)).
Proof.
  intros Hwf. unfold scan_processes.
  destruct (WTSEnumerateProcesses os) as [infos|code]; [|exact Hwf].
  pose proof (walk_invariant well_keyed
                (session_process (GetCurrentProcessId os)) infos
                (fun acc e c0 => well_keyed_session_process _ acc e c0)
                (keys c ∖ {[GetCurrentProcessId os]}) c Hwf) as H1.
  destruct (walk (session_process _) _ infos c) as [dead1 c1].
  cbn [snd] in H1.
  apply for_each_invariant; [|exact H1].
  intros pid c0 _. apply well_keyed_del.
Qed.

(** *** Loops over the processes *)

Lemma and_each_ok (step : nat -> C bool) (refs : list nat) :
  (forall r c, exists b, fst (step r c) = Ok b) ->
  forall complete c, exists b, fst (and_each step refs complete c) = Ok b.
Proof.
  intros Hstep. induction refs as [|r refs IH]; intros complete c;
    cbn [and_each]; [eexists; reflexivity|].
  unfold bind. destruct (Hstep r c) as (b & Hb).
  destruct (step r c) as [[b'|e] c1]; [|discriminate]. apply IH.
Qed.

Lemma and_each_shape (step : nat -> C bool) (refs : list nat) :
  (forall r c, same_shape c (snd (step r c))) ->
  forall complete c, same_shape c (snd (and_each step refs complete c)).
Proof.
  intros Hstep. induction refs as [|r refs IH]; intros complete c;
    cbn [and_each]; [apply same_shape_refl|].
  unfold bind. specialize (Hstep r c).
  destruct (step r c) as [[b'|e] c1]; cbn [snd] in *; [|exact Hstep].
  eapply same_shape_trans; [exact Hstep|apply IH].
Qed.

(** The flag is cleared only by a step that did not go well. *)
Lemma and_each_false (step : nat -> C bool) (Bad : Prop) (refs : list nat) :
  (forall r c, fst (step r c) = Ok false -> Bad) ->
  forall complete c,
    fst (and_each step refs complete c) = Ok false ->
    complete = false \/ Bad.
Proof.
  intros Hstep. induction refs as [|r refs IH]; intros complete c;
    cbn [and_each].
  - cbn. intros [= ->]. left. reflexivity.
  - unfold bind. specialize (Hstep r c).
    destruct (step r c) as [[b|e] c1]; cbn [fst] in *; [|discriminate].
    intros H. destruct (IH _ _ H) as [Hc|Hb]; [|right; exact Hb].
    apply andb_false_iff in Hc. destruct Hc as [Hc|Hc]; [left; exact Hc|].
    right. apply Hstep. congruence.
Qed.

(** When the flag is still set, every step went well, each for the
    process its object stands for. *)
Lemma and_each_true (step : nat -> C bool) (good : Z -> Prop)
    (refs : list nat) :
  (forall r c, same_shape c (snd (step r c))) ->
  (forall r c p,
     store c !! r = Some p -> fst (step r c) = Ok true ->
     good (dwProcessId p)) ->
  forall complete c,
    fst (and_each step refs complete c) = Ok true ->
    complete = true /\
    forall r p, r ∈ refs -> store c !! r = Some p -> good (dwProcessId p).
Proof.
  intros Hshape Hgood. induction refs as [|r refs IH]; intros complete c;
    cbn [and_each].
  - cbn. intros [= ->]. split; [reflexivity|]. intros r p Hr. inversion Hr.
  - unfold bind. specialize (Hshape r c). specialize (Hgood r c).
    destruct (step r c) as [[b|e] c1]; cbn [fst snd] in *; [|discriminate].
    intros H. destruct (IH _ _ H) as (Hc & Hall).
    apply andb_true_iff in Hc. destruct Hc as (-> & ->).
    split; [reflexivity|]. intros r' p Hr Hp.
    apply elem_of_cons in Hr. destruct Hr as [->|Hr].
    + apply Hgood; auto.
    + destruct (same_shape_lookup c1 c r' p (same_shape_sym _ _ Hshape) Hp)
        as (p1 & Hp1 & Hpid).
      rewrite <- Hpid. apply (Hall r' p1 Hr Hp1).
Qed.

(** *** The per-process steps of [scan] *)

Lemma scan_modules_step (os : ScanOS) (r : nat) (c : Snapshot) :
  except_WindowsError (Process_scan_modules os r ;; ret true)
    (fun _ => ret false) c
  = match store c !! r with
    | None => (Ok true, c)
    | Some p =>
        match os_scan_modules os (dwProcessId p) with
        | Success bases =>
            (Ok true, write_object r (set_moduleBases bases p) c)
        | Failure _ => (Ok false, c)
        end
    end.
Proof.
  unfold except_WindowsError, try_except, bind, Process_scan_modules,
    read_object, ret.
  destruct (store c !! r) as [p|]; [|reflexivity].
  destruct (os_scan_modules os (dwProcessId p)); reflexivity.
Qed.

Lemma backfill_step (os : ScanOS) (r : nat) (c : Snapshot) :
  except_WindowsError
    ((fun c' =>
        match read_object r c' with
        | Some p =>
            match threadIds p with
            | [] => (Ok tt, c')
            | _ => Process_scan_threads os r c'
            end
        | None => (Ok tt, c')
        end) ;; ret true)
    (fun _ => ret false) c
  = match store c !! r with
    | None => (Ok true, c)
    | Some p =>
        match threadIds p with
        | [] => (Ok true, c)
        | _ =>
            match os_scan_threads os (dwProcessId p) with
            | Success tids => (Ok true, write_object r (set_threadIds tids p) c)
            | Failure _ => (Ok false, c)
            end
        end
    end.
Proof.
  unfold except_WindowsError, try_except, bind, Process_scan_threads,
    read_object, ret.
  destruct (store c !! r) as [p|] eqn:E; [|reflexivity].
  destruct (threadIds p); [reflexivity|].
  destruct (os_scan_threads os (dwProcessId p)); reflexivity.
Qed.

Lemma refresh_filename_step (os : ScanOS) (r : nat) (c : Snapshot) :
  same_shape c (snd (refresh_filename os r c)) /\
  (exists b, fst (refresh_filename os r c) = Ok b) /\
  forall p, store c !! r = Some p ->
    (fst (refresh_filename os r c) = Ok true ->
     name_retrieved os (dwProcessId p)) /\
    (fst (refresh_filename os r c) = Ok false ->
     ~ name_retrieved os (dwProcessId p)).
Proof.
  unfold refresh_filename, read_object.
  destruct (store c !! r) as [p|] eqn:E.
  2:{ split; [apply same_shape_refl|]. split; [eauto|]. discriminate. }
  set (c0 := write_object r (set_fileName None p) c).
  assert (H0 : same_shape c c0) by (apply (write_object_shape r p); auto).
  assert (E0 : store c0 !! r = Some (set_fileName None p)).
  { subst c0. cbn [store write_object]. apply list_lookup_insert_eq.
    eapply lookup_lt_Some, E. }
  unfold Process_get_filename, read_object. rewrite E0.
  cbn [fileName set_fileName name_truthy negb dwProcessId].
  set (p1 := after_get_image_name os (set_fileName None p)).
  assert (Hback : forall c1, same_shape c0 c1 ->
            same_shape c (snd (update_object r (set_fileName (fileName p)) c1))).
  { intros c1 H1. eapply same_shape_trans; [exact H0|].
    eapply same_shape_trans; [exact H1|].
    apply update_object_shape. reflexivity. }
  assert (Hput : forall p', dwProcessId p' = dwProcessId p ->
            same_shape c0 (write_object r p' c0)).
  { intros p' Hp'. apply (write_object_shape r (set_fileName None p));
      [exact E0|exact Hp']. }
  cbv zeta.
  destruct (os_get_image_name os (dwProcessId p)) as [n|e] eqn:En.
  - destruct (name_truthy n) eqn:Hn; cbn [negb fst snd].
    + split.
      { eapply same_shape_trans; [exact H0|]. apply Hput. reflexivity. }
      split; [eauto|]. intros p' [= <-]. split; [|discriminate].
      intros _. exists n. auto.
    + split.
      { apply Hback. apply Hput. reflexivity. }
      split; [eauto|]. intros p' [= <-]. split; [discriminate|].
      intros _ (n' & En' & Hn'). congruence.
  - cbn [fst snd]. split; [apply Hback, Hput; reflexivity|].
    split; [eauto|]. intros p' [= <-]. split; [discriminate|].
    intros _ (n' & En' & Hn'). congruence.
Qed.

Lemma scan_modules_spec (os : ScanOS) (c : Snapshot) :
  exists hm c',
    scan_modules os c = (Ok hm, c') /\ same_shape c c' /\
    (hm = true ->
     forall r p, r ∈ values c -> store c !! r = Some p ->
       exists bases, os_scan_modules os (dwProcessId p) = Success bases) /\
    (hm = false -> exists pid code, os_scan_modules os pid = Failure code).
Proof.
  unfold scan_modules, try_each.
  set (step := fun r => except_WindowsError
                 (Process_scan_modules os r ;; ret true) (fun _ => ret false)).
  assert (Hshape : forall r c0, same_shape c0 (snd (step r c0))).
  { intros r c0. subst step. cbn beta. rewrite scan_modules_step.
    destruct (store c0 !! r) as [p|] eqn:E; [|apply same_shape_refl].
    destruct (os_scan_modules os (dwProcessId p)); [|apply same_shape_refl].
    apply (write_object_shape r p); auto. }
  assert (Hok : forall r c0, exists b, fst (step r c0) = Ok b).
  { intros r c0. subst step. cbn beta. rewrite scan_modules_step.
    destruct (store c0 !! r) as [p|]; [|eauto].
    destruct (os_scan_modules os (dwProcessId p)); eauto. }
  destruct (and_each_ok step (values c) Hok true c) as (hm & Hhm).
  pose proof (and_each_shape step (values c) Hshape true c) as Hs.
  destruct (and_each step (values c) true c) as [res c'] eqn:E.
  cbn [fst snd] in *. subst res. exists hm, c'.
  split; [reflexivity|]. split; [exact Hs|]. split.
  - intros ->.
    destruct (and_each_true step
                (fun pid => exists bases, os_scan_modules os pid = Success bases)
                (values c) Hshape) with (complete := true) (c := c)
      as (_ & Hall).
    + intros r c0 p Hp. subst step. cbn beta. rewrite scan_modules_step, Hp.
      destruct (os_scan_modules os (dwProcessId p)); [eauto|discriminate].
    + rewrite E. reflexivity.
    + exact Hall.
  - intros ->.
    destruct (and_each_false step
                (exists pid code, os_scan_modules os pid = Failure code)
                (values c)) with (complete := true) (c := c) as [H|H].
    + intros r c0. subst step. cbn beta. rewrite scan_modules_step.
      destruct (store c0 !! r) as [p|]; [|discriminate].
      destruct (os_scan_modules os (dwProcessId p)) eqn:Em; [discriminate|].
      eauto.
    + rewrite E. reflexivity.
    + discriminate.
    + exact H.
Qed.

Lemma scan_process_filenames_spec (os : ScanOS) (c : Snapshot) :
  exists hn c',
    scan_process_filenames os c = (Ok hn, c') /\ same_shape c c' /\
    (hn = true ->
     forall r p, r ∈ values c -> store c !! r = Some p ->
       name_retrieved os (dwProcessId p)) /\
    (hn = false -> exists pid, ~ name_retrieved os pid).
Proof.
  unfold scan_process_filenames.
  pose proof (fun r c0 => proj1 (refresh_filename_step os r c0)) as Hshape.
  pose proof (fun r c0 => proj1 (proj2 (refresh_filename_step os r c0))) as Hok.
  destruct (and_each_ok _ (values c) Hok true c) as (hn & Hhn).
  pose proof (and_each_shape _ (values c) Hshape true c) as Hs.
  destruct (and_each (refresh_filename os) (values c) true c) as [res c'] eqn:E.
  cbn [fst snd] in *. subst res. exists hn, c'.
  split; [reflexivity|]. split; [exact Hs|]. split.
  - intros ->.
    destruct (and_each_true (refresh_filename os) (name_retrieved os)
                (values c) Hshape) with (complete := true) (c := c)
      as (_ & Hall).
    + intros r c0 p Hp.
      apply (proj2 (proj2 (refresh_filename_step os r c0)) p Hp).
    + rewrite E. reflexivity.
    + exact Hall.
  - intros ->.
    destruct (and_each_false (refresh_filename os)
                (exists pid, ~ name_retrieved os pid)
                (values c)) with (complete := true) (c := c) as [H|H].
    + intros r c0 Hf.
      destruct (store c0 !! r) as [p|] eqn:Ep.
      * exists (dwProcessId p).
        apply (proj2 (proj2 (refresh_filename_step os r c0)) p Ep), Hf.
      * unfold refresh_filename, read_object in Hf. rewrite Ep in Hf.
        discriminate.
    + rewrite E. reflexivity.
    + discriminate.
    + exact H.
Qed.

Lemma backfill_threads_spec (os : ScanOS) (c : Snapshot) :
  exists ht c',
    backfill_threads os c = (Ok ht, c') /\ same_shape c c' /\
    (ht = false -> exists pid code, os_scan_threads os pid = Failure code).
Proof.
  unfold backfill_threads, try_each.
  match goal with |- context [and_each ?f _ _ _] => set (step := f) end.
  assert (Hshape : forall r c0, same_shape c0 (snd (step r c0))).
  { intros r c0. subst step. cbn beta. rewrite backfill_step.
    destruct (store c0 !! r) as [p|] eqn:E; [|apply same_shape_refl].
    destruct (threadIds p); [apply same_shape_refl|].
    destruct (os_scan_threads os (dwProcessId p)); [|apply same_shape_refl].
    apply (write_object_shape r p); auto. }
  assert (Hok : forall r c0, exists b, fst (step r c0) = Ok b).
  { intros r c0. subst step. cbn beta. rewrite backfill_step.
    destruct (store c0 !! r) as [p|]; [|eauto].
    destruct (threadIds p); [eauto|].
    destruct (os_scan_threads os (dwProcessId p)); eauto. }
  destruct (and_each_ok step (values c) Hok true c) as (ht & Hht).
  pose proof (and_each_shape step (values c) Hshape true c) as Hs.
  destruct (and_each step (values c) true c) as [res c'] eqn:E.
  cbn [fst snd] in *. subst res. exists ht, c'.
  split; [reflexivity|]. split; [exact Hs|].
  intros ->.
  destruct (and_each_false step
              (exists pid code, os_scan_threads os pid = Failure code)
              (values c)) with (complete := true) (c := c) as [H|H].
  - intros r c0. subst step. cbn beta. rewrite backfill_step.
    destruct (store c0 !! r) as [p|]; [|discriminate].
    destruct (threadIds p); [discriminate|].
    destruct (os_scan_threads os (dwProcessId p)) eqn:Em; [discriminate|].
    eauto.
  - rewrite E. reflexivity.
  - discriminate.
  - exact H.
Qed.

(** *** The sources of [scan] *)

Lemma own_scan_processes_and_threads (os : ScanOS) (c : Snapshot) :
  own_if_tracked os (snd (scan_processes_and_threads os c)) = own_if_tracked os c.
Proof.
  destruct (CreateToolhelp32Snapshot os) as [th|code] eqn:E.
  - pose proof (scan_processes_and_threads_reconciled os c th E) as H.
    destruct (scan_processes_and_threads os c) as [res c']. apply H.
  - unfold scan_processes_and_threads. rewrite E. reflexivity.
Qed.

Lemma own_scan_processes_fast (os : ScanOS) (c : Snapshot) :
  own_if_tracked os (snd (scan_processes_fast os c)) = own_if_tracked os c.
Proof.
  destruct (EnumProcesses os) as [pids|code] eqn:E.
  - pose proof (scan_processes_fast_reconciled os c pids E) as H.
    destruct (scan_processes_fast os c) as [res c']. apply H.
  - unfold scan_processes_fast. rewrite E. reflexivity.
Qed.

(** The first phase of [scan], before the session source is run. *)
Lemma scan_sources_spec (os : ScanOS) (c : Snapshot) (rb : Result bool)
    (cb : Snapshot) :
  well_keyed c ->
  try_except (scan_processes_and_threads os ;; ret true)
    (fun _ => scan_processes_fast os ;; backfill_threads os) c = (rb, cb) ->
  well_keyed cb /\
  own_if_tracked os cb = own_if_tracked os c /\
  (rb = Ok false ->
   exists pid code, os_scan_threads os pid = Failure code) /\
  (is_Ok rb = true ->
   (exists code, CreateToolhelp32Snapshot os = Failure code) ->
   exists pids, EnumProcesses os = Success pids).
Proof.
  intros Hc. unfold try_except, bind, ret.
  pose proof (well_keyed_scan_processes_and_threads os c Hc) as Hw1.
  pose proof (own_scan_processes_and_threads os c) as Ho1.
  destruct (scan_processes_and_threads os c) as [[u|e] ct] eqn:Et;
    cbn [snd] in *.
  - intros [= <- <-]. split; [exact Hw1|]. split; [exact Ho1|].
    split; [discriminate|]. intros _ (code & Ec).
    unfold scan_processes_and_threads in Et. rewrite Ec in Et. discriminate.
  - pose proof (scan_processes_fast_kept os ct Hw1) as (Hw2 & _).
    pose proof (own_scan_processes_fast os ct) as Ho2.
    destruct (scan_processes_fast os ct) as [[u|e'] cf] eqn:Ef; cbn [snd] in *.
    + destruct (backfill_threads_spec os cf) as (ht & cb' & Eb & Hs & Hf).
      rewrite Eb. intros [= <- <-].
      split; [exact (same_shape_well_keyed _ _ Hs Hw2)|].
      split.
      { rewrite <- Ho1, <- Ho2. unfold own_if_tracked.
        rewrite (same_shape_keys _ _ Hs). reflexivity. }
      split.
      { intros [= ->]. apply Hf. reflexivity. }
      intros _ _. destruct (EnumProcesses os) as [pids|code] eqn:Ee; [eauto|].
      unfold scan_processes_fast in Ef. rewrite Ee in Ef. discriminate.
    + intros [= <- <-]. split; [exact Hw2|]. split; [congruence|].
      split; discriminate.
Qed.

(** *** The verdict of a loop over the processes *)

Lemma verdict_at_same_shape (verdict : Process -> bool) (c c' : Snapshot)
    (r : nat) :
  (forall p q, dwProcessId p = dwProcessId q -> verdict p = verdict q) ->
  same_shape c c' ->
  verdict_at verdict c' r = verdict_at verdict c r.
Proof.
  intros Hv (_ & Hs). unfold verdict_at.
  assert (E : (dwProcessId <$> store c') !! r = (dwProcessId <$> store c) !! r)
    by (rewrite Hs; reflexivity).
  rewrite !list_lookup_fmap in E.
  destruct (store c' !! r) as [p'|], (store c !! r) as [p|]; cbn in E;
    try discriminate; [|reflexivity].
  apply Hv. congruence.
Qed.

(** When every step answers with the verdict on its own process, and no
    step changes the verdict on any process, the loop answers with the
    conjunction of the verdicts at its start. *)
Lemma and_each_verdict (step : nat -> C bool) (verdict : Process -> bool)
    (refs : list nat) :
  (forall r c, fst (step r c) = Ok (verdict_at verdict c r)) ->
  (forall r c r',
     verdict_at verdict (snd (step r c)) r' = verdict_at verdict c r') ->
  forall complete c,
    fst (and_each step refs complete c)
    = Ok (complete && forallb (verdict_at verdict c) refs).
Proof.
  intros Hstep Hkeep. induction refs as [|r refs IH]; intros complete c;
    cbn [and_each forallb].
  - cbn. rewrite andb_true_r. reflexivity.
  - unfold bind. specialize (Hstep r c). pose proof (Hkeep r c) as Hk.
    destruct (step r c) as [[b|e] c1]; cbn [fst snd] in *; [|discriminate].
    injection Hstep as ->. rewrite IH.
    assert (Hall : forall l, forallb (verdict_at verdict c1) l
                             = forallb (verdict_at verdict c) l).
    { intros l. induction l as [|x l IHl]; cbn [forallb]; [reflexivity|].
      rewrite Hk, IHl. reflexivity. }
    rewrite Hall, andb_assoc. reflexivity.
Qed.

Lemma forallb_verdict (verdict : Process -> bool) (c : Snapshot)
    (refs : list nat) :
  forallb (verdict_at verdict c) refs = true <->
  forall r p, r ∈ refs -> store c !! r = Some p -> verdict p = true.
Proof.
  rewrite forallb_forall. unfold verdict_at. split.
  - intros H r p Hr Hp. apply list_elem_of_In in Hr. specialize (H r Hr).
    rewrite Hp in H. exact H.
  - intros H r Hr. apply list_elem_of_In in Hr.
    destruct (store c !! r) as [p|] eqn:Hp; [|reflexivity].
    apply (H r p Hr Hp).
Qed.

Lemma values_elem (c : Snapshot) (pid : Z) (r : nat) :
  processDict c !! pid = Some r -> r ∈ values c.
Proof.
  intros H. unfold values. apply list_elem_of_fmap.
  exists (pid, r). split; [reflexivity|]. apply elem_of_map_to_list. exact H.
Qed.

(** On a well-keyed container a verdict on every object of the
    dictionary is a verdict on every tracked process ID. *)
Lemma verdict_keys (f : Z -> bool) (c : Snapshot) :
  well_keyed c ->
  (forall r p, r ∈ values c -> store c !! r = Some p ->
     f (dwProcessId p) = true) <->
  (forall pid, pid ∈ keys c -> f pid = true).
Proof.
  intros Hw. split.
  - intros H pid Hpid. unfold keys in Hpid. apply elem_of_dom in Hpid.
    destruct Hpid as (r & Hr). destruct (Hw pid r Hr) as (p & Hp & <-).
    apply (H r p); [eapply values_elem, Hr|exact Hp].
  - intros H r p Hr Hp. unfold values in Hr. apply list_elem_of_fmap in Hr.
    destruct Hr as ((pid & r') & -> & Hin). cbn in Hp.
    apply elem_of_map_to_list in Hin.
    destruct (Hw pid r' Hin) as (p' & Hp' & Hpid).
    assert (p' = p) as -> by congruence. rewrite Hpid.
    apply H. unfold keys. apply elem_of_dom. eauto.
Qed.

Lemma modules_scanned_true (os : ScanOS) (pid : Z) :
  modules_scanned os pid = true <->
  exists bases, os_scan_modules os pid = Success bases.
Proof.
  unfold modules_scanned. destruct (os_scan_modules os pid) as [bases|code].
  - split; eauto.
  - split; [discriminate|]. intros (bases & H). discriminate.
Qed.

Lemma name_found_true (os : ScanOS) (pid : Z) :
  name_found os pid = true <-> name_retrieved os pid.
Proof.
  unfold name_found, name_retrieved.
  destruct (os_get_image_name os pid) as [n|e].
  - split; [eauto|]. intros (n' & [= <-] & H). exact H.
  - split; [discriminate|]. intros (n' & H & _). discriminate.
Qed.

Lemma scan_modules_verdict (os : ScanOS) (c : Snapshot) :
  fst (scan_modules os c)
  = Ok (forallb
          (verdict_at (fun p => modules_scanned os (dwProcessId p)) c)
          (values c)).
Proof.
  unfold scan_modules, try_each.
  rewrite (and_each_verdict _
             (fun p => modules_scanned os (dwProcessId p))); [reflexivity| |].
  - intros r c0. cbn beta. rewrite scan_modules_step.
    unfold verdict_at, modules_scanned.
    destruct (store c0 !! r) as [p|]; [|reflexivity].
    destruct (os_scan_modules os (dwProcessId p)); reflexivity.
  - intros r c0 r'. apply verdict_at_same_shape; [intros p q ->; reflexivity|].
    cbn beta. rewrite scan_modules_step.
    destruct (store c0 !! r) as [p|] eqn:E; [|apply same_shape_refl].
    destruct (os_scan_modules os (dwProcessId p)); [|apply same_shape_refl].
    apply (write_object_shape r p); auto.
Qed.

Lemma scan_process_filenames_verdict (os : ScanOS) (c : Snapshot) :
  fst (scan_process_filenames os c)
  = Ok (forallb (verdict_at (fun p => name_found os (dwProcessId p)) c)
          (values c)).
Proof.
  unfold scan_process_filenames.
  rewrite (and_each_verdict _ (fun p => name_found os (dwProcessId p)));
    [reflexivity| |].
  - intros r c0. unfold refresh_filename, read_object, verdict_at.
    destruct (store c0 !! r) as [p|] eqn:E; [|reflexivity].
    unfold Process_get_filename, read_object. cbn [store write_object].
    rewrite list_lookup_insert_eq by (eapply lookup_lt_Some, E).
    cbn [fileName set_fileName name_truthy negb dwProcessId]. cbv zeta.
    unfold name_found.
    destruct (os_get_image_name os (dwProcessId p)) as [n|e];
      [|reflexivity].
    destruct (name_truthy n); reflexivity.
  - intros r c0 r'. apply verdict_at_same_shape; [intros p q ->; reflexivity|].
    apply refresh_filename_step.
Qed.

Lemma backfill_threads_verdict (os : ScanOS) (c : Snapshot) :
  fst (backfill_threads os c)
  = Ok (forallb (verdict_at (threads_backfilled os) c) (values c)).
Proof.
  unfold backfill_threads, try_each.
  rewrite (and_each_verdict _ (threads_backfilled os)); [reflexivity| |].
  - intros r c0. cbn beta. rewrite backfill_step.
    unfold verdict_at, threads_backfilled.
    destruct (store c0 !! r) as [p|]; [|reflexivity].
    destruct (threadIds p); [reflexivity|].
    destruct (os_scan_threads os (dwProcessId p)); reflexivity.
  - intros r c0 r'. cbn beta. rewrite backfill_step.
    destruct (store c0 !! r) as [p|] eqn:E; [|reflexivity].
    destruct (threadIds p) as [|t ts] eqn:Et; [reflexivity|].
    destruct (os_scan_threads os (dwProcessId p)) as [tids|code] eqn:Es;
      [|reflexivity].
    cbn [snd]. unfold verdict_at, write_object. cbn [store].
    destruct (decide (r' = r)) as [->|Hne].
    + rewrite list_lookup_insert_eq by (eapply lookup_lt_Some, E).
      rewrite E. unfold threads_backfilled.
      cbn [threadIds set_threadIds dwProcessId]. rewrite Et, Es.
      destruct tids; reflexivity.
    + rewrite list_lookup_insert_ne by congruence. reflexivity.
Qed.

(** The thread flag of the first phase of [scan]. *)
Lemma scan_sources_threads (os : ScanOS) (c : Snapshot) (ht : bool)
    (cb : Snapshot) :
  try_except (scan_processes_and_threads os ;; ret true)
    (fun _ => scan_processes_fast os ;; backfill_threads os) c = (Ok ht, cb) ->
  ht = true <-> threads_complete os c.
Proof.
  unfold try_except, bind, ret, threads_complete.
  destruct (scan_processes_and_threads os c) as [[u|e] ct].
  - intros [= <- _]. tauto.
  - destruct (scan_processes_fast os ct) as [[u|e'] cf]; [|discriminate].
    cbn [snd]. pose proof (backfill_threads_verdict os cf) as Hv.
    destruct (backfill_threads os cf) as [rb cb']. cbn [fst] in Hv.
    intros [= -> _]. injection Hv as ->. apply forallb_verdict.
Qed.

Lemma own_scan_processes (os : ScanOS) (c : Snapshot) :
  own_if_tracked os (snd (scan_processes os c)) = own_if_tracked os c.
Proof.
  destruct (WTSEnumerateProcesses os) as [infos|code] eqn:E.
  - pose proof (scan_processes_reconciled os c infos E) as H.
    destruct (scan_processes os c) as [res c']. apply H.
  - unfold scan_processes. rewrite E. reflexivity.
Qed.

Lemma own_scan_sources (os : ScanOS) (c : Snapshot) :
  own_if_tracked os
    (snd (try_except (scan_processes_and_threads os ;; ret true)
            (fun _ => scan_processes_fast os ;; backfill_threads os) c))
  = own_if_tracked os c.
Proof.
  unfold try_except, bind, ret.
  pose proof (own_scan_processes_and_threads os c) as Ho1.
  destruct (scan_processes_and_threads os c) as [[u|e] ct]; cbn [snd] in *;
    [exact Ho1|].
  pose proof (own_scan_processes_fast os ct) as Ho2.
  destruct (scan_processes_fast os ct) as [[u|e'] cf]; cbn [snd] in *;
    [|congruence].
  destruct (backfill_threads_spec os cf) as (ht & cb & Eb & Hs & _).
  rewrite Eb. cbn [snd]. rewrite <- Ho1, <- Ho2. unfold own_if_tracked.
  rewrite (same_shape_keys _ _ Hs). reflexivity.
Qed.

(** [scan] never adds and never removes the caller's own ID, whatever
    its outcome. *)
Lemma own_scan (os : ScanOS) (c : Snapshot) :
  own_if_tracked os (snd (scan os c)) = own_if_tracked os c.
Proof.
  unfold scan. unfold bind at 1. unfold try_finally.
  pose proof (own_scan_sources os c) as Hb.
  destruct (try_except (scan_processes_and_threads os ;; ret true)
              (fun _ => scan_processes_fast os ;; backfill_threads os) c)
    as [rb cb].
  pose proof (own_scan_processes os cb) as H1.
  destruct (scan_processes os cb) as [[u|e] c1]; cbn [snd] in *;
    [|congruence].
  destruct rb as [ht|e]; cbn [snd]; [|congruence].
  unfold bind.
  destruct (scan_modules_spec os c1) as (hm & c2 & Em & Hs12 & _).
  rewrite Em.
  destruct (scan_process_filenames_spec os c2) as (hn & c3 & En & Hs23 & _).
  rewrite En. cbn [ret snd]. rewrite <- Hb, <- H1. unfold own_if_tracked.
  rewrite (same_shape_keys _ _ Hs23), (same_shape_keys _ _ Hs12).
  reflexivity.
Qed.

(** When [scan] returns, the session source has answered and decides
    what is tracked. *)
Lemma scan_keys (os : ScanOS) (c : Snapshot) (flag : bool) (c' : Snapshot) :
  scan os c = (Ok flag, c') ->
  exists infos,
    WTSEnumerateProcesses os = Success infos /\
    keys c' = reported os infos.*1 ∪ own_if_tracked os c.
Proof.
  intros Hrun. unfold scan in Hrun. unfold bind at 1 in Hrun.
  unfold try_finally in Hrun.
  pose proof (own_scan_sources os c) as Hob.
  destruct (try_except (scan_processes_and_threads os ;; ret true)
              (fun _ => scan_processes_fast os ;; backfill_threads os) c)
    as [rb cb].
  cbn [snd] in Hob.
  destruct (WTSEnumerateProcesses os) as [infos|code] eqn:Ew.
  2:{ unfold scan_processes in Hrun. rewrite Ew in Hrun. discriminate. }
  pose proof (scan_processes_reconciled os cb infos Ew) as Hrec.
  destruct (scan_processes os cb) as [[[]|e] c1]; [|discriminate].
  destruct rb as [ht|e]; [|discriminate].
  destruct Hrec as (_ & _ & _ & Hkeys & _). specialize (Hkeys eq_refl).
  unfold bind in Hrun.
  destruct (scan_modules_spec os c1) as (hm & c2 & Em & Hs12 & _).
  rewrite Em in Hrun.
  destruct (scan_process_filenames_spec os c2) as (hn & c3 & En & Hs23 & _).
  rewrite En in Hrun. unfold ret in Hrun. injection Hrun as _ <-.
  exists infos. split; [reflexivity|].
  rewrite (same_shape_keys _ _ Hs23), (same_shape_keys _ _ Hs12), Hkeys, Hob.
  reflexivity.
Qed.

(** C5, as amended.  When [scan] returns on a well-keyed container, the
    session source has answered, and the tracked IDs are exactly the ones
    it lists, the caller's own excluded, plus the caller's own if it was
    tracked: the module and file name steps remove nothing, whatever
    fails in them, and an ID that only the toolhelp or the fast source
    had reported is not kept.  The result is true exactly when every
    per-process step succeeded: the thread backfill after a fallback to
    the fast source, for every process tracked at that point that had
    threads; the module scan and the file name retrieval, for every
    tracked process.  The result is false only if some per-process step
    failed: a thread scan, a module scan, or a file name retrieval.  A
    failure of the toolhelp source does not by itself make the result
    false; it makes [scan] use the fast source, which then must have
    answered.  When anything is tracked afterwards, [get_process_ids]
    returns exactly the tracked IDs and changes nothing. *)
Theorem scan_completeness (os : ScanOS) (c : Snapshot) (Hc : well_keyed c)
    (flag : bool) (c' : Snapshot) (Hrun : scan os c = (Ok flag, c')) :
  (exists infos,
     WTSEnumerateProcesses os = Success infos /\
     keys c' = reported os infos.*1 ∪ own_if_tracked os c) /\
  (flag = true <->
   threads_complete os c /\
   forall pid, pid ∈ keys c' ->
     (exists bases, os_scan_modules os pid = Success bases) /\
     name_retrieved os pid) /\
  (flag = false ->
   exists pid,
     (exists code, os_scan_threads os pid = Failure code) \/
     (exists code, os_scan_modules os pid = Failure code) \/
     ~ name_retrieved os pid) /\
  ((exists code, CreateToolhelp32Snapshot os = Failure code) ->
   exists pids, EnumProcesses os = Success pids) /\
  (processDict c' <> ∅ -> get_process_ids os c' = (Ok (keys c'), c')).
Proof.
  pose proof (scan_keys os c flag c' Hrun) as Hkeys.
  unfold scan in Hrun. unfold bind at 1 in Hrun. unfold try_finally in Hrun.
  destruct (try_except (scan_processes_and_threads os ;; ret true)
              (fun _ => scan_processes_fast os ;; backfill_threads os) c)
    as [rb cb] eqn:Eb.
  destruct (scan_sources_spec os c rb cb Hc Eb) as (Hwb & Hob & Hbf & Hfast).
  pose proof (well_keyed_scan_processes os cb Hwb) as Hw1.
  destruct (scan_processes os cb) as [[[]|e] c1]; [|discriminate].
  cbn [snd] in Hw1.
  destruct rb as [ht|e]; [|discriminate].
  pose proof (scan_sources_threads os c ht cb Eb) as Hthreads.
  unfold bind in Hrun.
  pose proof (scan_modules_verdict os c1) as Vm.
  destruct (scan_modules_spec os c1) as (hm & c2 & Em & Hs12 & Hmt & Hmf).
  rewrite Em in Hrun, Vm. cbn [fst] in Vm. injection Vm as Vm.
  pose proof (scan_process_filenames_verdict os c2) as Vn.
  destruct (scan_process_filenames_spec os c2)
    as (hn & c3 & En & Hs23 & Hnt & Hnf).
  rewrite En in Hrun, Vn. cbn [fst] in Vn. injection Vn as Vn.
  unfold ret in Hrun. injection Hrun as <- <-.
  assert (Hk32 : keys c3 = keys c2) by apply (same_shape_keys _ _ Hs23).
  assert (Hk21 : keys c2 = keys c1) by apply (same_shape_keys _ _ Hs12).
  pose proof (same_shape_well_keyed _ _ Hs12 Hw1) as Hw2.
  assert (Hm : hm = true <->
               forall pid, pid ∈ keys c3 ->
                 exists bases, os_scan_modules os pid = Success bases).
  { rewrite Vm, forallb_verdict, (verdict_keys (modules_scanned os) c1 Hw1).
    rewrite Hk32, Hk21. split; intros H pid Hpid;
      apply modules_scanned_true, H, Hpid. }
  assert (Hn : hn = true <->
               forall pid, pid ∈ keys c3 -> name_retrieved os pid).
  { rewrite Vn, forallb_verdict, (verdict_keys (name_found os) c2 Hw2).
    rewrite Hk32. split; intros H pid Hpid; apply name_found_true, H, Hpid. }
  split; [exact Hkeys|]. split; [|split; [|split]].
  - rewrite !andb_true_iff, Hthreads, Hm, Hn. split.
    + intros ((Ht & Hms) & Hns). split; [exact Ht|]. intros pid Hpid.
      split; [apply Hms|apply Hns]; exact Hpid.
    + intros (Ht & Hall). split; [split; [exact Ht|]|];
        intros pid Hpid; apply (Hall pid Hpid).
  - intros Hflag. apply andb_false_iff in Hflag. destruct Hflag as [Hflag| ->].
    + apply andb_false_iff in Hflag. destruct Hflag as [-> | ->].
      * destruct (Hbf eq_refl) as (pid & code & H). exists pid. eauto.
      * destruct (Hmf eq_refl) as (pid & code & H). exists pid. eauto.
    + destruct (Hnf eq_refl) as (pid & H). exists pid. auto.
  - apply Hfast. reflexivity.
  - intros Hne. unfold get_process_ids, bind, initialize_snapshot.
    rewrite bool_decide_eq_false_2 by exact Hne. reflexivity.
Qed.

(** C5 as stated fails when only the toolhelp source fails: the fast
    source lists 4, 8, 12 and the caller, the session source lists 4, 8
    and the caller, every per-process step succeeds; [scan] on an empty
    container returns true, and process 12, which the fast source had
    found, is not tracked. *)
Lemma scan_true_despite_toolhelp_failure :
  CreateToolhelp32Snapshot toolhelp_denied = Failure win32.ERROR_ACCESS_DENIED /\
  12 ∈ reported toolhelp_denied [4; 8; 12; 1234] /\
  exists c',
    scan toolhelp_denied empty_Snapshot = (Ok true, c') /\
    fst (get_process_ids toolhelp_denied c') = Ok {[4; 8]} /\
    12 ∉ keys c'.
Proof.
  split; [reflexivity|]. split; [vm_compute; reflexivity|].
  eexists. split; [vm_compute; reflexivity|].
  split; [vm_compute; reflexivity|]. vm_compute. discriminate.
Qed.

Lemma empty_Snapshot_well_keyed : well_keyed empty_Snapshot.
Proof. intros pid r H. cbn in H. rewrite lookup_empty in H. discriminate. Defined.

Lemma two_processes_well_keyed : well_keyed two_processes.
Proof.
  intros pid r H. unfold two_processes in *. cbn [processDict store] in *.
  apply lookup_insert_Some in H. destruct H as [(<- & <-)|(Hne & H)].
  - eexists. split; reflexivity.
  - apply lookup_singleton_Some in H. destruct H as (<- & <-).
    eexists. split; reflexivity.
Defined.

(** The amended statement at work.  On the run above the result is true
    although the toolhelp source failed, and the tracked IDs are those
    of the session source.  Where the threads of a process that has some
    cannot be enumerated either, the backfill fails and the result is
    false, every module scan and every file name retrieval having
    succeeded. *)
Lemma scan_completeness_witness :
  (exists c',
     scan toolhelp_denied empty_Snapshot = (Ok true, c') /\
     keys c' = reported toolhelp_denied [4; 8; 1234]
               ∪ own_if_tracked toolhelp_denied empty_Snapshot /\
     threads_complete toolhelp_denied empty_Snapshot /\
     name_retrieved toolhelp_denied 4) /\
  (exists c',
     scan threads_denied two_processes = (Ok false, c') /\
     keys c' = {[4; 8]} /\
     ~ threads_complete threads_denied two_processes /\
     get_process_ids threads_denied c' = (Ok {[4; 8]}, c')).
Proof.
  split.
  - destruct (scan toolhelp_denied empty_Snapshot) as [res c'] eqn:E.
    assert (Hres : res = Ok true) by (vm_compute in E; congruence).
    subst res. exists c'. split; [reflexivity|].
    destruct (scan_completeness toolhelp_denied empty_Snapshot
                empty_Snapshot_well_keyed true c' E)
      as ((infos & Hi & Hk) & Ht & _ & _).
    cbn in Hi. injection Hi as <-. split; [exact Hk|].
    destruct (proj1 Ht eq_refl) as (Htc & Hall). split; [exact Htc|].
    apply (Hall 4). rewrite Hk. vm_compute. reflexivity.
  - destruct (scan threads_denied two_processes) as [res c'] eqn:E.
    assert (Hres : res = Ok false) by (vm_compute in E; congruence).
    subst res. exists c'. split; [reflexivity|].
    destruct (scan_completeness threads_denied two_processes
                two_processes_well_keyed false c' E)
      as ((infos & Hi & Hk) & Ht & _ & _ & Hids).
    cbn in Hi. injection Hi as <-.
    assert (Hk' : keys c' = {[4; 8]}).
    { rewrite Hk. vm_compute. reflexivity. }
    split; [exact Hk'|]. split.
    + intros Htc. enough (false = true) by discriminate.
      apply Ht. split; [exact Htc|]. intros pid _. split.
      * eexists. reflexivity.
      * eexists. split; reflexivity.
    + rewrite <- Hk'. apply Hids. intros Hd.
      assert (H4 : 4 ∈ keys c') by (rewrite Hk'; vm_compute; reflexivity).
      unfold keys in H4. rewrite Hd in H4. vm_compute in H4. discriminate.
Defined.

(** C4, as amended.  A [scan] runs the session source last, and that
    source decides what is tracked: when [scan] returns, the tracked IDs
    are exactly the ones the session source lists, the caller's own
    excluded, plus the caller's own if it was tracked before; so every
    ID the session source reports is tracked, and every other ID is
    gone, also one that the toolhelp or the fast source reported earlier
    in the same scan.  Whatever the outcome of [scan], the caller's own
    ID is tracked afterwards exactly when it was before.

    Each enumeration pass by itself reconciles the container with what
    its own source reports.  With [B] the IDs tracked before and [S] the
    IDs the source reports, the caller's own excluded: after the pass
    every ID of [S] is tracked; when the pass returns, which it does when
    no handle fails to close, the tracked IDs are exactly [S], plus the
    caller's own ID if it was in [B], so every other ID of [B] that is
    not reported is gone; the caller's own ID is never added and never
    removed.  This holds for the fast source, for the toolhelp source,
    whose IDs are those of its process entries and the owners of its
    thread entries, and for the session source. *)
Theorem scan_reconciles (os : ScanOS) (c : Snapshot) :
  (let '(res, c') := scan os c in
   own_if_tracked os c' = own_if_tracked os c /\
   forall flag,
     res = Ok flag ->
     exists infos,
       WTSEnumerateProcesses os = Success infos /\
       keys c' = reported os infos.*1 ∪ own_if_tracked os c /\
       (forall pid, pid ∈ reported os infos.*1 -> pid ∈ keys c') /\
       (forall pid, pid ∈ keys c -> pid ∉ reported os infos.*1 ->
          pid <> GetCurrentProcessId os -> pid ∉ keys c')) /\
  (forall pids,
     EnumProcesses os = Success pids ->
     let '(res, c') := scan_processes_fast os c in
     reconciled os (reported os pids) c res c') /\
  (forall th,
     CreateToolhelp32Snapshot os = Success th ->
     let '(res, c') := scan_processes_and_threads os c in
     reconciled os (reported os (toolhelp_pids th)) c res c') /\
  (forall infos,
     WTSEnumerateProcesses os = Success infos ->
     let '(res, c') := scan_processes os c in
     reconciled os (reported os infos.*1) c res c').
Proof.
  split; [|split; [|split]].
  - pose proof (own_scan os c) as Hown.
    pose proof (scan_keys os c) as Hkeys.
    destruct (scan os c) as [res c']. cbn [snd] in Hown.
    split; [exact Hown|]. intros flag ->.
    destruct (Hkeys flag c' eq_refl) as (infos & Hi & Hk).
    exists infos. split; [exact Hi|]. split; [exact Hk|]. split.
    + intros pid Hpid. rewrite Hk. apply elem_of_union. left. exact Hpid.
    + intros pid _ Hnot Hown' Hin. rewrite Hk in Hin.
      apply elem_of_union in Hin. destruct Hin as [Hin|Hin]; [tauto|].
      unfold own_if_tracked in Hin. apply elem_of_intersection in Hin.
      destruct Hin as (_ & Hin). apply elem_of_singleton in Hin. tauto.
  - intros pids. apply scan_processes_fast_reconciled.
  - intros th. apply scan_processes_and_threads_reconciled.
  - intros infos. apply scan_processes_reconciled.
Qed.

(** C4 as stated fails for [scan]: on a container that tracks 4 and 16,
    with the toolhelp source denied, the fast source, which is consulted,
    reports 4, 8, 12 and the caller; after the scan process 12 is not
    tracked, because the session source, consulted last, does not list
    it. *)
Lemma scan_drops_what_only_the_fast_source_reports :
  CreateToolhelp32Snapshot toolhelp_denied = Failure win32.ERROR_ACCESS_DENIED /\
  EnumProcesses toolhelp_denied = Success [4; 8; 12; 1234] /\
  12 ∈ reported toolhelp_denied [4; 8; 12; 1234] /\
  (exists cf,
     scan_processes_fast toolhelp_denied two_processes = (Ok tt, cf) /\
     12 ∈ keys cf) /\
  exists flag c',
    scan toolhelp_denied two_processes = (Ok flag, c') /\
    12 ∉ keys c'.
Proof.
  split; [reflexivity|]. split; [reflexivity|].
  split; [vm_compute; reflexivity|]. split.
  - eexists. split; [vm_compute; reflexivity|]. vm_compute. reflexivity.
  - eexists _, _. split; [vm_compute; reflexivity|]. vm_compute. discriminate.
Qed.

(** The scan at work on a container that tracks 4 and 16, the session
    source listing 4, 8 and the caller: afterwards 4 and 8 are tracked.
    The fast pass alone on the same container, its source reporting 4, 8
    and the caller: 8 appears, 16 is gone. *)
Lemma scan_reconciles_witness :
  (exists flag c',
     scan toolhelp_denied two_processes = (Ok flag, c') /\
     keys c' = {[4; 8]}) /\
  exists c',
    scan_processes_fast all_sources two_processes = (Ok tt, c') /\
    reconciled all_sources (reported all_sources [4; 8; 1234]) two_processes
      (Ok tt) c' /\
    keys c' = {[4; 8]}.
Proof.
  split.
  - destruct (scan_reconciles toolhelp_denied two_processes) as (H & _).
    destruct (scan toolhelp_denied two_processes) as [res c'] eqn:E.
    assert (Hres : res = Ok true) by (vm_compute in E; congruence).
    subst res. exists true, c'. split; [reflexivity|].
    destruct H as (_ & H).
    destruct (H true eq_refl) as (infos & Hi & Hk & _).
    cbn in Hi. injection Hi as <-. rewrite Hk. vm_compute. reflexivity.
  - destruct (scan_reconciles all_sources two_processes) as (_ & H & _).
    specialize (H [4; 8; 1234] eq_refl).
    destruct (scan_processes_fast all_sources two_processes) as [res c'] eqn:E.
    assert (Hres : res = Ok tt) by (vm_compute in E; congruence).
    subst res. exists c'. split; [reflexivity|]. split; [exact H|].
    vm_compute in E. injection E as <-. vm_compute. reflexivity.
Defined.

(** C10.  [scan_processes_fast] keeps what it does not add or delete:
    on a well-keyed container, whatever the outcome of the call, every
    process ID tracked both before and after it is mapped to the same
    reference, and the object behind that reference is the same as
    before, with its file name, thread and module collections and handle;
    the container is still well keyed. *)
Theorem scan_processes_fast_frame (os : ScanOS) (c : Snapshot)
    (Hc : well_keyed c) :
  let '(res, c') := scan_processes_fast os c in
  well_keyed c' /\
  forall pid r r',
    processDict c !! pid = Some r -> processDict c' !! pid = Some r' ->
    r' = r /\ store c' !! r = store c !! r.
Proof.
  pose proof (scan_processes_fast_kept os c Hc) as H.
  destruct (scan_processes_fast os c) as [res c']. exact H.
Qed.

(** The frame at work: the fast source reports 4 and 8; process 16
    vanishes, process 8 appears, and process 4 keeps its object, with
    its handle, its name and its thread. *)
Lemma scan_processes_fast_frame_witness :
  well_keyed two_processes /\
  exists c',
    scan_processes_fast all_sources two_processes = (Ok tt, c') /\
    keys c' = {[4; 8]} /\
    processDict c' !! 4 = Some 0%nat /\
    store c' !! 0%nat
    = Some (mkProcessObj 4 (Some (mkHandle 100 0x400)) (Some "System") [41] []).
Proof.
  split; [exact two_processes_well_keyed|].
  pose proof (scan_processes_fast_frame all_sources two_processes
                two_processes_well_keyed) as H.
  destruct (scan_processes_fast all_sources two_processes) as [res c'] eqn:E.
  destruct H as (_ & H).
  assert (E4 : processDict c' !! 4 = Some 0%nat).
  { vm_compute in E. injection E as <- <-. reflexivity. }
  destruct (H 4 0%nat 0%nat eq_refl E4) as (_ & Hs).
  exists c'. split; [|split; [|split]].
  - vm_compute in E. injection E as <- <-. reflexivity.
  - vm_compute in E. injection E as <- <-. vm_compute. reflexivity.
  - exact E4.
  - rewrite Hs. reflexivity.
Defined.

End ContainerProofs.
(** * Further properties of the process *)

(** ** Closing the handle *)

Theorem close_handle_forgets_handle (os : OS) (s : ProcessState) :
  let '(res, s') := close_handle os s in
  hProcess s' = None /\
  dwProcessId s' = dwProcessId s /\
  threadIds s' = threadIds s /\
  match held s with
  | None => res = Ok tt /\ log s' = log s
  | Some h =>
      let answer := os_CloseHandle os (log s) (value h) in
      log s' = EvCloseHandle (value h) answer :: log s /\
      res = match answer with
            | Success _ => Ok tt
            | Failure code => Raise (WindowsError code)
            end
  end.
Proof.
  unfold close_handle, try_finally, bind, get_hProcess, set_hProcess, held,
    Handle_close, ret.
  destruct (hProcess s) as [h|]; cbn; [|auto].
  destruct (value h =? win32.INVALID_HANDLE_VALUE); cbn; [auto|].
  unfold os_call.
  destruct (os_CloseHandle os (log s) (value h)) as [[]|code]; cbn; auto.
Qed.

(** ** Operations that only look *)

Lemma mquery_emits (P : Event -> Prop) (os : OS) (a : Z) :
  (forall acc p r, P (EvOpenProcess acc p r)) ->
  (forall h r, P (EvCloseHandle h r)) ->
  (forall msg, P (EvWarn msg)) ->
  (forall h r, P (EvVirtualQueryEx h a r)) ->
  emits P (mquery os a).
Proof.
  intros Ho Hc Hw Hq. unfold mquery, VirtualQueryEx.
  apply emits_bind; [apply get_handle_emits; assumption|intros h].
  apply emits_os_call. intros r. apply Hq.
Qed.

Lemma iter_memory_map_loop_emits (P : Event -> Prop) (os : OS) :
  (forall a, emits P (mquery os a)) ->
  forall fuel prevAddr currentAddr maxAddr s,
  exists evs,
    log (snd (iter_memory_map_loop os fuel prevAddr currentAddr maxAddr s))
    = evs ++ log s /\ Forall P evs.
Proof.
  intros Hq. induction fuel as [|fuel IH]; intros prev cur mx s;
    cbn [iter_memory_map_loop].
  - exists []. split; [reflexivity|constructor].
  - destruct (_ && _); [|exists []; split; [reflexivity|constructor]].
    destruct (Hq cur s) as (evs1 & H1 & F1).
    destruct (mquery os cur s) as [[mbi|e] s1]; cbn [snd] in H1.
    + destruct (IH cur (BaseAddress mbi + RegionSize mbi) mx s1)
        as (evs2 & H2 & F2).
      destruct (iter_memory_map_loop os fuel cur _ mx s1) as [[rest stop] s2].
      cbn [snd] in *. exists (evs2 ++ evs1).
      rewrite H2, H1, app_assoc. split; [reflexivity|].
      apply Forall_app. auto.
    + exists evs1.
      destruct e as [code| | | | |];
        try (destruct (code =? win32.ERROR_INVALID_PARAMETER)); cbn [snd]; auto.
Qed.

Lemma get_memory_map_emits (P : Event -> Prop) (os : OS)
    (minAddr maxAddr : option Z) :
  (forall a, emits P (mquery os a)) ->
  emits P (get_memory_map os minAddr maxAddr).
Proof.
  intros Hq s. unfold get_memory_map, iter_memory_map.
  destruct (MemoryAddresses.align_address_range minAddr maxAddr) as [lo hi].
  destruct (iter_memory_map_loop_emits P os Hq (S (Z.to_nat (hi - lo)))
              (lo - 1) lo hi s) as (evs & H & F).
  destruct (iter_memory_map_loop os _ (lo - 1) lo hi s) as [[regions stop] s'].
  exists evs. destruct stop; cbn [snd] in *; auto.
Qed.

Lemma mquery_read_only (os : OS) (a : Z) : emits read_only (mquery os a).
Proof. apply mquery_emits; intros; split; reflexivity. Qed.

(** The memory map and the best-effort read only look at the target:
    whatever the system answers, [get_memory_map] and [peek] make no call
    that writes, allocates, frees or changes a protection, and none that
    suspends, resumes or enumerates threads. *)
Theorem memory_map_and_peek_are_read_only (os : OS) :
  (forall minAddr maxAddr, emits read_only (get_memory_map os minAddr maxAddr)) /\
  (forall lpBaseAddress nSize, emits read_only (peek os lpBaseAddress nSize)).
Proof.
  pose proof (mquery_read_only os) as Hq.
  assert (Hmap : forall lo hi, emits read_only (get_memory_map os lo hi))
    by (intros; apply get_memory_map_emits, Hq).
  split; [exact Hmap|]. intros a n.
  assert (Hh : forall R, emits read_only (get_handle os R))
    by (intros R; apply get_handle_emits; intros; split; reflexivity).
  unfold peek, except_WindowsError, ReadProcessMemory.
  destruct (0 <? n); [|apply emits_ret].
  apply emits_try_except.
  - apply emits_bind; [apply Hh|intros h].
    apply emits_bind; [apply Hmap|intros memory]. cbv zeta.
    destruct (0 <? _); [|apply emits_ret].
    apply emits_os_call. intros r. split; reflexivity.
  - intros [code| | | | |]; try apply emits_raise.
    apply emits_bind; [apply emits_warn; split; reflexivity|intros _].
    apply emits_ret.
Qed.

(** ** Suspending and resuming: all or nothing *)

Section AllThreads.

Variables (op undo : Z -> M Z).
(** What a log says was done, and what it says was undone. *)
Variables (did undid : list Event -> list Z).

Hypothesis did_app : forall l1 l2, did (l1 ++ l2) = did l1 ++ did l2.
Hypothesis undid_app : forall l1 l2, undid (l1 ++ l2) = undid l1 ++ undid l2.
Hypothesis op_event :
  forall t s, exists ev,
    log (snd (op t s)) = ev :: log s /\
    did [ev] = (if is_Ok (fst (op t s)) then [t] else []) /\
    undid [ev] = [].
Hypothesis undo_event :
  forall t s, exists ev,
    log (snd (undo t s)) = ev :: log s /\ did [ev] = [] /\ undid [ev] = [t].





End AllThreads.









(** The roll-back at work: thread 1 is suspended, thread 2 refuses,
    thread 1 is resumed and thread 3 is never touched. *)
Example suspend_rolls_back_example :
  exists s',
    suspend Stubborn.os Demo.process
    = (Raise (WindowsError win32.ERROR_ACCESS_DENIED), s') /\
    rev (log s')
    = [EvScanThreads 1234 (Success [1; 2; 3]);
       EvSuspendThread 1 (Success 0);
       EvSuspendThread 2 (Failure win32.ERROR_ACCESS_DENIED);
       EvResumeThread 1 (Success 1)].
Proof. eexists. split; vm_compute; reflexivity. Qed.

(** ** Writing *)

Lemma get_handle_reuse (os : OS) (R : Z) (s : ProcessState) (h : ProcessHandle) :
  held s = Some h -> has_rights (dwAccess h) R ->
  get_handle os R s = (Ok h, s).
Proof.
  intros Hh HR. rewrite get_handle_spec, Hh.
  apply lor_absorbs_iff in HR. rewrite HR, Z.eqb_refl. reflexivity.
Qed.

Lemma poke_access_covers :
  has_rights poke_access win32.PROCESS_QUERY_INFORMATION /\
  has_rights poke_access win32.PROCESS_VM_OPERATION.
Proof. split; apply lor_absorbs_iff; reflexivity. Qed.

Lemma mquery_held (os : OS) (a : Z) (s : ProcessState) (h : ProcessHandle) :
  held s = Some h -> has_rights (dwAccess h) poke_access ->
  mquery os a s = VirtualQueryEx os h a s.
Proof.
  intros Hh HR. unfold mquery, bind.
  rewrite (get_handle_reuse os _ s h Hh); [reflexivity|].
  eapply has_rights_trans; [exact HR|apply poke_access_covers].
Qed.

Lemma mprotect_held (os : OS) (a n p : Z) (s : ProcessState) (h : ProcessHandle) :
  held s = Some h -> has_rights (dwAccess h) poke_access ->
  mprotect os a n p s = VirtualProtectEx os h a n p s.
Proof.
  intros Hh HR. unfold mprotect, bind.
  rewrite (get_handle_reuse os _ s h Hh); [reflexivity|].
  eapply has_rights_trans; [exact HR|apply poke_access_covers].
Qed.

Lemma get_handle_held (os : OS) (Hos : opens_valid_handles os) (R : Z)
    (s s1 : ProcessState) (h : ProcessHandle) :
  get_handle os R s = (Ok h, s1) ->
  held s1 = Some h /\ has_rights (dwAccess h) R.
Proof.
  intros H. destruct (get_handle_call os Hos R s _ _ H) as (_ & _ & _ & Hok).
  destruct (Hok h eq_refl) as (H1 & H2 & _). auto.
Qed.

Lemma mquery_no_mutation (os : OS) (a : Z) : emits no_mutation (mquery os a).
Proof.
  pose proof (get_handle_no_mutation os).
  unfold mquery, VirtualQueryEx. emits_go.
Qed.

Lemma filter_mutation_emits {A} (c : M A) (s : ProcessState) :
  emits no_mutation c ->
  List.filter is_mutation (log (snd (c s))) = List.filter is_mutation (log s).
Proof.
  intros H. destruct (H s) as (evs & -> & F).
  rewrite List.filter_app.
  replace (List.filter is_mutation evs) with (@nil Event); [reflexivity|].
  symmetry. induction F as [|ev evs Hev F IH]; [reflexivity|].
  cbn. rewrite Hev. exact IH.
Qed.

(** [poke] refuses to write where there is nothing to write to: when
    the region at the address is reported without content (free,
    reserved, guarded or inaccessible), the call raises
    [ERROR_INVALID_ADDRESS] right after the query, and no call that
    changes the memory of the target has been made. *)
Theorem poke_needs_content (os : OS) (lpBaseAddress : Z)
    (lpBuffer : option (list Byte.byte)) (s s1 s2 : ProcessState)
    (h : ProcessHandle) (mbi : MemoryBasicInformation) :
  get_handle os poke_access s = (Ok h, s1) ->
  mquery os lpBaseAddress s1 = (Ok mbi, s2) ->
  MBI.has_content mbi = false ->
  poke os lpBaseAddress lpBuffer s
  = (Raise (WindowsError win32.ERROR_INVALID_ADDRESS), s2) /\
  List.filter is_mutation (log s2) = List.filter is_mutation (log s).
Proof.
  intros Hh Hq Hc. split.
  - unfold poke, bind. fold poke_access. rewrite Hh, Hq, Hc. reflexivity.
  - pose proof (filter_mutation_emits _ s (get_handle_no_mutation os poke_access))
      as H1.
    pose proof (filter_mutation_emits _ s1 (mquery_no_mutation os lpBaseAddress))
      as H2.
    rewrite Hh in H1. rewrite Hq in H2. cbn [snd] in *. congruence.
Qed.

Lemma poke_needs_content_witness :
  exists s2,
    poke Guarded.os 0x11000 (Some [Byte.x41]) Sealed.process
    = (Raise (WindowsError win32.ERROR_INVALID_ADDRESS), s2) /\
    List.filter is_mutation (log s2) = [].
Proof.
  eexists.
  apply (poke_needs_content Guarded.os 0x11000 (Some [Byte.x41]) Sealed.process
           Sealed.process
           (emit (EvVirtualQueryEx 100 0x11000 (Success (Guarded.page 0x11000)))
              Sealed.process)
           (mkHandle 100 poke_access) (Guarded.page 0x11000));
    reflexivity.
Defined.

(** [poke] puts the protection back.  When the region at the address has
    content and is not writeable as it is, and the temporary protection
    is granted, the calls made after the query are, in this order: the
    change to the temporary protection, one write of the buffer at the
    address, and the change back to the protection the query reported;
    the last one is made whether the write succeeded or not.  The call
    returns what the write returned, unless putting the protection back
    fails, which is raised. *)
Theorem poke_restores_protection (os : OS) (Hos : opens_valid_handles os)
    (lpBaseAddress : Z) (lpBuffer : list Byte.byte) (s s1 s2 : ProcessState)
    (h : ProcessHandle) (mbi : MemoryBasicInformation) (prot old : Z) :
  let n := Z.of_nat (length lpBuffer) in
  let changed := EvVirtualProtectEx (value h) lpBaseAddress n prot (Success old) in
  get_handle os poke_access s = (Ok h, s1) ->
  mquery os lpBaseAddress s1 = (Ok mbi, s2) ->
  MBI.has_content mbi = true ->
  temporary_protection mbi = Some prot ->
  os_VirtualProtectEx os (log s2) (value h) lpBaseAddress n prot = Success old ->
  let written :=
    os_WriteProcessMemory os (changed :: log s2) (value h) lpBaseAddress
      lpBuffer in
  let write := EvWriteProcessMemory (value h) lpBaseAddress lpBuffer written in
  let restored :=
    os_VirtualProtectEx os (write :: changed :: log s2) (value h)
      lpBaseAddress n (Protect mbi) in
  let '(res, s') := poke os lpBaseAddress (Some lpBuffer) s in
  log s'
  = EvVirtualProtectEx (value h) lpBaseAddress n (Protect mbi) restored
    :: write :: changed :: log s2 /\
  res = match restored, written with
        | Failure code, _ => Raise (WindowsError code)
        | Success _, Success count => Ok count
        | Success _, Failure code => Raise (WindowsError code)
        end.
Proof.
  intros n changed Hh Hq Hc Hp Hchange written write restored.
  destruct (get_handle_held os Hos _ _ _ _ Hh) as (Hheld1 & HR).
  assert (Hheld2 : held s2 = Some h).
  { rewrite (mquery_held os _ s1 h Hheld1 HR) in Hq.
    unfold VirtualQueryEx, os_call in Hq.
    destruct (os_VirtualQueryEx os (log s1) (value h) lpBaseAddress);
      [|discriminate].
    injection Hq as _ Hs. subst s2. exact Hheld1. }
  unfold poke, bind. fold poke_access. rewrite Hh, Hq, Hc. cbn [negb].
  fold (temporary_protection mbi). rewrite Hp.
  unfold try_except, bind, py_len, ret. fold n.
  rewrite (mprotect_held os _ _ _ s2 h Hheld2 HR).
  unfold VirtualProtectEx, os_call. rewrite Hchange.
  unfold try_finally, WriteProcessMemory, os_call, bind.
  cbn [log emit]. fold changed. fold written.
  set (s3 := emit changed s2).
  assert (Hheld4 : forall r, held (emit (EvWriteProcessMemory (value h)
                      lpBaseAddress lpBuffer r) s3) = Some h)
    by (intros r; exact Hheld2).
  destruct written as [count|code] eqn:Ew;
    rewrite (mprotect_held os _ _ _ _ h (Hheld4 _) HR);
    unfold VirtualProtectEx, os_call; subst s3; cbn [log emit];
    subst restored write; cbn beta;
    destruct (os_VirtualProtectEx os _ (value h) lpBaseAddress n (Protect mbi))
      as [p0|code0]; cbn [log emit]; split; reflexivity.
Qed.

Lemma Sealed_opens_valid_handles : opens_valid_handles Sealed.os.
Proof. exact Demo_opens_valid_handles. Defined.

(** On a page of read-only code: executable read-write for the write,
    then executable read-only again. *)
Lemma poke_restores_protection_witness :
  exists s',
    poke Sealed.os 0x10000 (Some [Byte.x41; Byte.x42]) Sealed.process
    = (Ok 2, s') /\
    log s'
    = [EvVirtualProtectEx 100 0x10000 2 win32.PAGE_EXECUTE_READ
         (Success win32.PAGE_EXECUTE_READ);
       EvWriteProcessMemory 100 0x10000 [Byte.x41; Byte.x42] (Success 2);
       EvVirtualProtectEx 100 0x10000 2 win32.PAGE_EXECUTE_READWRITE
         (Success win32.PAGE_EXECUTE_READ);
       EvVirtualQueryEx 100 0x10000 (Success (Sealed.page 0x10000))].
Proof.
  pose proof (poke_restores_protection Sealed.os Sealed_opens_valid_handles
                0x10000 [Byte.x41; Byte.x42] Sealed.process Sealed.process
                (emit (EvVirtualQueryEx 100 0x10000 (Success (Sealed.page 0x10000)))
                   Sealed.process)
                (mkHandle 100 poke_access) (Sealed.page 0x10000)
                win32.PAGE_EXECUTE_READWRITE win32.PAGE_EXECUTE_READ
                eq_refl eq_refl eq_refl eq_refl eq_refl) as H.
  destruct (poke Sealed.os 0x10000 (Some [Byte.x41; Byte.x42]) Sealed.process)
    as [res s'].
  exists s'. destruct H as (Hl & Hr). split.
  - rewrite Hr. reflexivity.
  - rewrite Hl. reflexivity.
Defined.

(** When nothing has to be changed, or the change is refused, [poke]
    writes all the same and leaves the protection alone afterwards.  A
    region that is writeable as it is gets the write and nothing else.
    After a refused change the word size of the target is looked up for
    the warning, which can open a new handle and close the one [poke]
    got at its start; if the lookup raises, [poke] ends there and
    nothing is written; otherwise the change is warned about and the
    write is made, with the handle [poke] got at its start, and no
    second protection call follows.  When the write is made the call
    returns what the write returned. *)
Theorem poke_writes_without_restoring (os : OS) (Hos : opens_valid_handles os)
    (lpBaseAddress : Z) (lpBuffer : list Byte.byte) (s s1 s2 : ProcessState)
    (h : ProcessHandle) (mbi : MemoryBasicInformation) :
  let n := Z.of_nat (length lpBuffer) in
  let outcome (written : OsResult Z) :=
    match written with
    | Success count => Ok count
    | Failure code => Raise (WindowsError code)
    end in
  get_handle os poke_access s = (Ok h, s1) ->
  mquery os lpBaseAddress s1 = (Ok mbi, s2) ->
  MBI.has_content mbi = true ->
  let '(res, s') := poke os lpBaseAddress (Some lpBuffer) s in
  (temporary_protection mbi = None ->
   let written :=
     os_WriteProcessMemory os (log s2) (value h) lpBaseAddress lpBuffer in
   log s'
   = EvWriteProcessMemory (value h) lpBaseAddress lpBuffer written :: log s2 /\
   res = outcome written) /\
  (forall prot code,
     temporary_protection mbi = Some prot ->
     os_VirtualProtectEx os (log s2) (value h) lpBaseAddress n prot
     = Failure code ->
     let refused :=
       emit (EvVirtualProtectEx (value h) lpBaseAddress n prot (Failure code))
         s2 in
     match get_bits os refused with
     | (Raise e, s3) => res = Raise e /\ s' = s3
     | (Ok _, s3) =>
         let warned := EvWarn "Failed to adjust page permissions" :: log s3 in
         let written :=
           os_WriteProcessMemory os warned (value h) lpBaseAddress lpBuffer in
         log s'
         = EvWriteProcessMemory (value h) lpBaseAddress lpBuffer written
           :: warned /\
         res = outcome written
     end /\
     exists looked,
       log (snd (get_bits os refused)) = looked ++ log refused /\
       Forall no_mutation looked).
Proof.
  intros n outcome Hh Hq Hc.
  destruct (get_handle_held os Hos _ _ _ _ Hh) as (Hheld1 & HR).
  assert (Hheld2 : held s2 = Some h).
  { rewrite (mquery_held os _ s1 h Hheld1 HR) in Hq.
    unfold VirtualQueryEx, os_call in Hq.
    destruct (os_VirtualQueryEx os (log s1) (value h) lpBaseAddress);
      [|discriminate].
    injection Hq as _ Hs. subst s2. exact Hheld1. }
  unfold poke. unfold bind at 1 2. fold poke_access. rewrite Hh, Hq, Hc.
  cbn [negb]. fold (temporary_protection mbi).
  destruct (temporary_protection mbi) as [prot|].
  - unfold bind at 1. unfold try_except. unfold bind at 1 2, py_len, ret.
    fold n.
    rewrite (mprotect_held os _ _ _ s2 h Hheld2 HR).
    unfold VirtualProtectEx, os_call.
    destruct (os_VirtualProtectEx os (log s2) (value h) lpBaseAddress n prot)
      as [old|code] eqn:Ep.
    + cbn beta iota. unfold try_finally.
      destruct (WriteProcessMemory os h lpBaseAddress (Some lpBuffer) _)
        as [r3 s3].
      match goal with
      | |- context [match ?c s3 with _ => _ end] =>
          destruct (c s3) as [[u|e] s4]
      end;
        (split; [discriminate|]);
        intros prot' code' [= <-]; rewrite Ep; discriminate.
    + cbn beta iota. unfold bind at 1.
      match goal with
      | |- context [get_bits os ?st] => set (refused := st)
      end.
      pose proof (get_bits_no_mutation os refused) as Hlook.
      destruct (get_bits os refused) as [[bits|e] s3] eqn:Eb.
      * unfold bind at 1, warn. unfold try_finally, WriteProcessMemory, os_call.
        cbn [log emit].
        destruct (os_WriteProcessMemory os _ (value h) lpBaseAddress lpBuffer)
          as [count|code'] eqn:Ew; cbn [log emit]; (split; [discriminate|]);
          intros prot' code0 [= <-]; rewrite Ep; intros [= <-];
          fold refused; rewrite Eb; cbv zeta; rewrite Ew;
          (split; [split; reflexivity|exact Hlook]).
      * split; [discriminate|].
        intros prot' code0 [= <-]. rewrite Ep. intros [= <-].
        fold refused. rewrite Eb.
        split; [split; reflexivity|exact Hlook].
  - unfold bind at 1. unfold ret, try_finally, WriteProcessMemory, os_call.
    destruct (os_WriteProcessMemory os _ (value h) lpBaseAddress lpBuffer)
      as [count|code'] eqn:Ew; cbn [log emit]; (split; [|discriminate]);
      intros _; split; reflexivity.
Qed.

Lemma Locked_opens_valid_handles : opens_valid_handles Locked.os.
Proof. exact Demo_opens_valid_handles. Defined.

(** On a private read-write page the write is the only call after the
    query.  On a page of read-only code whose protection cannot be
    changed, the lookup of the word size opens a handle with more rights
    and closes handle 100; the write is then made with handle 100. *)
Lemma poke_writes_without_restoring_witness :
  (exists s',
     poke Demo.os 0x10000 (Some [Byte.x41]) Sealed.process = (Ok 1, s') /\
     log s'
     = [EvWriteProcessMemory 100 0x10000 [Byte.x41] (Success 1);
        EvVirtualQueryEx 100 0x10000 (Success (Demo.page 0x10000))]) /\
  (exists s',
     poke Locked.os 0x10000 (Some [Byte.x41]) Sealed.process = (Ok 1, s') /\
     rev (log s')
     = [EvVirtualQueryEx 100 0x10000 (Success (Sealed.page 0x10000));
        EvVirtualProtectEx 100 0x10000 1 win32.PAGE_EXECUTE_READWRITE
          (Failure win32.ERROR_ACCESS_DENIED);
        EvOpenProcess 0x1428 1234 (Success 102);
        EvCloseHandle 100 (Success tt);
        EvIsWow64Process 102 (Ok false);
        EvWarn "Failed to adjust page permissions";
        EvWriteProcessMemory 100 0x10000 [Byte.x41] (Success 1)]).
Proof.
  split.
  - pose proof (poke_writes_without_restoring Demo.os Demo_opens_valid_handles
                  0x10000 [Byte.x41] Sealed.process Sealed.process
                  (emit (EvVirtualQueryEx 100 0x10000
                           (Success (Demo.page 0x10000))) Sealed.process)
                  (mkHandle 100 poke_access) (Demo.page 0x10000)
                  eq_refl eq_refl eq_refl) as H.
    destruct (poke Demo.os 0x10000 (Some [Byte.x41]) Sealed.process)
      as [res s'].
    exists s'. destruct H as (H & _). destruct (H eq_refl) as (Hl & Hr). split.
    + rewrite Hr. reflexivity.
    + rewrite Hl. reflexivity.
  - pose proof (poke_writes_without_restoring Locked.os
                  Locked_opens_valid_handles
                  0x10000 [Byte.x41] Sealed.process Sealed.process
                  (emit (EvVirtualQueryEx 100 0x10000
                           (Success (Sealed.page 0x10000))) Sealed.process)
                  (mkHandle 100 poke_access) (Sealed.page 0x10000)
                  eq_refl eq_refl eq_refl) as H.
    destruct (poke Locked.os 0x10000 (Some [Byte.x41]) Sealed.process)
      as [res s'].
    exists s'. destruct H as (_ & H).
    destruct (H win32.PAGE_EXECUTE_READWRITE win32.ERROR_ACCESS_DENIED
                eq_refl eq_refl) as (H1 & _).
    destruct s' as [pid hp tids l w]. vm_compute in H1.
    destruct H1 as (Hl & Hr). cbn [log]. split.
    + rewrite Hr. reflexivity.
    + rewrite Hl. reflexivity.
Defined.

(** A [write] that returns has written everything: it made exactly one
    write call, of the whole buffer at the address, and the system
    reported as many bytes written as the buffer holds. *)
Theorem write_is_complete (os : OS) (lpBaseAddress : Z)
    (lpBuffer : list Byte.byte) (s s' : ProcessState) :
  write os lpBaseAddress (Some lpBuffer) s = (Ok tt, s') ->
  exists h after before,
    log s'
    = after
      ++ EvWriteProcessMemory h lpBaseAddress lpBuffer
           (Success (Z.of_nat (length lpBuffer)))
      :: before ++ log s /\
    Forall (fun ev => is_write ev = false) (after ++ before).
Proof.
  set (P := fun ev => is_write ev = false).
  assert (Hh : forall R, emits P (get_handle os R))
    by (intros R; apply get_handle_emits; reflexivity).
  assert (Hq : forall a, emits P (mquery os a))
    by (intros a; apply mquery_emits; reflexivity).
  assert (Hp : forall a n p, emits P (mprotect os a n p)).
  { intros a n p. unfold mprotect, VirtualProtectEx.
    apply emits_bind; [apply Hh|intros h].
    apply emits_os_call. reflexivity. }
  unfold write. unfold bind at 1.
  destruct (poke os lpBaseAddress (Some lpBuffer) s) as [[r|e] s1] eqn:Epoke;
    [|discriminate].
  unfold bind, py_len, ret, raise_WinError.
  destruct (Z.eqb_spec r (Z.of_nat (length lpBuffer))) as [->|Hne];
    cbn [negb]; [|discriminate].
  intros [= <-]. revert Epoke.
  unfold poke. unfold bind at 1.
  destruct (Hh (Z.lor win32.PROCESS_VM_WRITE
                  (Z.lor win32.PROCESS_VM_OPERATION
                     win32.PROCESS_QUERY_INFORMATION)) s) as (evs1 & H1 & F1).
  destruct (get_handle os _ s) as [[h|e] s0]; [|discriminate].
  cbn [snd] in H1. unfold bind at 1.
  destruct (Hq lpBaseAddress s0) as (evs2 & H2 & F2).
  destruct (mquery os lpBaseAddress s0) as [[mbi|e] s2]; [|discriminate].
  cbn [snd] in H2.
  destruct (negb (MBI.has_content mbi)); [discriminate|].
  cbv zeta. unfold bind at 1.
  match goal with
  | |- context [match ?c s2 with _ => _ end] => set (first := c)
  end.
  assert (F3 : emits P first).
  { subst first. destruct (if _ || _ then _ else _) as [p|]; [|apply emits_ret].
    apply emits_try_except.
    - unfold py_len. apply emits_bind; [apply emits_ret|intros n].
      apply emits_bind; [apply Hp|intros _]. apply emits_ret.
    - intros e.
      apply emits_bind; [apply get_bits_emits; reflexivity|intros _].
      apply emits_bind; [apply emits_warn; reflexivity|intros _].
      apply emits_ret. }
  destruct (F3 s2) as (evs3 & H3 & F3').
  destruct (first s2) as [[prot|e] s3]; [|discriminate]. cbn [snd] in H3.
  match goal with |- context [try_finally _ ?c] => set (cleanup := c) end.
  assert (F5 : emits P cleanup).
  { subst cleanup. destruct prot; [|apply emits_ret]. unfold py_len.
    apply emits_bind; [apply emits_ret|intros n].
    apply emits_bind; [apply Hp|intros _]. apply emits_ret. }
  unfold try_finally, WriteProcessMemory, os_call.
  destruct (os_WriteProcessMemory os (log s3) (value h) lpBaseAddress lpBuffer)
    as [count|code] eqn:Ew.
  2:{ destruct (cleanup _) as [[u|e] s5]; discriminate. }
  match goal with |- context [cleanup ?st] => set (s4 := st) end.
  destruct (F5 s4) as (evs5 & H5 & F5').
  destruct (cleanup s4) as [[u|e] s5]; [|discriminate].
  cbn [snd] in H5. intros [= -> ->].
  exists (value h), evs5, (evs3 ++ evs2 ++ evs1). split.
  - rewrite H5. subst s4. cbn [log emit]. rewrite H3, H2, H1, <- !app_assoc.
    reflexivity.
  - rewrite !Forall_app. auto.
Qed.

Lemma write_is_complete_witness :
  exists s' h after before,
    write Demo.os 0x10000 (Some [Byte.x41]) Demo.process = (Ok tt, s') /\
    log s'
    = after ++ EvWriteProcessMemory h 0x10000 [Byte.x41] (Success 1)
      :: before ++ log Demo.process.
Proof.
  destruct (write Demo.os 0x10000 (Some [Byte.x41]) Demo.process)
    as [res s'] eqn:E.
  assert (Hres : res = Ok tt) by (vm_compute in E; congruence).
  subst res.
  destruct (write_is_complete Demo.os 0x10000 [Byte.x41] Demo.process s' E)
    as (h & after & before & Hl & _).
  exists s', h, after, before. auto.
Defined.

(** ** Address and buffer predicates *)

Lemma query_or_false_emits (P : Event -> Prop) (os : OS) (a : Z) :
  emits P (mquery os a) -> emits P (query_or_false os a).
Proof.
  intros Hq. unfold query_or_false, except_WindowsError.
  apply emits_try_except.
  - apply emits_bind; [exact Hq|intros mbi; apply emits_ret].
  - intros [code| | | | |]; try apply emits_raise.
    destruct (code =? win32.ERROR_INVALID_PARAMETER);
      [apply emits_ret|apply emits_raise].
Qed.

Lemma query_or_false_raise (os : OS) (a : Z) (s s' : ProcessState) (e : Exn) :
  query_or_false os a s = (Raise e, s') ->
  exists code, e = WindowsError code /\ code <> win32.ERROR_INVALID_PARAMETER.
Proof.
  unfold query_or_false, except_WindowsError, try_except, bind, ret, raise.
  destruct (mquery os a s) as [[mbi|e0] s0] eqn:Eq; [discriminate|].
  destruct (mquery_raise os a s s0 e0 Eq) as (code & -> & _).
  destruct (Z.eqb_spec code win32.ERROR_INVALID_PARAMETER); [discriminate|].
  intros [= <- <-]. eauto.
Qed.

(** The address predicates ([is_pointer], [is_address_valid],
    [is_address_free], ...) only look at the target and never raise
    "invalid parameter": they make no call that changes memory or touches
    threads, the only region they query is the one at the address, the
    only exception they can raise is a [WindowsError], and its code is
    never [ERROR_INVALID_PARAMETER], which is answered [False].  Their
    answer follows the one query they make: a region gives the result of
    the test on it, the error [ERROR_INVALID_PARAMETER] gives [False],
    and any other error is raised as it is. *)
Theorem address_predicates_hide_invalid_parameter (os : OS)
    (test : MemoryBasicInformation -> bool) (address : Z) :
  emits read_only (address_predicate os test address) /\
  emits (probes address) (address_predicate os test address) /\
  forall s,
    let '(res, s') := address_predicate os test address s in
    match res with
    | Ok _ => True
    | Raise e =>
        exists code,
          e = WindowsError code /\ code <> win32.ERROR_INVALID_PARAMETER
    end /\
    s' = snd (mquery os address s) /\
    match fst (mquery os address s) with
    | Ok mbi => res = Ok (test mbi)
    | Raise (WindowsError code) =>
        if code =? win32.ERROR_INVALID_PARAMETER then res = Ok false
        else res = Raise (WindowsError code)
    | Raise e => res = Raise e
    end.
Proof.
  assert (Hemits : forall P, emits P (mquery os address) ->
            emits P (address_predicate os test address)).
  { intros P Hq. unfold address_predicate.
    apply emits_bind; [apply query_or_false_emits, Hq|].
    intros [mbi|]; apply emits_ret. }
  split; [apply Hemits, mquery_read_only|].
  split; [apply Hemits, mquery_emits; cbn; auto|].
  intros s.
  pose proof (query_or_false_raise os address s) as Hraise.
  unfold address_predicate, bind.
  assert (Hq : query_or_false os address s
               = match mquery os address s with
                 | (Ok mbi, s1) => (Ok (Some mbi), s1)
                 | (Raise (WindowsError code), s1) =>
                     if code =? win32.ERROR_INVALID_PARAMETER
                     then (Ok None, s1)
                     else (Raise (WindowsError code), s1)
                 | (Raise e, s1) => (Raise e, s1)
                 end).
  { unfold query_or_false, except_WindowsError, try_except, bind, ret, raise.
    destruct (mquery os address s) as [[mbi|[code| | | | |]] s1];
      try reflexivity.
    destruct (code =? win32.ERROR_INVALID_PARAMETER); reflexivity. }
  rewrite Hq in *.
  destruct (mquery os address s) as [[mbi|e] s1]; cbn [fst snd ret].
  - auto.
  - destruct e as [code| | | | |];
      try (split; [eapply Hraise; reflexivity|auto]).
    destruct (code =? win32.ERROR_INVALID_PARAMETER) eqn:Ec; cbn [ret].
    + auto.
    + split; [eapply Hraise; reflexivity|auto].
Qed.

(** What the loop of a buffer predicate does to the log. *)
Lemma buffer_loop_emits (P : Event -> Prop) (os : OS)
    (test : MemoryBasicInformation -> bool) (address : Z) :
  emits P (mquery os address) ->
  forall fuel size s,
  exists evs,
    log (snd (buffer_loop os test fuel address size s)) = evs ++ log s /\
    Forall P evs.
Proof.
  intros Hq.
  pose proof (query_or_false_emits P os address Hq) as Hqf.
  induction fuel as [|fuel IH]; intros size s; cbn [buffer_loop];
    (destruct (0 <? size); [|exists []; split; [reflexivity|constructor]]).
  - exists []. split; [reflexivity|constructor].
  - destruct (Hqf s) as (evs1 & H1 & F1).
    destruct (query_or_false os address s) as [[[mbi|]|e] s1]; cbn [snd] in *;
      try (exists evs1; split; assumption).
    destruct (negb (test mbi)); [exists evs1; split; assumption|].
    destruct (IH (size - RegionSize mbi) s1) as (evs2 & H2 & F2).
    exists (evs2 ++ evs1). rewrite H2, H1, app_assoc.
    split; [reflexivity|]. apply Forall_app. auto.
Qed.

(** The buffer predicates ([is_buffer], [is_buffer_readable], ...) only
    ever look at the region of the first byte: every region query they
    make is a query at [address], however many iterations the loop makes
    and whatever the size of the buffer; and they make no other call to
    the target than queries. *)
Theorem buffer_predicates_probe_one_address (os : OS)
    (test : MemoryBasicInformation -> bool) (fuel : nat) (address size : Z)
    (s : ProcessState) :
  exists evs,
    log (snd (buffer_predicate os test fuel address size s)) = evs ++ log s /\
    Forall (probes address) evs.
Proof.
  unfold buffer_predicate.
  destruct (size <=? 0); [exists []; split; [reflexivity|constructor]|].
  apply buffer_loop_emits, mquery_emits; cbn; auto.
Qed.

Lemma query_or_false_region (os : OS) (a : Z) (mbi : MemoryBasicInformation)
    (s : ProcessState) :
  sufficient s win32.PROCESS_QUERY_INFORMATION ->
  region_is os a mbi ->
  exists s',
    query_or_false os a s = (Ok (Some mbi), s') /\
    sufficient s' win32.PROCESS_QUERY_INFORMATION.
Proof.
  intros (h & Hh & HR) Hreg.
  unfold query_or_false, except_WindowsError, try_except, bind, mquery, bind.
  rewrite (get_handle_reuse os _ s h Hh HR).
  unfold VirtualQueryEx, os_call. rewrite Hreg. cbn [ret].
  eexists. split; [reflexivity|]. exists h. split; [exact Hh|exact HR].
Qed.

Lemma buffer_loop_region (os : OS) (test : MemoryBasicInformation -> bool)
    (a : Z) (mbi : MemoryBasicInformation) :
  region_is os a mbi -> test mbi = true -> 0 < RegionSize mbi ->
  forall fuel size s,
    sufficient s win32.PROCESS_QUERY_INFORMATION ->
    (Z.to_nat size <= fuel)%nat ->
    fst (buffer_loop os test fuel a size s) = Returns true.
Proof.
  intros Hreg Ht Hpos.
  induction fuel as [|fuel IH]; intros size s Hs Hfuel; cbn [buffer_loop];
    (destruct (Z.ltb_spec 0 size) as [Hsz|Hsz]; [|reflexivity]); [lia|].
  destruct (query_or_false_region os a mbi s Hs Hreg) as (s' & -> & Hs').
  rewrite Ht. cbn [negb]. apply IH; [exact Hs'|lia].
Qed.

(** Because of that, the size hardly matters.  While the target is
    quiescent, so that the region at [address] is reported the same every
    time, a buffer predicate answers [True] for a buffer of any positive
    size as soon as the region of its first byte passes the test, also
    when the buffer reaches far beyond the end of that region.  (A handle
    that can query is held, so that no handle has to be opened; the bound
    on the iterations is the size, which is always enough.) *)
Theorem buffer_predicates_ignore_the_extent (os : OS)
    (test : MemoryBasicInformation -> bool) (fuel : nat) (address size : Z)
    (mbi : MemoryBasicInformation) (s : ProcessState) :
  sufficient s win32.PROCESS_QUERY_INFORMATION ->
  region_is os address mbi ->
  test mbi = true ->
  0 < RegionSize mbi ->
  0 < size ->
  (Z.to_nat size <= fuel)%nat ->
  fst (buffer_predicate os test fuel address size s) = Returns true.
Proof.
  intros Hs Hreg Ht Hpos Hsz Hfuel. unfold buffer_predicate.
  destruct (Z.leb_spec size 0); [lia|].
  apply (buffer_loop_region os test address mbi); assumption.
Qed.

Lemma buffer_predicates_ignore_the_extent_witness :
  MBI.has_content (Island.page 0x11000) = false /\
  fst (is_buffer Island.os (Z.to_nat 0x2000) 0x10000 0x2000 Island.process)
  = Returns true.
Proof.
  split; [reflexivity|].
  apply (buffer_predicates_ignore_the_extent Island.os MBI.has_content
           (Z.to_nat 0x2000) 0x10000 0x2000 (Island.page 0x10000)).
  - exists (mkHandle 100 win32.PROCESS_QUERY_INFORMATION).
    split; [reflexivity|apply has_rights_refl].
  - intros l h. reflexivity.
  - reflexivity.
  - reflexivity.
  - reflexivity.
  - apply le_n.
Defined.

(** ** Strict read *)

Lemma buffer_predicate_emits (P : Event -> Prop) (os : OS)
    (test : MemoryBasicInformation -> bool) (fuel : nat) (address size : Z)
    (s : ProcessState) :
  emits P (mquery os address) ->
  exists evs,
    log (snd (buffer_predicate os test fuel address size s)) = evs ++ log s /\
    Forall P evs.
Proof.
  intros Hq. unfold buffer_predicate.
  destruct (size <=? 0); [exists []; split; [reflexivity|constructor]|].
  apply buffer_loop_emits, Hq.
Qed.

Lemma probes_handle (os : OS) (R a : Z) : emits (probes a) (get_handle os R).
Proof. apply get_handle_emits; cbn; auto. Qed.

Lemma probes_mquery (os : OS) (a : Z) : emits (probes a) (mquery os a).
Proof. apply mquery_emits; cbn; auto. Qed.

(** A [read] that returns has read everything it was asked for: the size
    is positive, the bytes returned are exactly that many, and they are
    what the one read call, of that size at that address, was answered
    with.  Before it the target was only asked to open or close a handle
    and to describe the region at the address. *)
Theorem read_returns_the_size_asked (os : OS) (fuel : nat)
    (lpBaseAddress nSize : Z) (s s' : ProcessState) (data : list Byte.byte) :
  read os fuel lpBaseAddress nSize s = (Returns data, s') ->
  Z.of_nat (length data) = nSize /\
  0 < nSize /\
  exists h before,
    log s'
    = EvReadProcessMemory h lpBaseAddress nSize (Success data)
      :: before ++ log s /\
    Forall (probes lpBaseAddress) before.
Proof.
  unfold read, obind, lift.
  destruct (probes_handle os (Z.lor win32.PROCESS_VM_READ
                                win32.PROCESS_QUERY_INFORMATION)
              lpBaseAddress s) as (evs1 & H1 & F1).
  destruct (get_handle os _ s) as [[h|e] s1]; [|discriminate].
  cbn [snd] in H1. unfold is_buffer.
  destruct (buffer_predicate_emits (probes lpBaseAddress) os MBI.has_content
              fuel lpBaseAddress nSize s1 (probes_mquery os lpBaseAddress))
    as (evs2 & H2 & F2).
  assert (Hpos : forall b s2,
            buffer_predicate os MBI.has_content fuel lpBaseAddress nSize s1
            = (Returns b, s2) -> 0 < nSize).
  { unfold buffer_predicate. intros b s2.
    destruct (Z.leb_spec nSize 0); [discriminate|lia]. }
  destruct (buffer_predicate os MBI.has_content fuel lpBaseAddress nSize s1)
    as [[[|]| | |] s2]; try discriminate.
  specialize (Hpos true s2 eq_refl). cbn [snd negb] in *.
  unfold ReadProcessMemory, os_call.
  destruct (os_ReadProcessMemory os (log s2) (value h) lpBaseAddress nSize)
    as [bytes|code]; [|discriminate].
  destruct (Z.eqb_spec (Z.of_nat (length bytes)) nSize) as [Hlen|Hlen];
    cbn [negb]; [|discriminate].
  unfold ret. intros [= <- <-].
  split; [exact Hlen|]. split; [exact Hpos|].
  exists (value h), (evs2 ++ evs1). cbn [log emit].
  rewrite H2, H1, app_assoc. split; [reflexivity|].
  apply Forall_app. auto.
Qed.

Lemma read_returns_the_size_asked_witness :
  exists data s',
    read Demo.os 1 0x10000 16 Demo.process = (Returns data, s') /\
    Z.of_nat (length data) = 16.
Proof.
  destruct (read Demo.os 1 0x10000 16 Demo.process) as [res s'] eqn:E.
  assert (Hres : exists data, res = Returns data)
    by (vm_compute in E; injection E as <- _; eauto).
  destruct Hres as (data & ->).
  exists data, s'. split; [reflexivity|].
  apply (read_returns_the_size_asked Demo.os 1 0x10000 16 Demo.process s' data E).
Defined.

(** A [read] of no bytes is an error, not an empty result: when the size
    is zero or negative and the handle is obtained, the call raises
    [ValueError], and nothing but the handle was asked of the target.
    [peek] returns the empty result for the same request, and asks
    nothing at all. *)
Theorem read_of_nothing_raises_ValueError (os : OS) (fuel : nat)
    (lpBaseAddress nSize : Z) (s : ProcessState) :
  nSize <= 0 ->
  (let '(res, s') := read os fuel lpBaseAddress nSize s in
   match get_handle os
           (Z.lor win32.PROCESS_VM_READ win32.PROCESS_QUERY_INFORMATION) s with
   | (Ok _, s1) => res = RaisesValueError /\ s' = s1
   | (Raise e, s1) => res = Raises e /\ s' = s1
   end) /\
  peek os lpBaseAddress nSize s = (Ok [], s).
Proof.
  intros Hn. split.
  - unfold read, obind, lift.
    destruct (get_handle os _ s) as [[h|e] s1]; [|auto].
    unfold is_buffer, buffer_predicate.
    destruct (Z.leb_spec nSize 0); [auto|lia].
  - unfold peek. destruct (Z.ltb_spec 0 nSize); [lia|reflexivity].
Qed.

Lemma read_of_nothing_raises_ValueError_witness :
  fst (read Demo.os 1 0x10000 0 Demo.process) = RaisesValueError /\
  peek Demo.os 0x10000 0 Demo.process = (Ok [], Demo.process).
Proof.
  destruct (read_of_nothing_raises_ValueError Demo.os 1 0x10000 0
              Demo.process ltac:(discriminate)) as (H & Hpeek).
  split; [|exact Hpeek].
  destruct (read Demo.os 1 0x10000 0 Demo.process) as [res s'].
  cbn in H. destruct H as (-> & _). reflexivity.
Defined.

(** The loop of the buffer predicates, and with it [read], comes to an
    end: when the system never reports an empty region at the address,
    following the loop for as many iterations as the buffer has bytes is
    enough to see the method return or raise. *)
Theorem buffer_predicates_and_read_end (os : OS) (fuel : nat)
    (address size : Z) :
  (forall l h m, os_VirtualQueryEx os l h address = Success m ->
                 0 < RegionSize m) ->
  (Z.to_nat size <= fuel)%nat ->
  (forall test s,
     fst (buffer_predicate os test fuel address size s) <> StillRunning) /\
  (forall s, fst (read os fuel address size s) <> StillRunning).
Proof.
  intros Hpos Hfuel.
  assert (Hloop : forall test fuel size s,
            (Z.to_nat size <= fuel)%nat ->
            fst (buffer_loop os test fuel address size s) <> StillRunning).
  { intros test. clear fuel size Hfuel.
    induction fuel as [|fuel IH]; intros size s Hfuel; cbn [buffer_loop];
      (destruct (Z.ltb_spec 0 size) as [Hsz|Hsz]; [|discriminate]); [lia|].
    destruct (query_or_false os address s) as [[[mbi|]|e] s1] eqn:Eq;
      try discriminate.
    destruct (negb (test mbi)); [discriminate|].
    apply IH.
    assert (0 < RegionSize mbi); [|lia].
    unfold query_or_false, except_WindowsError, try_except, bind, ret, raise in Eq.
    destruct (mquery os address s) as [[m|e] s0] eqn:Em.
    - injection Eq as <- <-.
      destruct (mquery_ok os address s s0 m Em) as (l & h & Hm).
      eapply Hpos, Hm.
    - destruct e as [code| | | | |]; try discriminate.
      destruct (code =? win32.ERROR_INVALID_PARAMETER); discriminate. }
  assert (Hpred : forall test s,
            fst (buffer_predicate os test fuel address size s) <> StillRunning).
  { intros test s. unfold buffer_predicate.
    destruct (size <=? 0); [discriminate|]. apply Hloop, Hfuel. }
  split; [exact Hpred|].
  intros s. unfold read, obind, lift.
  destruct (get_handle os _ s) as [[h|e] s1]; [|discriminate].
  unfold is_buffer. specialize (Hpred MBI.has_content s1).
  destruct (buffer_predicate os MBI.has_content fuel address size s1)
    as [[[|]| | |] s2]; cbn [fst negb] in *; try discriminate; try congruence.
  - unfold ReadProcessMemory, os_call.
    destruct (os_ReadProcessMemory os (log s2) (value h) address size);
      [|discriminate].
    destruct (negb _); unfold raise_WinError, ret; discriminate.
Qed.

Lemma Demo_regions_not_empty (address : Z) :
  forall l h m, os_VirtualQueryEx Demo.os l h address = Success m ->
                0 < RegionSize m.
Proof. intros l h m [= <-]. reflexivity. Defined.

Lemma buffer_predicates_and_read_end_witness :
  fst (read Demo.os (Z.to_nat 16) 0x10000 16 Demo.process) <> StillRunning.
Proof.
  apply (buffer_predicates_and_read_end Demo.os (Z.to_nat 16) 0x10000 16
           (Demo_regions_not_empty 0x10000) (le_n _)).
Defined.

(** ** Restoring page by page *)

Lemma poke_no_state_change (os : OS) (a : Z) (b : option (list Byte.byte)) :
  emits no_state_change (poke os a b).
Proof.
  assert (Hh : forall R, emits no_state_change (get_handle os R))
    by (intros R; apply get_handle_emits; reflexivity).
  assert (Hq : forall a, emits no_state_change (mquery os a))
    by (intros a0; apply mquery_emits; reflexivity).
  assert (Hp : forall a n p, emits no_state_change (mprotect os a n p)).
  { intros a0 n p. unfold mprotect, VirtualProtectEx. emits_go. }
  assert (Hb : emits no_state_change (get_bits os))
    by (apply get_bits_emits; reflexivity).
  unfold poke, py_len, WriteProcessMemory. emits_go.
Qed.

Lemma write_no_state_change (os : OS) (a : Z) (b : option (list Byte.byte)) :
  emits no_state_change (write os a b).
Proof.
  pose proof (poke_no_state_change os).
  unfold write, py_len, raise_WinError. emits_go.
Qed.

(** Once the descriptor of the current region carries the captured
    state, [__restore_mbi] allocates and frees nothing, and the
    descriptor it leaves still carries that state. *)
Lemma restore_mbi_state_kept (os : OS) (h : ProcessHandle)
    (new_mbi old_mbi : MemoryBasicInformation) (bM bE : bool)
    (s : ProcessState) :
  State new_mbi = State old_mbi ->
  let '(res, s') := __restore_mbi os h new_mbi old_mbi bM bE s in
  (forall new', res = Ok new' -> State new' = State old_mbi) /\
  exists evs, log s' = evs ++ log s /\ Forall no_state_change evs.
Proof.
  intros Hst.
  pose proof (poke_no_state_change os) as Hpoke.
  pose proof (write_no_state_change os) as Hwrite.
  assert (Hprot : forall n, emits no_state_change (restore_protect os h n old_mbi)).
  { intros n. unfold restore_protect, VirtualProtectEx. emits_go. }
  assert (Hdata : forall n, emits no_state_change (restore_data os n old_mbi bM)).
  { intros n. unfold restore_data. emits_go. }
  assert (Hbits : emits no_state_change (get_bits os))
    by (apply get_bits_emits; reflexivity).
  pose proof (HexDump_emits no_state_change os) as Hhex.
  assert (Herr : forall n e,
            emits no_state_change (restore_on_error os bE n old_mbi e)).
  { intros n e. unfold restore_on_error. emits_go. }
  assert (Herr_st : forall n e s0 n',
            State n = State old_mbi ->
            fst (restore_on_error os bE n old_mbi e s0) = Ok n' ->
            State n' = State old_mbi).
  { intros n e s0 n' Hn. unfold restore_on_error, bind, warn, ret, raise.
    destruct bE; cbn [negb]; [|discriminate].
    destruct (get_bits os s0) as [[bits|e0] s3]; [|discriminate].
    destruct (HexDump os (BaseAddress old_mbi) bits s3) as [[txt|e0] s4];
      [|discriminate].
    intros [= <-]. exact Hn. }
  unfold __restore_mbi.
  assert (E1 : restore_state os h new_mbi old_mbi s
               = (Ok (set_State new_mbi (State old_mbi)), s)).
  { unfold restore_state, bind, ret. rewrite Hst, Z.eqb_refl. reflexivity. }
  rewrite E1.
  set (new1 := set_State new_mbi (State old_mbi)).
  assert (H1 : State new1 = State old_mbi) by reflexivity.
  destruct (Hprot new1 s) as (evs2 & H2 & F2).
  assert (Hp_st : forall n2, fst (restore_protect os h new1 old_mbi s) = Ok n2 ->
            State n2 = State old_mbi).
  { unfold restore_protect, bind, ret, VirtualProtectEx, os_call.
    destruct (_ && _); [|intros n2 [= <-]; exact H1].
    destruct (os_VirtualProtectEx os _ _ _ _ _); intros n2; [|discriminate].
    intros [= <-]. reflexivity. }
  destruct (restore_protect os h new1 old_mbi s) as [[new2|e] s2];
    cbn [fst snd] in *.
  - specialize (Hp_st new2 eq_refl).
    destruct (Hdata new2 s2) as (evs3 & H3 & F3).
    assert (Hd_st : forall n3, fst (restore_data os new2 old_mbi bM s2) = Ok n3 ->
              State n3 = State old_mbi).
    { unfold restore_data.
      destruct (MBI.has_content old_mbi); [|intros n3 [= <-]; exact Hp_st].
      unfold bind at 1.
      match goal with
      | |- context [match ?c s2 with _ => _ end] =>
          destruct (c s2) as [[u|e] s3]
      end; intros n3; [|discriminate].
      intros [= <-]. exact Hp_st. }
    destruct (restore_data os new2 old_mbi bM s2) as [[new3|e] s3];
      cbn [fst snd] in *.
    + split; [intros n [= <-]; apply Hd_st; reflexivity|].
      exists (evs3 ++ evs2). rewrite H3, H2, app_assoc.
      split; [reflexivity|]. apply Forall_app. auto.
    + pose proof (Herr_st new2 e s3) as Hk.
      destruct (Herr new2 e s3) as (evs4 & H4 & F4).
      destruct (restore_on_error os bE new2 old_mbi e s3) as [r4 s4];
        cbn [fst snd] in *.
      split; [intros n ->; apply Hk; auto|].
      exists (evs4 ++ evs3 ++ evs2). rewrite H4, H3, H2, !app_assoc.
      split; [reflexivity|]. rewrite !Forall_app. auto.
  - pose proof (Herr_st new1 e s2) as Hk.
    destruct (Herr new1 e s2) as (evs4 & H4 & F4).
    destruct (restore_on_error os bE new1 old_mbi e s2) as [r4 s4];
      cbn [fst snd] in *.
    split; [intros n ->; apply Hk; auto|].
    exists (evs4 ++ evs2). rewrite H4, H2, !app_assoc.
    split; [reflexivity|]. rewrite !Forall_app. auto.
Qed.

Lemma restore_pages_state_kept (os : OS) (h : ProcessHandle) (bM bE : bool)
    (end_ : Z) (old_mbi : MemoryBasicInformation) :
  forall fuel address new_mbi,
    State new_mbi = State old_mbi ->
    emits no_state_change
      (restore_pages os fuel h address end_ new_mbi old_mbi bM bE).
Proof.
  induction fuel as [|fuel IH]; intros address new_mbi Hst s;
    cbn [restore_pages].
  - exists []. split; [reflexivity|constructor].
  - destruct (address <? end_); [|exists []; split; [reflexivity|constructor]].
    unfold bind.
    pose proof (restore_mbi_state_kept os h (set_BaseAddress new_mbi address)
                  (set_BaseAddress old_mbi address) bM bE s Hst) as H1.
    destruct (__restore_mbi os h _ _ bM bE s) as [[new1|e] s1].
    + destruct H1 as (Hst1 & evs1 & Hl1 & F1).
      destruct (IH (address + MemoryAddresses.pageSize) new1
                  (Hst1 new1 eq_refl) s1) as (evs2 & Hl2 & F2).
      exists (evs2 ++ evs1). rewrite Hl2, Hl1, app_assoc.
      split; [reflexivity|]. apply Forall_app. auto.
    + destruct H1 as (_ & evs1 & Hl1 & F1). exists evs1. auto.
Qed.

(** In strict mode a region that is restored without error has the
    captured state written in its descriptor. *)
Lemma restore_mbi_strict_state (os : OS) (h : ProcessHandle)
    (new_mbi old_mbi new' : MemoryBasicInformation) (bM : bool)
    (s s' : ProcessState) :
  __restore_mbi os h new_mbi old_mbi bM false s = (Ok new', s') ->
  State new' = State old_mbi.
Proof.
  unfold __restore_mbi, restore_on_error. cbn [negb].
  destruct (restore_state os h new_mbi old_mbi s) as [[new1|e] s1] eqn:E1;
    [|discriminate].
  assert (H1 : State new1 = State old_mbi).
  { unfold restore_state in E1. unfold bind at 1 in E1.
    match type of E1 with
    | context [match ?c s with _ => _ end] => destruct (c s) as [[n|e] s0]
    end; [|discriminate].
    injection E1 as <- _. reflexivity. }
  destruct (restore_protect os h new1 old_mbi s1) as [[new2|e] s2] eqn:E2;
    [|discriminate].
  assert (H2 : State new2 = State old_mbi).
  { unfold restore_protect, bind, ret, VirtualProtectEx, os_call in E2.
    destruct (_ && _); [|injection E2 as <- _; exact H1].
    destruct (os_VirtualProtectEx os _ _ _ _ _); [|discriminate].
    injection E2 as <- _. exact H1. }
  destruct (restore_data os new2 old_mbi bM s2) as [[new3|e] s3] eqn:E3;
    [|discriminate].
  intros [= <- <-].
  unfold restore_data in E3.
  destruct (MBI.has_content old_mbi); [|injection E3 as <- _; exact H2].
  unfold bind at 1 in E3.
  match type of E3 with
  | context [match ?c s2 with _ => _ end] => destruct (c s2) as [[u|e] s4]
  end; [|discriminate].
  injection E3 as <- _. exact H2.
Qed.

(** The page-by-page restore changes the state of the first page only.
    In strict mode, when the loop has a page to restore, either the
    first page fails and the loop ends there with its exception, or it is
    restored and no allocation and no free is made for any later page:
    the one descriptor of the current region that serves all pages says,
    from then on, that the state is already the captured one. *)
Theorem restore_pages_changes_state_once (os : OS) (h : ProcessHandle)
    (bSkipMappedFiles : bool) (fuel : nat) (address end_ : Z)
    (new_mbi old_mbi : MemoryBasicInformation) (s : ProcessState) :
  let pages :=
    restore_pages os (S fuel) h address end_ new_mbi old_mbi bSkipMappedFiles
      false in
  let '(first, s1) :=
    __restore_mbi os h (set_BaseAddress new_mbi address)
      (set_BaseAddress old_mbi address) bSkipMappedFiles false s in
  if address <? end_ then
    match first with
    | Raise e => pages s = (Raise e, s1)
    | Ok _ =>
        exists later,
          log (snd (pages s)) = later ++ log s1 /\
          Forall no_state_change later
    end
  else pages s = (Ok tt, s).
Proof.
  cbv zeta.
  destruct (__restore_mbi os h _ _ bSkipMappedFiles false s)
    as [first s1] eqn:E1.
  cbn [restore_pages]. destruct (address <? end_); [|reflexivity].
  unfold bind. rewrite E1. destruct first as [new1|e]; [|reflexivity].
  apply restore_pages_state_kept.
  apply (restore_mbi_strict_state os h _ _ _ _ _ _ E1).
Qed.

(** * Further properties of the container *)

Module MoreContainer.
Import Container ContainerSpec ContainerOps ContainerProofs.

(** ** Lookups *)

Lemma initialize_snapshot_idle (os : ScanOS) (c : Snapshot) :
  processDict c <> ∅ -> initialize_snapshot os c = (Ok tt, c).
Proof.
  intros Hne. unfold initialize_snapshot.
  rewrite bool_decide_eq_false_2 by exact Hne. reflexivity.
Qed.

(** A container that tracks something answers lookups from its
    dictionary and never scans for them: [has_process], [get_process],
    [get_process_count] and [get_process_ids] leave it as it is;
    [has_process] tells whether the ID is a key, and [get_process] gives
    the object stored under the key or raises [KeyError]. *)
Theorem lookups_answer_from_the_dictionary (os : ScanOS) (c : Snapshot)
    (dwProcessId : Z) :
  processDict c <> ∅ ->
  has_process os dwProcessId c = (Ok (bool_decide (dwProcessId ∈ keys c)), c) /\
  get_process os dwProcessId c
  = (match processDict c !! dwProcessId with
     | Some r => Ok r
     | None => Raise KeyError
     end, c) /\
  get_process_count os c = (Ok (size (processDict c)), c) /\
  get_process_ids os c = (Ok (keys c), c).
Proof.
  intros Hne.
  unfold has_process, get_process, get_process_count, get_process_ids, bind.
  rewrite (initialize_snapshot_idle os c Hne).
  split; [|split; [|split]]; try reflexivity.
  - f_equal. f_equal. apply bool_decide_ext. unfold keys.
    symmetry. apply elem_of_dom.
  - destruct (processDict c !! dwProcessId); reflexivity.
Qed.

Lemma two_processes_not_empty : processDict two_processes <> ∅.
Proof.
  intros H. apply (f_equal (fun m => m !! 4)) in H.
  vm_compute in H. discriminate.
Defined.

Lemma lookups_answer_from_the_dictionary_witness :
  get_process all_sources 4 two_processes = (Ok 0%nat, two_processes) /\
  get_process all_sources 8 two_processes = (Raise KeyError, two_processes).
Proof.
  split.
  - apply (lookups_answer_from_the_dictionary all_sources two_processes 4
             two_processes_not_empty).
  - apply (lookups_answer_from_the_dictionary all_sources two_processes 8
             two_processes_not_empty).
Defined.

(** What is added can be looked up: after [_add_process], [get_process]
    with the ID of the object returns that very object and [has_process]
    is true, without any scan; an object that was tracked under the same
    ID is replaced. *)
Theorem add_then_get_process (os : ScanOS) (aProcess : Process) (c : Snapshot) :
  let c1 := snd (_add_process aProcess c) in
  exists r,
    get_process os (dwProcessId aProcess) c1 = (Ok r, c1) /\
    read_object r c1 = Some aProcess /\
    has_process os (dwProcessId aProcess) c1 = (Ok true, c1).
Proof.
  cbv zeta. exists (length (store c)).
  assert (Hne : processDict (snd (_add_process aProcess c)) <> ∅).
  { rewrite add_process_dict. apply insert_non_empty. }
  assert (Hl : processDict (snd (_add_process aProcess c))
               !! dwProcessId aProcess = Some (length (store c))).
  { rewrite add_process_dict. apply lookup_insert_eq. }
  unfold has_process, get_process, bind.
  rewrite (initialize_snapshot_idle os _ Hne), Hl.
  split; [reflexivity|]. split.
  - unfold read_object. rewrite add_process_store.
    rewrite lookup_app_r by lia. rewrite Nat.sub_diag. reflexivity.
  - rewrite bool_decide_eq_true_2 by eauto. reflexivity.
Qed.

(** ** The first use of an empty container *)

Lemma keys_empty (c : Snapshot) : processDict c = ∅ -> keys c = ∅.
Proof. intros H. unfold keys. rewrite H. apply dom_empty_L. Qed.

Lemma scan_processes_on_empty (os : ScanOS) (c : Snapshot)
    (infos : list (Z * string)) :
  processDict c = ∅ -> WTSEnumerateProcesses os = Success infos ->
  exists c', scan_processes os c = (Ok tt, c') /\
             keys c' = reported os infos.*1.
Proof.
  intros He Ew.
  pose proof (scan_processes_reconciled os c infos Ew) as Hrec.
  unfold scan_processes in *. rewrite Ew in *.
  pose proof (walk_session_process (GetCurrentProcessId os) infos
                (keys c ∖ {[GetCurrentProcessId os]}) c) as Hw.
  destruct (walk (session_process (GetCurrentProcessId os)) _ infos c)
    as [dead c1].
  destruct Hw as (Hd & _).
  assert (Hdead : elements dead = []).
  { apply elements_empty_iff. rewrite Hd, (keys_empty c He).
    apply set_equiv. intros x. rewrite !elem_of_difference.
    rewrite elem_of_empty. tauto. }
  rewrite Hdead in *. cbn [for_each ret] in *.
  exists c1. split; [reflexivity|].
  destruct Hrec as (H1 & H2 & _). rewrite (keys_empty c He) in H2.
  apply set_eq. intros x. split; [|apply H1].
  intros Hx. apply H2 in Hx. rewrite elem_of_union, elem_of_empty in Hx. tauto.
Qed.

Lemma scan_processes_fast_on_empty (os : ScanOS) (c : Snapshot)
    (pids : list Z) :
  processDict c = ∅ -> EnumProcesses os = Success pids ->
  exists c', scan_processes_fast os c = (Ok tt, c') /\
             keys c' = reported os pids.
Proof.
  intros He Ee.
  pose proof (scan_processes_fast_reconciled os c pids Ee) as Hrec.
  unfold scan_processes_fast in *. rewrite Ee in *. unfold bind in *.
  destruct (for_each_add
              (elements ((list_to_set pids ∖ {[GetCurrentProcessId os]})
                         ∖ (keys c ∖ {[GetCurrentProcessId os]}))) c)
    as (Hok & _).
  destruct (for_each (fun pid => _add_process (new_Process pid None)) _ c)
    as [[[]|e] c1]; [|discriminate].
  assert (Hdead : elements ((keys c ∖ {[GetCurrentProcessId os]})
                            ∖ (list_to_set pids ∖ {[GetCurrentProcessId os]}))
                  = []).
  { apply elements_empty_iff. rewrite (keys_empty c He).
    apply set_equiv. intros x. rewrite !elem_of_difference.
    rewrite elem_of_empty. tauto. }
  rewrite Hdead in *. cbn [for_each ret] in *.
  exists c1. split; [reflexivity|].
  destruct Hrec as (H1 & H2 & _). rewrite (keys_empty c He) in H2.
  apply set_eq. intros x. split; [|apply H1].
  intros Hx. apply H2 in Hx. rewrite elem_of_union, elem_of_empty in Hx. tauto.
Qed.

(** The first lookup in a container that tracks nothing fills it, from
    the session source if it answers, else from the fast source; the file
    name pass that follows removes nothing and cannot fail.  The call
    raises only when both sources fail, with the error of the fast one,
    and the container is then still empty. *)
Theorem initialize_snapshot_sources (os : ScanOS) (c : Snapshot) :
  processDict c = ∅ ->
  let '(res, c') := initialize_snapshot os c in
  match WTSEnumerateProcesses os, EnumProcesses os with
  | Success infos, _ => res = Ok tt /\ keys c' = reported os infos.*1
  | Failure _, Success pids => res = Ok tt /\ keys c' = reported os pids
  | Failure _, Failure code => res = Raise (WindowsError code) /\ c' = c
  end.
Proof.
  intros He. unfold initialize_snapshot.
  rewrite bool_decide_eq_true_2 by exact He.
  unfold bind at 1 2, try_except.
  assert (Hnames : forall c1,
            exists hn c2, scan_process_filenames os c1 = (Ok hn, c2) /\
                          keys c2 = keys c1).
  { intros c1.
    destruct (scan_process_filenames_spec os c1) as (hn & c2 & E & Hs & _).
    exists hn, c2. split; [exact E|]. apply same_shape_keys, Hs. }
  destruct (WTSEnumerateProcesses os) as [infos|code] eqn:Ew.
  - destruct (scan_processes_on_empty os c infos He Ew) as (c1 & -> & Hk).
    destruct (Hnames c1) as (hn & c2 & -> & Hk2). cbn [ret].
    split; [reflexivity|congruence].
  - assert (Es : scan_processes os c = (Raise (WindowsError code), c)).
    { unfold scan_processes. rewrite Ew. reflexivity. }
    rewrite Es.
    destruct (EnumProcesses os) as [pids|code'] eqn:Ee.
    + destruct (scan_processes_fast_on_empty os c pids He Ee) as (c1 & -> & Hk).
      destruct (Hnames c1) as (hn & c2 & -> & Hk2). cbn [ret].
      split; [reflexivity|congruence].
    + unfold scan_processes_fast. rewrite Ee. split; reflexivity.
Qed.

(** On the system where only the toolhelp source is denied, the first
    lookup tracks what the session source lists. *)
Lemma initialize_snapshot_sources_witness :
  exists c',
    initialize_snapshot toolhelp_denied empty_Snapshot = (Ok tt, c') /\
    keys c' = reported toolhelp_denied [4; 8; 1234].
Proof.
  pose proof (initialize_snapshot_sources toolhelp_denied empty_Snapshot
                eq_refl) as H.
  destruct (initialize_snapshot toolhelp_denied empty_Snapshot) as [res c'].
  cbn in H. destruct H as (-> & Hk). exists c'. split; [reflexivity|exact Hk].
Defined.

(** ** The exit notification *)

Lemma Process_clear_effect (os : ScanOS) (r : nat) (c : Snapshot) :
  snd (Process_clear os r c)
  = match store c !! r with
    | Some p => write_object r (cleared p) c
    | None => c
    end.
Proof.
  unfold Process_clear, read_object, cleared.
  destruct (store c !! r) as [p|]; [|reflexivity].
  destruct (hProcess p) as [h|]; [|reflexivity].
  destruct (value h =? win32.INVALID_HANDLE_VALUE); [reflexivity|].
  destruct (CloseHandle os (value h)); reflexivity.
Qed.

(** After an exit notification the process is no longer tracked, also
    when closing its handle raised: the key is gone from the dictionary
    and no other key is touched; the object that was stored under it has
    been cleared (no handle, no threads, no modules) and no other object
    has changed.  The notification returns [True] unless closing raised,
    and it never scans. *)
Theorem exit_notification_untracks (os : ScanOS) (dwProcessId : Z)
    (c : Snapshot) :
  let '(res, c') := _notify_exit_process os dwProcessId c in
  processDict c' = delete dwProcessId (processDict c) /\
  store c'
  = match tracked c dwProcessId with
    | Some (r, p) => <[r := cleared p]> (store c)
    | None => store c
    end /\
  (closes_succeed os -> res = Ok true) /\
  (is_Ok res = true -> res = Ok true).
Proof.
  unfold _notify_exit_process, tracked.
  destruct (processDict c !! dwProcessId) as [r|] eqn:E.
  2:{ split; [symmetry; apply delete_id, E|]. auto. }
  unfold bind, ret.
  pose proof (del_process_dict os dwProcessId c) as Hd.
  pose proof (del_process_ok os dwProcessId c) as Hok.
  assert (Hs : store (snd (_del_process os dwProcessId c))
               = match store c !! r with
                 | Some p => <[r := cleared p]> (store c)
                 | None => store c
                 end).
  { unfold _del_process. rewrite E, Process_clear_effect. cbn [store].
    destruct (store c !! r); reflexivity. }
  destruct (_del_process os dwProcessId c) as [[[]|e] c1]; cbn [fst snd] in *.
  - split; [exact Hd|]. split; [|auto].
    rewrite Hs. destruct (store c !! r); reflexivity.
  - split; [exact Hd|]. split; [|split].
    + rewrite Hs. destruct (store c !! r); reflexivity.
    + intros Hos. specialize (Hok Hos). discriminate.
    + discriminate.
Qed.

(** ** File names *)

Lemma names_kept_refl (c : Snapshot) : names_kept c c.
Proof. intros r p H. exists p. auto. Qed.

Lemma names_kept_trans (c1 c2 c3 : Snapshot) :
  names_kept c1 c2 -> names_kept c2 c3 -> names_kept c1 c3.
Proof.
  intros H12 H23 r p Hp.
  destruct (H12 r p Hp) as (p2 & Hp2 & Hid2 & Hn2).
  destruct (H23 r p2 Hp2) as (p3 & Hp3 & Hid3 & Hn3).
  exists p3. split; [exact Hp3|]. split; [congruence|].
  intros Ht. specialize (Hn2 Ht). rewrite <- Hn2. apply Hn3.
  rewrite Hn2. exact Ht.
Qed.

Lemma names_kept_update (r0 : nat) (f : Process -> Process) (c : Snapshot) :
  (forall p, dwProcessId (f p) = dwProcessId p /\
             (name_truthy (fileName p) = true -> fileName (f p) = fileName p)) ->
  names_kept c (snd (update_object r0 f c)).
Proof.
  intros Hf r p Hp. unfold update_object, read_object.
  destruct (store c !! r0) as [p0|] eqn:E0; cbn [snd]; [|exists p; auto].
  unfold write_object. cbn [store].
  destruct (decide (r = r0)) as [->|Hne].
  - exists (f p0). rewrite list_lookup_insert_eq by (eapply lookup_lt_Some, E0).
    assert (p0 = p) as -> by congruence.
    destruct (Hf p). auto.
  - exists p. rewrite list_lookup_insert_ne by congruence. auto.
Qed.

Lemma names_kept_add (p0 : Process) (c : Snapshot) :
  names_kept c (snd (_add_process p0 c)).
Proof.
  intros r p Hp. exists p. rewrite add_process_store.
  rewrite lookup_app_l by (eapply lookup_lt_Some, Hp). auto.
Qed.

Lemma names_kept_clear (os : ScanOS) (r0 : nat) (c : Snapshot) :
  names_kept c (snd (Process_clear os r0 c)).
Proof.
  assert (E : store (snd (Process_clear os r0 c))
              = store (snd (update_object r0 cleared c))).
  { unfold Process_clear, update_object, read_object, cleared.
    destruct (store c !! r0) as [p|]; [|reflexivity].
    destruct (hProcess p) as [h|]; [|reflexivity].
    destruct (value h =? win32.INVALID_HANDLE_VALUE); [reflexivity|].
    destruct (CloseHandle os (value h)); reflexivity. }
  intros r p Hp. rewrite E. apply (names_kept_update r0 cleared c); [|exact Hp].
  intros q. split; [reflexivity|auto].
Qed.

Lemma names_kept_del (os : ScanOS) (pid : Z) (c : Snapshot) :
  names_kept c (snd (_del_process os pid c)).
Proof.
  unfold _del_process.
  destruct (processDict c !! pid) as [r0|]; [|apply names_kept_refl].
  intros r p Hp.
  apply (names_kept_clear os r0
           (mkSnapshot (delete pid (processDict c)) (store c)) r p Hp).
Qed.

Lemma names_kept_enrich (pid : Z) (n : option string) (c : Snapshot) :
  names_kept c (snd (enrich_fileName pid n c)).
Proof.
  unfold enrich_fileName.
  destruct (processDict c !! pid) as [r0|]; [|apply names_kept_add].
  destruct (name_truthy n); [|apply names_kept_refl].
  apply names_kept_update. intros p.
  destruct (name_truthy (fileName p)); cbn [negb]; split; auto.
  discriminate.
Qed.

Lemma names_kept_toolhelp_thread (our : Z) (acc : gset Z * gset Z)
    (te : Z * Z) (c : Snapshot) :
  names_kept c (snd (toolhelp_thread our acc te c)).
Proof.
  destruct acc as [dead found], te as [pid tid]. unfold toolhelp_thread.
  destruct (negb _); [|apply names_kept_refl]. cbn [snd].
  set (c1 := match processDict c !! pid with
             | Some _ => c
             | None => snd (_add_process (new_Process pid None) c)
             end).
  assert (H1 : names_kept c c1).
  { subst c1. destruct (processDict c !! pid);
      [apply names_kept_refl|apply names_kept_add]. }
  destruct (processDict c1 !! pid) as [r|]; [|exact H1].
  eapply names_kept_trans; [exact H1|].
  apply names_kept_update. intros p. unfold add_thread.
  destruct (bool_decide _); split; auto.
Qed.

Lemma names_kept_for_each_del (os : ScanOS) (c0 : Snapshot) (l : list Z) :
  forall c, names_kept c0 c ->
            names_kept c0 (snd (for_each (_del_process os) l c)).
Proof.
  intros c Hc. apply for_each_invariant; [|exact Hc].
  intros pid c1 _ H1. eapply names_kept_trans; [exact H1|apply names_kept_del].
Qed.

Lemma scan_processes_names_kept (os : ScanOS) (c : Snapshot) :
  names_kept c (snd (scan_processes os c)).
Proof.
  unfold scan_processes.
  destruct (WTSEnumerateProcesses os) as [infos|code]; [|apply names_kept_refl].
  pose proof (walk_invariant (names_kept c)
                (session_process (GetCurrentProcessId os)) infos) as Hw.
  specialize (Hw
    ltac:(intros acc [pid name] c1 H1; unfold session_process;
          destruct (pid =? _); [exact H1|];
          eapply names_kept_trans; [exact H1|apply names_kept_enrich])
    (keys c ∖ {[GetCurrentProcessId os]}) c (names_kept_refl c)).
  destruct (walk (session_process _) _ infos c) as [dead c1]. cbn [snd] in Hw.
  apply names_kept_for_each_del, Hw.
Qed.

Lemma scan_processes_and_threads_names_kept (os : ScanOS) (c : Snapshot) :
  names_kept c (snd (scan_processes_and_threads os c)).
Proof.
  unfold scan_processes_and_threads.
  destruct (CreateToolhelp32Snapshot os) as [th|code];
    [|apply names_kept_refl].
  pose proof (walk_invariant (names_kept c)
                (toolhelp_process (GetCurrentProcessId os))
                (process_entries th)) as Hw1.
  specialize (Hw1
    ltac:(intros acc [pid name] c1 H1; unfold toolhelp_process;
          destruct (negb _); [|exact H1];
          eapply names_kept_trans; [exact H1|apply names_kept_enrich])
    (keys c ∖ {[GetCurrentProcessId os]}) c (names_kept_refl c)).
  destruct (walk (toolhelp_process _) _ (process_entries th) c) as [dead1 c1].
  cbn [snd] in Hw1.
  pose proof (walk_invariant (names_kept c)
                (toolhelp_thread (GetCurrentProcessId os))
                (thread_entries th)) as Hw2.
  specialize (Hw2
    ltac:(intros acc te c0 H0; eapply names_kept_trans;
          [exact H0|apply names_kept_toolhelp_thread])
    (dead1, ∅) c1 Hw1).
  destruct (walk (toolhelp_thread _) _ (thread_entries th) c1)
    as [[dead2 found] c2].
  cbn [snd] in Hw2.
  apply bind_invariant.
  - apply names_kept_for_each_del, Hw2.
  - intros _ c3 H3. apply for_each_invariant; [|exact H3].
    intros r c4 _ H4. eapply names_kept_trans; [exact H4|].
    unfold remove_dead_threads. apply names_kept_update.
    intros p. split; auto.
Qed.

Lemma scan_processes_fast_names_kept (os : ScanOS) (c : Snapshot) :
  names_kept c (snd (scan_processes_fast os c)).
Proof.
  unfold scan_processes_fast.
  destruct (EnumProcesses os) as [pids|code]; [|apply names_kept_refl].
  apply bind_invariant.
  - apply for_each_invariant; [|apply names_kept_refl].
    intros pid c1 _ H1. eapply names_kept_trans; [exact H1|apply names_kept_add].
  - intros _ c1 H1. apply names_kept_for_each_del, H1.
Qed.

(** The enumeration passes fill file names in, they never replace or
    drop one.  Whatever the sources report and whatever the outcome,
    after [scan_processes], [scan_processes_and_threads] or
    [scan_processes_fast] every process object that existed is still
    there with its process ID, tracked or not, and when it had a
    non-empty file name it still has that name. *)
Theorem enumeration_keeps_known_names (os : ScanOS) (c : Snapshot) :
  names_kept c (snd (scan_processes os c)) /\
  names_kept c (snd (scan_processes_and_threads os c)) /\
  names_kept c (snd (scan_processes_fast os c)).
Proof.
  split; [apply scan_processes_names_kept|].
  split; [apply scan_processes_and_threads_names_kept|].
  apply scan_processes_fast_names_kept.
Qed.

(** ** The file name pass *)

Lemma set_fileName_same (p : Process) : set_fileName (fileName p) p = p.
Proof. destruct p. reflexivity. Qed.

Lemma write_object_twice (r : nat) (p1 p2 : Process) (c : Snapshot) :
  write_object r p2 (write_object r p1 c) = write_object r p2 c.
Proof.
  unfold write_object. cbn [store processDict].
  rewrite list_insert_insert_eq. reflexivity.
Qed.

Lemma write_object_same (r : nat) (p : Process) (c : Snapshot) :
  store c !! r = Some p -> write_object r p c = c.
Proof.
  intros E. destruct c as [d st]. unfold write_object. cbn [store processDict] in *.
  f_equal. apply list_insert_id, E.
Qed.

Lemma update_written (r : nat) (f : Process -> Process) (p : Process)
    (c : Snapshot) :
  (r < length (store c))%nat ->
  snd (update_object r f (write_object r p c)) = write_object r (f p) c.
Proof.
  intros Hr. unfold update_object, read_object.
  cbn [store write_object]. rewrite list_lookup_insert_eq by exact Hr.
  cbn [snd]. apply write_object_twice.
Qed.

(** What one step of the loop does to the container: the object behind
    the reference is refreshed, whatever the retrieval answers. *)
Lemma refresh_filename_effect (os : ScanOS) (r : nat) (c : Snapshot) :
  snd (refresh_filename os r c)
  = match store c !! r with
    | Some p => write_object r (refreshed os p) c
    | None => c
    end.
Proof.
  unfold refresh_filename, read_object.
  destruct (store c !! r) as [p|] eqn:E; [|reflexivity].
  pose proof (lookup_lt_Some _ _ _ E) as Hr.
  unfold Process_get_filename, read_object. cbn [store write_object].
  rewrite list_lookup_insert_eq by exact Hr.
  cbn [fileName set_fileName name_truthy negb dwProcessId]. cbv zeta.
  fold (write_object r (set_fileName None p) c).
  unfold refreshed, refreshed_name.
  destruct (os_get_image_name os (dwProcessId p)) as [n|e] eqn:En.
  - rewrite write_object_twice.
    destruct (name_truthy n) eqn:Hn; cbn [negb fst snd].
    + reflexivity.
    + rewrite (update_written r _ _ c Hr). reflexivity.
  - cbn [fst snd]. rewrite write_object_twice.
    rewrite (update_written r _ _ c Hr). reflexivity.
Qed.

Lemma refresh_filename_lookup (os : ScanOS) (r0 r : nat) (c : Snapshot) :
  store (snd (refresh_filename os r0 c)) !! r
  = if decide (r = r0) then refreshed os <$> store c !! r else store c !! r.
Proof.
  rewrite refresh_filename_effect.
  destruct (store c !! r0) as [p0|] eqn:E0.
  - unfold write_object. cbn [store].
    destruct (decide (r = r0)) as [->|Hne].
    + rewrite list_lookup_insert_eq by (eapply lookup_lt_Some, E0).
      rewrite E0. reflexivity.
    + apply list_lookup_insert_ne. congruence.
  - destruct (decide (r = r0)) as [->|Hne]; [|reflexivity].
    rewrite E0. reflexivity.
Qed.

Lemma refresh_filename_dict (os : ScanOS) (r : nat) (c : Snapshot) :
  processDict (snd (refresh_filename os r c)) = processDict c.
Proof.
  rewrite refresh_filename_effect. destruct (store c !! r); reflexivity.
Qed.

(** The loop refreshes the object behind a reference once for every time
    the reference is met. *)
Lemma and_each_refresh (os : ScanOS) (refs : list nat) :
  forall complete c,
    let c' := snd (and_each (refresh_filename os) refs complete c) in
    processDict c' = processDict c /\
    forall r,
      store c' !! r
      = Nat.iter (count_occ Nat.eq_dec refs r) (refreshed os)
        <$> store c !! r.
Proof.
  induction refs as [|r0 refs IH]; intros complete c; cbn [and_each].
  - cbn. split; [reflexivity|]. intros r. destruct (store c !! r); reflexivity.
  - unfold bind.
    pose proof (refresh_filename_dict os r0 c) as Hd.
    pose proof (refresh_filename_lookup os r0) as Hl.
    specialize (Hl) with (c := c).
    destruct (refresh_filename_step os r0 c) as (_ & (b & Hb) & _).
    destruct (refresh_filename os r0 c) as [res c1]. cbn [fst snd] in *.
    subst res.
    destruct (IH (complete && b) c1) as (Hd' & Hl'). cbv zeta in *.
    split; [congruence|]. intros r. rewrite Hl', Hl.
    destruct (decide (r = r0)) as [->|Hne].
    + rewrite count_occ_cons_eq by reflexivity.
      destruct (store c !! r0) as [p|]; [|reflexivity].
      cbn [fmap option_fmap option_map]. rewrite Nat.iter_succ_r. reflexivity.
    + rewrite count_occ_cons_neq by congruence. reflexivity.
Qed.

(** However often an object is refreshed, it keeps its process ID and
    its threads, and its file name is the one it had or a non-empty name
    the system gave for that process. *)
Lemma iter_refreshed (os : ScanOS) (k : nat) (p : Process) :
  let p' := Nat.iter k (refreshed os) p in
  dwProcessId p' = dwProcessId p /\
  threadIds p' = threadIds p /\
  (fileName p' = fileName p \/
   (name_truthy (fileName p') = true /\
    os_get_image_name os (dwProcessId p) = Ok (fileName p'))).
Proof.
  induction k as [|k IH]; cbv zeta in *.
  - cbn. auto.
  - rewrite Nat.iter_succ. destruct IH as (Hpid & Hth & Hname).
    remember (Nat.iter k (refreshed os) p) as q eqn:Eq. clear Eq.
    assert (Hf : fileName (refreshed os q) = refreshed_name os q)
      by reflexivity.
    assert (Hp : dwProcessId (refreshed os q) = dwProcessId q)
      by reflexivity.
    assert (Ht : threadIds (refreshed os q) = threadIds q) by reflexivity.
    rewrite Hf, Hp, Ht.
    split; [exact Hpid|]. split; [exact Hth|].
    unfold refreshed_name. rewrite Hpid.
    destruct (os_get_image_name os (dwProcessId p)) as [n|e] eqn:En;
      [|exact Hname].
    destruct (name_truthy n) eqn:Hn; [right; auto|exact Hname].
Qed.

(** [scan_process_filenames] always returns and leaves the dictionary as
    it is.  Every process object is refreshed once for every time the
    dictionary holds it, and the other objects are left alone; a refresh
    leaves the handle and the module snapshot of the object as the
    retrieval of the image name left them, and gives the object the name
    that was retrieved, or the name it had when the retrieval fails or
    answers with an empty name.  So every object keeps its process ID
    and its threads, and the file name it has afterwards is either the
    one it had or a non-empty name the system gave for that process: a
    name is never lost. *)
Theorem scan_process_filenames_improves_names (os : ScanOS) (c : Snapshot) :
  exists complete c',
    scan_process_filenames os c = (Ok complete, c') /\
    processDict c' = processDict c /\
    (forall r,
       store c' !! r
       = Nat.iter (count_occ Nat.eq_dec (values c) r) (refreshed os)
         <$> store c !! r) /\
    (forall r, r ∉ values c -> store c' !! r = store c !! r) /\
    names_improved os c c'.
Proof.
  destruct (scan_process_filenames_spec os c) as (hn & c' & E & _).
  exists hn, c'. split; [exact E|].
  pose proof (and_each_refresh os (values c) true c) as H.
  unfold scan_process_filenames in E. rewrite E in H. cbn [snd] in H.
  cbv zeta in H. destruct H as (Hd & Hl).
  split; [exact Hd|]. split; [exact Hl|]. split.
  - intros r Hr. rewrite Hl.
    rewrite (proj1 (count_occ_not_In Nat.eq_dec (values c) r)).
    + destruct (store c !! r); reflexivity.
    + intros Hin. apply Hr, list_elem_of_In, Hin.
  - split; [exact Hd|]. intros r p Hp. rewrite Hl, Hp.
    eexists. split; [reflexivity|]. apply iter_refreshed.
Qed.

(** ** Clearing the container *)

Lemma write_object_lookup (r0 r : nat) (p p0 : Process) (c : Snapshot) :
  store c !! r0 = Some p0 ->
  store (write_object r0 p c) !! r
  = if decide (r = r0) then Some p else store c !! r.
Proof.
  intros E0. unfold write_object. cbn [store].
  destruct (decide (r = r0)) as [->|Hne].
  - apply list_lookup_insert_eq. eapply lookup_lt_Some, E0.
  - apply list_lookup_insert_ne. congruence.
Qed.

Lemma Process_clear_lookup (os : ScanOS) (r0 r : nat) (c : Snapshot) :
  store (snd (Process_clear os r0 c)) !! r
  = if decide (r = r0) then cleared <$> store c !! r else store c !! r.
Proof.
  rewrite Process_clear_effect. destruct (store c !! r0) as [p0|] eqn:E0.
  - rewrite (write_object_lookup r0 r _ p0 c E0).
    destruct (decide (r = r0)) as [->|Hne]; [|reflexivity].
    rewrite E0. reflexivity.
  - destruct (decide (r = r0)) as [->|Hne]; [|reflexivity].
    rewrite E0. reflexivity.
Qed.

Lemma for_each_clear (os : ScanOS) (l : list nat) :
  forall c,
    let '(res, c') := for_each (Process_clear os) l c in
    processDict c' = processDict c /\
    (forall r, r ∉ l -> store c' !! r = store c !! r) /\
    (forall r, store c' !! r = store c !! r \/
               store c' !! r = cleared <$> store c !! r) /\
    (res = Ok tt ->
     forall r, r ∈ l -> store c' !! r = cleared <$> store c !! r) /\
    (closes_succeed os -> res = Ok tt).
Proof.
  induction l as [|r0 l IH]; intros c; cbn [for_each].
  - cbn [ret]. split; [reflexivity|]. split; [auto|]. split; [auto|].
    split; [|auto]. intros _ r Hr. inversion Hr.
  - unfold bind.
    pose proof (Process_clear_dict os r0 c) as Hd.
    pose proof (Process_clear_lookup os r0) as Hl.
    pose proof (Process_clear_ok os r0 c) as Hok.
    specialize (Hl) with (c := c).
    destruct (Process_clear os r0 c) as [[[]|e] c1]; cbn [fst snd] in *.
    + specialize (IH c1).
      destruct (for_each (Process_clear os) l c1) as [res c'].
      destruct IH as (I1 & I2 & I3 & I4 & I5).
      split; [congruence|]. split; [|split; [|split]].
      * intros r Hr. rewrite not_elem_of_cons in Hr. destruct Hr as (Hne & Hr).
        rewrite (I2 r Hr), Hl. destruct (decide (r = r0)); [contradiction|].
        reflexivity.
      * intros r. specialize (Hl r).
        destruct (I3 r) as [E|E]; rewrite E, Hl;
          destruct (decide (r = r0)); auto.
        right. destruct (store c !! r); reflexivity.
      * intros Hres r Hr.
        destruct (decide (r ∈ l)) as [Hin|Hout].
        -- rewrite (I4 Hres r Hin), Hl.
           destruct (decide (r = r0)); [|reflexivity].
           destruct (store c !! r); reflexivity.
        -- apply elem_of_cons in Hr. destruct Hr as [->|Hr]; [|contradiction].
           rewrite (I2 r0 Hout), Hl.
           destruct (decide (r0 = r0)); [reflexivity|contradiction].
      * exact I5.
    + split; [exact Hd|]. split; [|split; [|split]].
      * intros r Hr. rewrite not_elem_of_cons in Hr. destruct Hr as (Hne & Hr).
        rewrite Hl. destruct (decide (r = r0)); [contradiction|]. reflexivity.
      * intros r. rewrite Hl. destruct (decide (r = r0)); auto.
      * discriminate.
      * intros Hos. specialize (Hok Hos). discriminate.
Qed.

(** [clear_processes] on a container that tracks something.  When it
    returns, nothing is tracked any more, and every object that was
    tracked has been cleared: it has no handle, no threads and no
    modules, and keeps its ID and its file name.  When closing a handle
    raises, the call ends there and the dictionary is left as it was:
    nothing is untracked, although some objects are already cleared.
    Objects that were not tracked are never touched.  The call returns
    when no handle fails to close. *)
Theorem clear_processes_outcome (os : ScanOS) (c : Snapshot) :
  processDict c <> ∅ ->
  let '(res, c') := clear_processes os c in
  (forall r, r ∉ values c -> store c' !! r = store c !! r) /\
  match res with
  | Ok _ =>
      processDict c' = ∅ /\
      forall r, r ∈ values c -> store c' !! r = cleared <$> store c !! r
  | Raise _ =>
      processDict c' = processDict c /\
      forall r, store c' !! r = store c !! r \/
                store c' !! r = cleared <$> store c !! r
  end /\
  (closes_succeed os -> res = Ok tt).
Proof.
  intros Hne. unfold clear_processes, iter_processes.
  unfold bind at 1 2. rewrite (initialize_snapshot_idle os c Hne). unfold bind at 1.
  pose proof (for_each_clear os (values c) c) as H.
  destruct (for_each (Process_clear os) (values c) c) as [[[]|e] c1].
  - destruct H as (H1 & H2 & H3 & H4 & H5). cbn [store processDict].
    split; [exact H2|]. split; [|auto]. split; [reflexivity|].
    apply H4. reflexivity.
  - destruct H as (H1 & H2 & H3 & H4 & H5).
    split; [exact H2|]. split; [auto|exact H5].
Qed.

(** On the system where every handle closes, clearing the container that
    tracks processes 4 and 16 returns and leaves nothing tracked. *)
Lemma clear_processes_outcome_witness :
  exists c',
    clear_processes all_sources two_processes = (Ok tt, c') /\
    processDict c' = ∅.
Proof.
  pose proof (clear_processes_outcome all_sources two_processes
                two_processes_not_empty) as H.
  destruct (clear_processes all_sources two_processes) as [res c'].
  destruct H as (_ & H & Hok).
  assert (Hres : res = Ok tt).
  { apply Hok. intros h. exists tt. reflexivity. }
  subst res. destruct H as (Hd & _).
  exists c'. split; [reflexivity|exact Hd].
Defined.

(** ** Closing the handles *)

Lemma bool_decide_if_ext {A : Type} (P Q : Prop) `{Decision P, Decision Q}
    (a b : A) :
  (P <-> Q) ->
  (if bool_decide P then a else b) = (if bool_decide Q then a else b).
Proof. intros H1. rewrite (bool_decide_ext P Q H1). reflexivity. Qed.

Lemma set_hProcess_twice (x : option Process) :
  set_hProcess None <$> (set_hProcess None <$> x) = set_hProcess None <$> x.
Proof. destruct x; reflexivity. Qed.

Lemma Process_close_handle_quietly (os : ScanOS) (r : nat) (c : Snapshot) :
  exists c',
    try_except (Process_close_handle os r) (fun _ => ret tt) c = (Ok tt, c') /\
    processDict c' = processDict c /\
    forall r',
      store c' !! r'
      = if decide (r' = r) then set_hProcess None <$> store c !! r'
        else store c !! r'.
Proof.
  assert (E : forall r', store (match store c !! r with
                                | Some p => write_object r (set_hProcess None p) c
                                | None => c
                                end) !! r'
                         = if decide (r' = r)
                           then set_hProcess None <$> store c !! r'
                           else store c !! r').
  { intros r'. destruct (store c !! r) as [p0|] eqn:E0.
    - rewrite (write_object_lookup r r' _ p0 c E0).
      destruct (decide (r' = r)) as [->|Hne]; [|reflexivity].
      rewrite E0. reflexivity.
    - destruct (decide (r' = r)) as [->|Hne]; [|reflexivity].
      rewrite E0. reflexivity. }
  unfold try_except, Process_close_handle, read_object, ret.
  destruct (store c !! r) as [p|] eqn:Ep.
  2:{ exists c. split; [reflexivity|]. split; [reflexivity|exact E]. }
  exists (write_object r (set_hProcess None p) c).
  split; [|split; [reflexivity|exact E]].
  destruct (hProcess p) as [h|]; [|reflexivity].
  destruct (value h =? win32.INVALID_HANDLE_VALUE); [reflexivity|].
  destruct (CloseHandle os (value h)); reflexivity.
Qed.

Lemma for_each_close (os : ScanOS) (d : gmap Z nat) (l : list Z) :
  d <> ∅ ->
  (forall pid, pid ∈ l -> is_Some (d !! pid)) ->
  forall c,
    processDict c = d ->
    exists c',
      for_each
        (fun pid =>
           do r <- get_process os pid ;
           try_except (Process_close_handle os r) (fun _ => ret tt)) l c
      = (Ok tt, c') /\
      processDict c' = d /\
      forall r,
        store c' !! r
        = if bool_decide (r ∈ omap (fun pid => d !! pid) l)
          then set_hProcess None <$> store c !! r
          else store c !! r.
Proof.
  intros Hne. induction l as [|pid l IH]; intros Hl c Hd; cbn [for_each].
  - exists c. split; [reflexivity|]. split; [exact Hd|].
    intros r. cbn [omap]. rewrite bool_decide_eq_false_2; [reflexivity|].
    intros H. inversion H.
  - destruct (Hl pid ltac:(left)) as [r0 E0].
    assert (Hne' : processDict c <> ∅) by (rewrite Hd; exact Hne).
    unfold bind at 1 2. unfold get_process at 1. unfold bind at 1.
    rewrite (initialize_snapshot_idle os c Hne'). cbn beta.
    pose proof E0 as E0'. rewrite <- Hd in E0'. rewrite E0'.
    destruct (Process_close_handle_quietly os r0 c) as (c1 & -> & Hd1 & Hs1).
    destruct (IH (fun p Hp => Hl p ltac:(right; exact Hp)) c1
                ltac:(congruence)) as (c' & -> & Hd' & Hs').
    exists c'. split; [reflexivity|]. split; [exact Hd'|].
    assert (Eo : omap (fun pid0 => d !! pid0) (pid :: l)
                 = r0 :: omap (fun pid0 => d !! pid0) l).
    { cbn. rewrite E0. reflexivity. }
    intros r. rewrite Hs', Hs1, Eo.
    destruct (decide (r = r0)) as [->|Hr].
    + rewrite (bool_decide_eq_true_2 (r0 ∈ r0 :: _)) by left.
      rewrite set_hProcess_twice.
      destruct (bool_decide _); reflexivity.
    + apply bool_decide_if_ext. rewrite elem_of_cons. tauto.
Qed.

Lemma values_omap (c : Snapshot) (r : nat) :
  r ∈ omap (fun pid => processDict c !! pid) (elements (keys c))
  <-> r ∈ values c.
Proof.
  unfold values, keys. rewrite list_elem_of_omap, list_elem_of_fmap. split.
  - intros (pid & _ & E). exists (pid, r). split; [reflexivity|].
    apply elem_of_map_to_list, E.
  - intros ([pid r'] & -> & E). apply elem_of_map_to_list in E.
    exists pid. split; [|exact E]. apply elem_of_elements, elem_of_dom. eauto.
Qed.

(** [close_process_handles] on a container that tracks something never
    raises, whatever the system answers when a handle is closed: every
    tracked object ends without a handle and is otherwise as it was,
    nothing is untracked, and the objects that are not tracked keep their
    handles. *)
Theorem close_process_handles_never_raises (os : ScanOS) (c : Snapshot) :
  processDict c <> ∅ ->
  exists c',
    close_process_handles os c = (Ok tt, c') /\ handles_closed c c'.
Proof.
  intros Hne. unfold close_process_handles, get_process_ids.
  unfold bind at 1 2. rewrite (initialize_snapshot_idle os c Hne).
  destruct (for_each_close os (processDict c) (elements (keys c)) Hne) with (c := c)
    as (c' & E & Hd & Hs); [|reflexivity|].
  { intros pid Hp. apply elem_of_dom. apply elem_of_elements in Hp. exact Hp. }
  exists c'. split; [exact E|]. split; [exact Hd|].
  intros r. rewrite Hs. apply bool_decide_if_ext, values_omap.
Qed.

(** Also where no handle can be closed, the handle of process 4 is
    dropped and the call returns. *)
Lemma close_process_handles_never_raises_witness :
  exists c',
    close_process_handles closes_fail two_processes = (Ok tt, c') /\
    handles_closed two_processes c'.
Proof.
  exact (close_process_handles_never_raises closes_fail two_processes
           two_processes_not_empty).
Defined.

End MoreContainer.
